(** * Host reference model of the pairwise interaction layer

    Shallow embedding of the host-side reference computation of
    [test/utest/legacy_layer_test/interaction_layer_test_old.cpp]: the
    concatenation lambda [concat_op], the Gram (matmul) loop, the output
    assembly, the backward disassembly, the symmetric gradient
    recombination and the final scatter.  The device layer the test
    compares against is not part of the sources; its contract is modelled
    from the specification in [Operator].  The vector [h_mat_tmp], which
    the test fills only to compare it with a device buffer, is
    [host_mat_sym]; the tolerances [get_eps] of the comparisons with the
    device are left out.

    - [std::vector<T>] is a [list T]; [v[i]] is [rd v i] and [v[i] = x] is
      [wr v i x].  An access past the end is undefined in the source; here
      a read yields a zero and a write leaves the vector as it is, and the
      statements carry the vector lengths that keep every access in range;
      the passes with every access checked are the [_chk] definitions.
    - [size_t] sizes and indices are [nat]: every index the loops form
      addresses an allocated vector, so no 64-bit wrap-around occurs; the
      wrapped [out_len] expression is [out_len_sz], equal to [out_len]
      while the sizes fit ([out_len_sz_no_wrap]).
    - [float] and [__half] are the IEEE-754 binary32 and binary16 formats
      of the standard library's [SpecFloat] (round to nearest even, a
      single NaN); a value of a format is a [spec_float] the format holds.
      The payload of a NaN is not modelled, and [==] is [feq], false on a
      NaN: statements about the equality of two computed values carry the
      hypothesis that the value is not a NaN.
    - the template parameter [T] is a type with an [Elem] instance, the
      two instantiations of the test being [Elem_float] and [Elem_half].
    - a counted [for] loop is [for_ n body], a state transformer. *)

From Stdlib Require Import ZArith Lia Bool Eqdep_dec.
From Stdlib Require Import Floats.SpecFloat.
From stdpp Require Import base list.

(* ================================================================== *)
(** ** IEEE-754 binary formats *)

Module Binary.
Section Format.
Variables prec emax : Z.

(** A value of the format: a [spec_float] that the format can hold. *)
Record t : Type := Mk {
  val : spec_float;
  val_ok : valid_binary prec emax val = true
}.

(** Package the result of an operation.  The operations of [SpecFloat]
    return values of the format on values of the format ([val_add],
    [val_mul] and [val_round] below), so the second branch is never
    taken; it keeps the definition independent of that proof. *)
Definition norm (x : spec_float) : t :=
  match bool_dec (valid_binary prec emax x) true with
  | left H => Mk x H
  | right _ => Mk S754_nan eq_refl
  end.

Definition zero : t := Mk (S754_zero false) eq_refl.
Definition infinity (s : bool) : t := Mk (S754_infinity s) eq_refl.
Definition one : t := norm (SFone prec emax).
Definition of_Z (z : Z) : t := norm (binary_normalize prec emax z 0 false).

Definition add (x y : t) : t := norm (SFadd prec emax (val x) (val y)).
Definition mul (x y : t) : t := norm (SFmul prec emax (val x) (val y)).

(** Conversion of a [spec_float] to this format, rounding to nearest
    even. *)
Definition round (x : spec_float) : t :=
  match x with
  | S754_finite s m e => norm (binary_round prec emax s m e)
  | _ => norm x
  end.

Definition is_finite (x : t) : bool :=
  match val x with
  | S754_zero _ | S754_finite _ _ _ => true
  | _ => false
  end.

Definition is_zero (x : t) : bool :=
  match val x with
  | S754_zero _ => true
  | _ => false
  end.

Definition is_nan (x : t) : bool :=
  match val x with
  | S754_nan => true
  | _ => false
  end.

(** Floating-point equality [==], the IEEE-754 comparison: false when an
    operand is a NaN, true of two zeros of any sign. *)
Definition feq (x y : t) : Prop := SFeqb (val x) (val y) = true.

(** The same value, or two zeros of any sign.  A step of the proofs
    about [feq]; it relates a NaN to itself, which [==] does not. *)
Definition eqz (x y : t) : Prop :=
  x = y \/ (is_zero x = true /\ is_zero y = true).

(** The last step of [binary_round_aux]: the float of a rounded
    mantissa. *)
Definition round_result (s : bool) (mrs : shr_record) (e : Z) : spec_float :=
  match shr_m mrs with
  | Z0 => S754_zero s
  | Zpos m =>
      if Z.leb e (emax - prec) then S754_finite s m e else S754_infinity s
  | Zneg _ => S754_nan
  end.

(** A mantissa that is zero, fits its exponent, or is the power of two
    just above the mantissas that fit. *)
Definition near_canonical (m e : Z) : Prop :=
  m = Z0 \/
  (Z.lt 0 m /\
   (fexp prec emax (Zdigits2 m + e) = e \/
    (m = Z.pow 2 (Zdigits2 m - 1) /\
     fexp prec emax (Zdigits2 m - 1 + e) = e))).
End Format.
End Binary.

(** C++ [float]. *)
Definition float : Type := Binary.t 24 128.
(** CUDA [__half]. *)
Definition half : Type := Binary.t 11 16.

Definition fadd : float -> float -> float := Binary.add 24 128.
Definition fmul : float -> float -> float := Binary.mul 24 128.
(** [0.0f] *)
Definition f0 : float := Binary.zero 24 128.
(** [1.0f] *)
Definition f1 : float := Binary.one 24 128.

Definition __half2float (h : half) : float := Binary.round 24 128 (Binary.val _ _ h).
Definition __float2half (f : float) : half := Binary.round 11 16 (Binary.val _ _ f).

(* ================================================================== *)
(** ** The element type [T] of the test template *)

(** What [interaction_layer_test<T>] uses of its element type:
    [TypeConvert<T, float>::convert] (also the conversion of a [float]
    stored into a [T]), [operator+] on [T], and the two accumulation
    helpers, which always return a [float]. *)
Class Elem (T : Type) : Type := {
  convert : float -> T;
  t_add : T -> T -> T;
  get_accum : T -> T -> float;
  get_sec_accum : T -> T -> T -> float
}.

(** Primary templates, instantiated at [T = float]:
    [float(a * b)] and [float((a + b) * c)]. *)
Definition get_accum_float (a b : float) : float := fmul a b.
Definition get_sec_accum_float (a b c : float) : float := fmul (fadd a b) c.

(** Specialisations for [__half]:
    [__half2float(a) * __half2float(b)] and
    [(__half2float(a) + __half2float(b)) * __half2float(c)]. *)
Definition get_accum_half (a b : half) : float :=
  fmul (__half2float a) (__half2float b).
Definition get_sec_accum_half (a b c : half) : float :=
  fmul (fadd (__half2float a) (__half2float b)) (__half2float c).

(** [operator+] on [__half] in host code: add as [float], round back. *)
Definition half_add (a b : half) : half :=
  __float2half (fadd (__half2float a) (__half2float b)).

#[export] Instance Elem_float : Elem float := {|
  convert := fun f => f;
  t_add := fadd;
  get_accum := get_accum_float;
  get_sec_accum := get_sec_accum_float
|}.

#[export] Instance Elem_half : Elem half := {|
  convert := __float2half;
  t_add := half_add;
  get_accum := get_accum_half;
  get_sec_accum := get_sec_accum_half
|}.

(* ================================================================== *)
(** ** Loops and vectors *)

(** [for (size_t i = 0; i < n; i++) body(i)], as a state transformer:
    the loop to [n + 1] runs the loop to [n] and then the body at [n]. *)
Fixpoint for_ {S : Type} (n : nat) (body : nat -> S -> S) (s : S) : S :=
  match n with
  | O => s
  | S n' => body n' (for_ n' body s)
  end.

(** The combined effect on one cell of [n] iterations whose effect on
    that cell is the update [u i]. *)
Fixpoint iter_upd {A : Type} (n : nat) (u : nat -> A -> A) (x : A) : A :=
  match n with
  | O => x
  | S n' => u n' (iter_upd n' u x)
  end.

(** Number of pairs [(m, n')] with [m < n' < n]. *)
Fixpoint tri (n : nat) : nat :=
  match n with
  | O => 0
  | S n' => tri n' + n'
  end.

(** The update of a store to cell [i]. *)
Definition upd_at {T : Type} (i : nat) (g : T -> T) (k : nat) (x : T) : T :=
  if k =? i then g x else x.

(** [size_t] arithmetic. *)
Definition size_max : Z := 2 ^ 64.
Definition wrap (z : Z) : Z := z mod size_max.

(** [in_width + (n_ins * (n_ins + 1) / 2 - n_ins) + 1] in [size_t]. *)
Definition out_len_sz (n_ins in_width : Z) : Z :=
  wrap (wrap (in_width +
              wrap (wrap (wrap (n_ins * wrap (n_ins + 1)) / 2) - n_ins)) + 1).

Section Host.
Context {T : Type} `{Elem T}.

(** [TypeConvert<T, float>::convert(0.0f)], also [T(0.0)]. *)
Definition t0 : T := convert f0.

Definition rd (v : list T) (i : nat) : T := default t0 (v !! i).
Definition wr (v : list T) (i : nat) (x : T) : list T := <[i := x]> v.

(** Test parameters. *)
Variables height n_emb in_width : nat.

Definition n_ins : nat := 1 + n_emb.
Definition out_width : nat := n_ins * in_width.
Definition out_len : nat := in_width + (n_ins * (n_ins + 1) / 2 - n_ins) + 1.

(** The vectors the lambda [concat_op] captures by reference. *)
Record concat_state : Type := ConcatState {
  h_in_mlp : list T;
  h_in_emb : list T;
  h_concat : list T
}.

(** Body of the innermost loop of [concat_op]. *)
Definition concat_cell (fprop : bool) (ni h w : nat) (s : concat_state)
  : concat_state :=
  let in_idx_base := if ni =? 0 then h * in_width else h * in_width * n_emb in
  let in_idx := in_idx_base + w in
  let out_idx := h * out_width + ni * in_width + w in
  if fprop then
    ConcatState (h_in_mlp s) (h_in_emb s)
      (wr (h_concat s) out_idx
          (if ni =? 0 then rd (h_in_mlp s) in_idx
           else rd (h_in_emb s) ((ni - 1) * in_width + in_idx)))
  else if ni =? 0 then
    ConcatState
      (wr (h_in_mlp s) in_idx
          (t_add (rd (h_in_mlp s) in_idx) (rd (h_concat s) out_idx)))
      (h_in_emb s) (h_concat s)
  else
    ConcatState (h_in_mlp s)
      (wr (h_in_emb s) (in_idx + (ni - 1) * in_width) (rd (h_concat s) out_idx))
      (h_concat s).

Definition concat_op (fprop : bool) (s : concat_state) : concat_state :=
  for_ n_ins (fun ni =>
    for_ height (fun h =>
      for_ in_width (fun w => concat_cell fprop ni h w))) s.

(** The accumulation [accum = 0.0f; for k: accum += term k]. *)
Definition accumulate (n : nat) (term : nat -> float) : float :=
  for_ n (fun k accum => fadd accum (term k)) f0.

(** Host matmul: the Gram matrix of every sample. *)
Definition host_matmul (h_concat h_mat : list T) : list T :=
  for_ height (fun p =>
    let concat_stride := n_ins * in_width * p in
    let mat_stride := n_ins * n_ins * p in
    for_ n_ins (fun m =>
      for_ n_ins (fun n h_mat =>
        let accum := accumulate in_width (fun k =>
          get_accum (rd h_concat (concat_stride + m * in_width + k))
                    (rd h_concat (concat_stride + n * in_width + k))) in
        wr h_mat (mat_stride + m * n_ins + n) (convert accum)))) h_mat.

(** Host output assembly; the state of a sample is [h_ref] and
    [cur_idx]. *)
Definition assemble_sample (h_in_mlp h_mat : list T) (p : nat)
    (h_ref : list T) : list T :=
  let cur_idx := 0 in
  let out_stride := p * out_len in
  let mat_stride := p * n_ins * n_ins in
  let st := for_ in_width (fun i '(h_ref, cur_idx) =>
              (wr h_ref (out_stride + cur_idx) (rd h_in_mlp (p * in_width + i)),
               S cur_idx)) (h_ref, cur_idx) in
  let st := for_ n_ins (fun n =>
              for_ n_ins (fun m '(h_ref, cur_idx) =>
                if m <? n then
                  (wr h_ref (out_stride + cur_idx)
                      (rd h_mat (mat_stride + m * n_ins + n)),
                   S cur_idx)
                else (h_ref, cur_idx))) st in
  fst st.

Definition host_assemble (h_in_mlp h_mat h_ref : list T) : list T :=
  for_ height (assemble_sample h_in_mlp h_mat) h_ref.

(** Host disassembly; the state of a sample is [h_in_mlp], [h_mat] and
    [cur_idx]. *)
Definition disassemble_sample (h_ref : list T) (p : nat)
    (s : list T * list T) : list T * list T :=
  let cur_idx := 0 in
  let out_stride := p * out_len in
  let mat_stride := p * n_ins * n_ins in
  let st := for_ in_width (fun i '(h_in_mlp, h_mat, cur_idx) =>
              (wr h_in_mlp (p * in_width + i) (rd h_ref (out_stride + cur_idx)),
               h_mat, S cur_idx)) (s, cur_idx) in
  let st := for_ n_ins (fun n =>
              for_ n_ins (fun m '(h_in_mlp, h_mat, cur_idx) =>
                if m <? n then
                  (h_in_mlp,
                   wr h_mat (mat_stride + m * n_ins + n)
                      (rd h_ref (out_stride + cur_idx)),
                   S cur_idx)
                else
                  (h_in_mlp, wr h_mat (mat_stride + m * n_ins + n) t0,
                   cur_idx))) st in
  fst st.

Definition host_disassemble (h_ref : list T) (s : list T * list T)
  : list T * list T :=
  for_ height (disassemble_sample h_ref) s.

(** Host gradient recombination, reading the copy [h_concat_tmp]. *)
Definition host_recombine (h_mat h_concat_tmp h_concat : list T) : list T :=
  for_ height (fun p =>
    let mat_stride := n_ins * n_ins * p in
    let concat_stride := n_ins * in_width * p in
    for_ n_ins (fun m =>
      for_ in_width (fun n h_concat =>
        let accum := accumulate n_ins (fun k =>
          get_sec_accum (rd h_mat (mat_stride + m * n_ins + k))
                        (rd h_mat (mat_stride + k * n_ins + m))
                        (rd h_concat_tmp (concat_stride + k * in_width + n))) in
        wr h_concat (concat_stride + m * in_width + n)
           (convert (fmul f1 accum))))) h_concat.

(** The host vectors of the test. *)
Record host : Type := Host {
  r_in_mlp : list T;
  r_in_emb : list T;
  r_concat : list T;
  r_mat : list T;
  r_ref : list T
}.

(** Host fprop: concat, matmul, output assembly. *)
Definition host_fprop (in_mlp in_emb : list T) : host :=
  let s := concat_op true
             (ConcatState in_mlp in_emb (replicate (height * out_width) t0)) in
  let h_mat := host_matmul (h_concat s)
                 (replicate (height * n_ins * n_ins) t0) in
  let h_ref := host_assemble (h_in_mlp s) h_mat
                 (replicate (height * out_len) t0) in
  Host (h_in_mlp s) (h_in_emb s) (h_concat s) h_mat h_ref.

(** Host bprop: disassembly of [h_ref], recombination, scatter. *)
Definition host_bprop (st : host) : host :=
  let '(in_mlp, h_mat) := host_disassemble (r_ref st) (r_in_mlp st, r_mat st) in
  let h_concat_tmp := r_concat st in
  let concat := host_recombine h_mat h_concat_tmp (r_concat st) in
  let s := concat_op false (ConcatState in_mlp (r_in_emb st) concat) in
  Host (h_in_mlp s) (h_in_emb s) (h_concat s) h_mat (r_ref st).


(** The host vectors with another upstream gradient in [h_ref]. *)
Definition with_ref (st : host) (grad : list T) : host :=
  Host (r_in_mlp st) (r_in_emb st) (r_concat st) (r_mat st) grad.

(** *** The values the loops store, named *)

(** Dot product of rows [i] and [j] of sample [b] of the concatenated
    matrix, accumulated in a [float] from [0.0f] in index order. *)
Definition dot_rows (matrix : list T) (b i j : nat) : float :=
  accumulate in_width (fun k =>
    get_accum (rd matrix (n_ins * in_width * b + i * in_width + k))
              (rd matrix (n_ins * in_width * b + j * in_width + k))).

(** The symmetric sum over [k] of
    [(GramGrad[b,m,k] + GramGrad[b,k,m]) * matrix[b,k,j]], accumulated
    in a [float] from [0.0f] in index order. *)
Definition sym_sum (gram_grad matrix : list T) (b m j : nat) : float :=
  accumulate n_ins (fun k =>
    get_sec_accum (rd gram_grad (n_ins * n_ins * b + m * n_ins + k))
                  (rd gram_grad (n_ins * n_ins * b + k * n_ins + m))
                  (rd matrix (n_ins * in_width * b + k * in_width + j))).

(** Entry of the concatenated matrix: row [ni] of sample [h],
    column [w]. *)
Definition concat_src (mlp emb : list T) (ni h w : nat) : T :=
  if ni =? 0 then rd mlp (h * in_width + w)
  else rd emb ((ni - 1) * in_width + (h * in_width * n_emb + w)).

(** Row [p] of a flat [height x width] array. *)
Definition row (width : nat) (v : list T) (p : nat) : list T :=
  take width (drop (p * width) v).

(** The strict upper triangle of sample [p] of [gram], column by column:
    for [n] from 1 to [n_ins - 1], for [m] from 0 to [n - 1],
    [gram[p, m, n]]. *)
Definition upper_terms (gram : list T) (p : nat) : list T :=
  flat_map (fun n =>
    (fun m => rd gram (p * n_ins * n_ins + m * n_ins + n)) <$> seq 0 n)
    (seq 1 (n_ins - 1)).

(** The dense values of sample [p]. *)
Definition dense_row (dense : list T) (p : nat) : list T :=
  (fun i => rd dense (p * in_width + i)) <$> seq 0 in_width.

(** Action of the assembly of sample [p] on cell [k] of [h_ref]. *)
Definition assemble_upd (mlp mat : list T) (p k : nat) (x : T) : T :=
  iter_upd n_ins (fun n => iter_upd n_ins (fun m y =>
    if m <? n then
      upd_at (p * out_len + (in_width + tri n + m))
             (fun _ => rd mat (p * n_ins * n_ins + m * n_ins + n)) k y
    else y))
    (iter_upd in_width (fun i =>
       upd_at (p * out_len + i) (fun _ => rd mlp (p * in_width + i)) k) x).

(** Variant of the matmul loop that computes only the entries with
    [n > m] and leaves the others as they are in [h_mat]. *)
Definition host_matmul_upper (h_concat h_mat : list T) : list T :=
  for_ height (fun p =>
    let concat_stride := n_ins * in_width * p in
    let mat_stride := n_ins * n_ins * p in
    for_ n_ins (fun m =>
      for_ n_ins (fun n h_mat =>
        if m <? n then
          let accum := accumulate in_width (fun k =>
            get_accum (rd h_concat (concat_stride + m * in_width + k))
                      (rd h_concat (concat_stride + n * in_width + k))) in
          wr h_mat (mat_stride + m * n_ins + n) (convert accum)
        else h_mat))) h_mat.
(** Host [m + mT]: [h_mat_tmp], a copy of [h_mat] when the loop starts,
    receives [h_mat[p, m, n] + h_mat[p, n, m]]. *)
Definition host_mat_sym (h_mat h_mat_tmp : list T) : list T :=
  for_ height (fun p =>
    let mat_stride := n_ins * n_ins * p in
    for_ n_ins (fun m =>
      for_ n_ins (fun n h_mat_tmp =>
        wr h_mat_tmp (mat_stride + m * n_ins + n)
           (t_add (rd h_mat (mat_stride + m * n_ins + n))
                  (rd h_mat (mat_stride + n * n_ins + m)))))) h_mat_tmp.

(** The [h_mat_tmp] of the test: [m + mT] of the Gram gradient bprop
    leaves in [h_mat]. *)
Definition test_mat_tmp (st : host) : list T :=
  host_mat_sym (r_mat (host_bprop st)) (r_mat (host_bprop st)).
End Host.

(** How a vector transformer acts on the cells of a vector: it keeps the
    length, and cell [k] of the result is [u k] of cell [k] before. *)
Definition cellwise {T : Type} `{Elem T}
    (f : list T -> list T) (u : nat -> T -> T) : Prop :=
  forall a, length (f a) = length a /\
            forall k, k < length a -> rd (f a) k = u k (rd a k).

(* ================================================================== *)
(** ** The scalar case and the concrete scenario, at [T = float] *)

(** [==] on [float] and on [__half]. *)
Definition feq : float -> float -> Prop := Binary.feq 24 128.
Definition heq : half -> half -> Prop := Binary.feq 11 16.
Definition eqz : float -> float -> Prop := Binary.eqz 24 128.
Definition is_nan : float -> bool := Binary.is_nan 24 128.
Definition is_nan_half : half -> bool := Binary.is_nan 11 16.
Definition is_finite : float -> bool := Binary.is_finite 24 128.
Definition is_zero : float -> bool := Binary.is_zero 24 128.

(** *** The sums of the specification

    Written with the list fold of the standard library and the binary32
    operations, apart from the loops of the test and from [get_accum]
    and [get_sec_accum]. *)

(** The sum of a list of [float]s, from [0.0f], left to right. *)
Definition float_sum (terms : list float) : float := fold_left fadd terms f0.

(** [term 0 + ... + term (n - 1)]. *)
Definition sum_over (n : nat) (term : nat -> float) : float :=
  float_sum (term <$> seq 0 n).

(** [sum over k < in_width of matrix[b,i,k] * matrix[b,j,k]] at
    [T = float], and at [T = __half], where the factors are converted to
    [float] and multiplied there. *)
Definition gram_sum_float (n_emb in_width : nat) (matrix : list float)
    (b i j : nat) : float :=
  sum_over in_width (fun k =>
    fmul (rd matrix (n_ins n_emb * in_width * b + i * in_width + k))
         (rd matrix (n_ins n_emb * in_width * b + j * in_width + k))).

Definition gram_sum_half (n_emb in_width : nat) (matrix : list half)
    (b i j : nat) : float :=
  sum_over in_width (fun k =>
    fmul (__half2float
            (rd matrix (n_ins n_emb * in_width * b + i * in_width + k)))
         (__half2float
            (rd matrix (n_ins n_emb * in_width * b + j * in_width + k)))).

(** [sum over k < n_ins of
     (GramGrad[b,m,k] + GramGrad[b,k,m]) * matrix[b,k,j]] at [T = float],
    and at [T = __half], where the three values are converted to [float]
    and added and multiplied there. *)
Definition grad_sum_float (n_emb in_width : nat)
    (gram_grad matrix : list float) (b m j : nat) : float :=
  sum_over (n_ins n_emb) (fun k =>
    fmul (fadd (rd gram_grad (n_ins n_emb * n_ins n_emb * b + m * n_ins n_emb + k))
               (rd gram_grad (n_ins n_emb * n_ins n_emb * b + k * n_ins n_emb + m)))
         (rd matrix (n_ins n_emb * in_width * b + k * in_width + j))).

Definition grad_sum_half (n_emb in_width : nat)
    (gram_grad matrix : list half) (b m j : nat) : float :=
  sum_over (n_ins n_emb) (fun k =>
    fmul (fadd (__half2float
                  (rd gram_grad
                     (n_ins n_emb * n_ins n_emb * b + m * n_ins n_emb + k)))
               (__half2float
                  (rd gram_grad
                     (n_ins n_emb * n_ins n_emb * b + k * n_ins n_emb + m))))
         (__half2float
            (rd matrix (n_ins n_emb * in_width * b + k * in_width + j)))).

(** Row 0 of sample [b] of the concatenated matrix of the forward pass is
    the dense row, rows [1 .. n_emb] are the embedding rows in source
    order. *)
Definition concat_is_inputs {T : Type} `{Elem T} (height n_emb in_width : nat)
    (in_mlp in_emb : list T) (b : nat) : Prop :=
  let st := host_fprop height n_emb in_width in_mlp in_emb in
  (forall k, k < in_width ->
     rd (r_concat st) (n_ins n_emb * in_width * b + k)
     = rd in_mlp (b * in_width + k))
  /\ (forall e k, e < n_emb -> k < in_width ->
        rd (r_concat st) (n_ins n_emb * in_width * b + (1 + e) * in_width + k)
        = rd in_emb (b * in_width * n_emb + e * in_width + k)).

(** The [float] of an integer. *)
Definition fZ (z : Z) : float := Binary.of_Z 24 128 z.




(** Entries [i, j] and [j, i] of the Gram matrix of sample [b] are equal,
    [teq] being the equality of elements. *)
Definition gram_symmetric_at {T : Type} `{Elem T} (teq : T -> T -> Prop)
    (height n_emb in_width : nat) (in_mlp in_emb : list T) (b i j : nat)
  : Prop :=
  let st := host_fprop height n_emb in_width in_mlp in_emb in
  teq (rd (r_mat st) (n_ins n_emb * n_ins n_emb * b + i * n_ins n_emb + j))
      (rd (r_mat st) (n_ins n_emb * n_ins n_emb * b + j * n_ins n_emb + i)).

(** The [__half] of an integer. *)
Definition hZ (z : Z) : half := Binary.of_Z 11 16 z.

(** The scenario [height = 2], [in_width = 2], [n_emb = 1]. *)
Definition scenario_dense : list float := fZ <$> [1; 2; 3; 4]%Z.
Definition scenario_emb : list float := fZ <$> [5; 6; 7; 8]%Z.
Definition scenario_fwd : host :=
  host_fprop 2 1 2 scenario_dense scenario_emb.
(** Backward with [outputGrad[0] = [0, 0, 1, 0]] and any [outputGrad[1]]. *)
Definition scenario_bwd (g4 g5 g6 g7 : float) : host :=
  host_bprop 2 1 2
    (with_ref scenario_fwd ((fZ <$> [0; 0; 1; 0]%Z) ++ [g4; g5; g6; g7])).

(* ================================================================== *)
(** ** The operator *)

(** Modelled from the spec: the operator [InteractionLayer] (its
    constructor, [fprop] and [bprop]), whose code is not among the
    sources; only the test that drives it is.  Sections 4.4, 6 and 7 of
    the specification: the shape is fixed at construction, every call
    checks its arguments against it before any computation, a forward
    call leaves the intermediate state for the backward call that
    follows. *)
Module Operator.
Inductive failure : Type := ShapeMismatch | InvalidSequence.

Inductive outcome (A : Type) : Type :=
| Done (a : A)
| Failed (f : failure).
Arguments Done {A} a.
Arguments Failed {A} f.

Record tensor (T : Type) : Type := Tensor { dims : list nat; data : list T }.
Arguments Tensor {T} dims data.
Arguments dims {T} t.
Arguments data {T} t.

(** The shape configured at construction. *)
Record shape : Type := Shape { height : nat; n_emb : nat; in_width : nat }.

Definition dense_ok {T : Type} (cfg : shape) (dense : tensor T) : bool :=
  bool_decide (dims dense = [height cfg; in_width cfg]).
Definition emb_ok {T : Type} (cfg : shape) (emb : tensor T) : bool :=
  bool_decide (dims emb = [height cfg; n_emb cfg; in_width cfg]).
Definition grad_ok {T : Type} (cfg : shape) (grad : tensor T) : bool :=
  bool_decide (dims grad = [height cfg; out_len (n_emb cfg) (in_width cfg)]).

(** [forward]: the output and the state retained for [backward]. *)
Definition forward {T : Type} `{Elem T} (cfg : shape) (dense emb : tensor T)
  : outcome (tensor T * host) :=
  if dense_ok cfg dense && emb_ok cfg emb then
    let st := host_fprop (height cfg) (n_emb cfg) (in_width cfg)
                (data dense) (data emb) in
    Done (Tensor [height cfg; out_len (n_emb cfg) (in_width cfg)] (r_ref st), st)
  else Failed ShapeMismatch.

(** [backward]: the dense gradient and the embedding gradient. *)
Definition backward {T : Type} `{Elem T} (cfg : shape) (cache : option host)
    (grad : tensor T) : outcome (tensor T * tensor T) :=
  if grad_ok cfg grad then
    match cache with
    | None => Failed InvalidSequence
    | Some st =>
        let st' := host_bprop (height cfg) (n_emb cfg) (in_width cfg)
                     (with_ref st (data grad)) in
        Done (Tensor [height cfg; in_width cfg] (r_in_mlp st'),
              Tensor [height cfg; n_emb cfg; in_width cfg] (r_in_emb st'))
    end
  else Failed ShapeMismatch.
End Operator.

(* ================================================================== *)
(** ** The host passes with range checks *)

(** The source indexes its vectors with the unchecked [operator[]].  The
    definitions below are the same loops with every access checked:
    [None] is an access past the end of a vector. *)

Notation "'let?' x := e 'in' k" :=
  (match e with Some x => k | None => None end)
  (at level 10, x name, e at level 100, k at level 200, only parsing).

(** A counted loop whose body can fail. *)
Fixpoint for_chk {S : Type} (n : nat) (body : nat -> S -> option S) (s : S)
  : option S :=
  match n with
  | O => Some s
  | S n' => let? t := for_chk n' body s in body n' t
  end.

Section Checked.
Context {T : Type} `{Elem T}.

Definition rd_chk (v : list T) (i : nat) : option T := v !! i.
Definition wr_chk (v : list T) (i : nat) (x : T) : option (list T) :=
  if i <? length v then Some (<[i := x]> v) else None.

Variables height n_emb in_width : nat.

Local Abbreviation n_ins := (n_ins n_emb).
Local Abbreviation out_width := (out_width n_emb in_width).
Local Abbreviation out_len := (out_len n_emb in_width).

(** The vectors of the lambda [concat_op] have the sizes the test
    allocates. *)
Definition sized (s : concat_state (T := T)) : Prop :=
  length (h_in_mlp s) = height * in_width /\
  length (h_in_emb s) = height * n_emb * in_width /\
  length (h_concat s) = height * out_width.

Definition concat_cell_chk (fprop : bool) (ni h w : nat) (s : concat_state)
  : option concat_state :=
  let in_idx_base := if ni =? 0 then h * in_width else h * in_width * n_emb in
  let in_idx := in_idx_base + w in
  let out_idx := h * out_width + ni * in_width + w in
  if fprop then
    let? x := (if ni =? 0 then rd_chk (h_in_mlp s) in_idx
               else rd_chk (h_in_emb s) ((ni - 1) * in_width + in_idx)) in
    let? c := wr_chk (h_concat s) out_idx x in
    Some (ConcatState (h_in_mlp s) (h_in_emb s) c)
  else if ni =? 0 then
    let? a := rd_chk (h_in_mlp s) in_idx in
    let? b := rd_chk (h_concat s) out_idx in
    let? m := wr_chk (h_in_mlp s) in_idx (t_add a b) in
    Some (ConcatState m (h_in_emb s) (h_concat s))
  else
    let? b := rd_chk (h_concat s) out_idx in
    let? e := wr_chk (h_in_emb s) (in_idx + (ni - 1) * in_width) b in
    Some (ConcatState (h_in_mlp s) e (h_concat s)).

Definition concat_op_chk (fprop : bool) (s : concat_state)
  : option concat_state :=
  for_chk n_ins (fun ni =>
    for_chk height (fun h =>
      for_chk in_width (fun w => concat_cell_chk fprop ni h w))) s.

Definition accumulate_chk (n : nat) (term : nat -> option float)
  : option float :=
  for_chk n (fun k accum => let? t := term k in Some (fadd accum t)) f0.

Definition host_matmul_chk (h_concat h_mat : list T) : option (list T) :=
  for_chk height (fun p =>
    let concat_stride := n_ins * in_width * p in
    let mat_stride := n_ins * n_ins * p in
    for_chk n_ins (fun m =>
      for_chk n_ins (fun n h_mat =>
        let? accum := accumulate_chk in_width (fun k =>
          let? a := rd_chk h_concat (concat_stride + m * in_width + k) in
          let? b := rd_chk h_concat (concat_stride + n * in_width + k) in
          Some (get_accum a b)) in
        wr_chk h_mat (mat_stride + m * n_ins + n) (convert accum)))) h_mat.

Definition assemble_sample_chk (h_in_mlp h_mat : list T) (p : nat)
    (h_ref : list T) : option (list T) :=
  let cur_idx := 0 in
  let out_stride := p * out_len in
  let mat_stride := p * n_ins * n_ins in
  let? st := for_chk in_width (fun i '(h_ref, cur_idx) =>
               let? x := rd_chk h_in_mlp (p * in_width + i) in
               let? r := wr_chk h_ref (out_stride + cur_idx) x in
               Some (r, S cur_idx)) (h_ref, cur_idx) in
  let? st := for_chk n_ins (fun n =>
               for_chk n_ins (fun m '(h_ref, cur_idx) =>
                 if m <? n then
                   let? x := rd_chk h_mat (mat_stride + m * n_ins + n) in
                   let? r := wr_chk h_ref (out_stride + cur_idx) x in
                   Some (r, S cur_idx)
                 else Some (h_ref, cur_idx))) st in
  Some (fst st).

Definition host_assemble_chk (h_in_mlp h_mat h_ref : list T)
  : option (list T) :=
  for_chk height (assemble_sample_chk h_in_mlp h_mat) h_ref.

Definition disassemble_sample_chk (h_ref : list T) (p : nat)
    (s : list T * list T) : option (list T * list T) :=
  let cur_idx := 0 in
  let out_stride := p * out_len in
  let mat_stride := p * n_ins * n_ins in
  let? st := for_chk in_width (fun i '(h_in_mlp, h_mat, cur_idx) =>
               let? x := rd_chk h_ref (out_stride + cur_idx) in
               let? r := wr_chk h_in_mlp (p * in_width + i) x in
               Some (r, h_mat, S cur_idx)) (s, cur_idx) in
  let? st := for_chk n_ins (fun n =>
               for_chk n_ins (fun m '(h_in_mlp, h_mat, cur_idx) =>
                 if m <? n then
                   let? x := rd_chk h_ref (out_stride + cur_idx) in
                   let? r := wr_chk h_mat (mat_stride + m * n_ins + n) x in
                   Some (h_in_mlp, r, S cur_idx)
                 else
                   let? r := wr_chk h_mat (mat_stride + m * n_ins + n) t0 in
                   Some (h_in_mlp, r, cur_idx))) st in
  Some (fst st).

Definition host_disassemble_chk (h_ref : list T) (s : list T * list T)
  : option (list T * list T) :=
  for_chk height (disassemble_sample_chk h_ref) s.

Definition host_recombine_chk (h_mat h_concat_tmp h_concat : list T)
  : option (list T) :=
  for_chk height (fun p =>
    let mat_stride := n_ins * n_ins * p in
    let concat_stride := n_ins * in_width * p in
    for_chk n_ins (fun m =>
      for_chk in_width (fun n h_concat =>
        let? accum := accumulate_chk n_ins (fun k =>
          let? a := rd_chk h_mat (mat_stride + m * n_ins + k) in
          let? b := rd_chk h_mat (mat_stride + k * n_ins + m) in
          let? c := rd_chk h_concat_tmp (concat_stride + k * in_width + n) in
          Some (get_sec_accum a b c)) in
        wr_chk h_concat (concat_stride + m * in_width + n)
               (convert (fmul f1 accum))))) h_concat.

Definition host_mat_sym_chk (h_mat h_mat_tmp : list T) : option (list T) :=
  for_chk height (fun p =>
    let mat_stride := n_ins * n_ins * p in
    for_chk n_ins (fun m =>
      for_chk n_ins (fun n h_mat_tmp =>
        let? a := rd_chk h_mat (mat_stride + m * n_ins + n) in
        let? b := rd_chk h_mat (mat_stride + n * n_ins + m) in
        wr_chk h_mat_tmp (mat_stride + m * n_ins + n) (t_add a b)))) h_mat_tmp.

Definition host_fprop_chk (in_mlp in_emb : list T) : option host :=
  let? s := concat_op_chk true
              (ConcatState in_mlp in_emb (replicate (height * out_width) t0)) in
  let? h_mat := host_matmul_chk (h_concat s)
                  (replicate (height * n_ins * n_ins) t0) in
  let? h_ref := host_assemble_chk (h_in_mlp s) h_mat
                  (replicate (height * out_len) t0) in
  Some (Host (h_in_mlp s) (h_in_emb s) (h_concat s) h_mat h_ref).

Definition host_bprop_chk (st : host) : option host :=
  let? d := host_disassemble_chk (r_ref st) (r_in_mlp st, r_mat st) in
  let '(in_mlp, h_mat) := d in
  let h_concat_tmp := r_concat st in
  let? concat := host_recombine_chk h_mat h_concat_tmp (r_concat st) in
  let? _ := host_mat_sym_chk h_mat h_mat in
  let? s := concat_op_chk false (ConcatState in_mlp (r_in_emb st) concat) in
  Some (Host (h_in_mlp s) (h_in_emb s) (h_concat s) h_mat (r_ref st)).

Definition interaction_layer_test_chk (in_mlp in_emb : list T) : option host :=
  let? st := host_fprop_chk in_mlp in_emb in host_bprop_chk st.
End Checked.

(* ================================================================== *)
(** ** Floating-point facts *)

Section BinaryFacts.
Variables prec emax : Z.
Local Abbreviation fmt := (Binary.t prec emax).

Lemma t_eq (x y : fmt) : Binary.val _ _ x = Binary.val _ _ y -> x = y.
Proof.
  destruct x as [x Hx], y as [y Hy]; simpl; intros ->.
  f_equal. apply UIP_dec, bool_dec.
Qed.

Lemma val_norm (v : spec_float) :
  valid_binary prec emax v = true ->
  Binary.val _ _ (Binary.norm prec emax v) = v.
Proof.
  intros Hv. unfold Binary.norm.
  destruct (bool_dec (valid_binary prec emax v) true); [reflexivity|contradiction].
Qed.

Lemma norm_val (x : fmt) : Binary.norm prec emax (Binary.val _ _ x) = x.
Proof. apply t_eq, val_norm, Binary.val_ok. Qed.

Lemma SFmul_comm (x y : spec_float) :
  SFmul prec emax x y = SFmul prec emax y x.
Proof.
  destruct x as [sx|sx| |sx mx ex], y as [sy|sy| |sy my ey];
    cbn [SFmul]; try reflexivity; try (rewrite xorb_comm; reflexivity).
  rewrite xorb_comm, Pos.mul_comm, Z.add_comm. reflexivity.
Qed.

Lemma mul_comm (x y : fmt) : Binary.mul _ _ x y = Binary.mul _ _ y x.
Proof. unfold Binary.mul. now rewrite SFmul_comm. Qed.

Lemma bounded_inv (m : positive) (e : Z) :
  bounded prec emax m e = true ->
  (fexp prec emax (Zpos (digits2_pos m) + e) = e /\ e <= emax - prec)%Z.
Proof.
  unfold bounded, canonical_mantissa. intros Hb.
  apply andb_true_iff in Hb as [H1 H2].
  apply Z.eqb_eq in H1. apply Z.leb_le in H2. auto.
Qed.
End BinaryFacts.

Section Digits.
Local Open Scope Z_scope.

Lemma digits2_pos_log2 (p : positive) :
  Zpos (digits2_pos p) = Z.log2 (Zpos p) + 1.
Proof.
  assert (Hs : forall q, digits2_pos q = Pos.size q)
    by (induction q as [q IH|q IH|]; simpl; congruence).
  destruct p as [p|p|]; simpl; rewrite ?Hs; lia.
Qed.

Lemma Zdigits2_bounds (z : Z) :
  0 < z -> 2 ^ (Zdigits2 z - 1) <= z < 2 ^ Zdigits2 z.
Proof.
  intros Hz. destruct z as [|p|p]; try lia.
  cbn [Zdigits2]. rewrite digits2_pos_log2.
  replace (Z.log2 (Z.pos p) + 1 - 1) with (Z.log2 (Z.pos p)) by lia.
  apply Z.log2_spec. lia.
Qed.

Lemma Zdigits2_unique (z k : Z) :
  2 ^ (k - 1) <= z < 2 ^ k -> 0 < z -> Zdigits2 z = k.
Proof.
  intros Hb Hz. destruct z as [|p|p]; try lia.
  cbn [Zdigits2]. rewrite digits2_pos_log2.
  assert (0 < k).
  { destruct (Z.lt_ge_cases 0 k) as [|Hk]; [assumption|].
    assert (2 ^ k <= 2 ^ 0) by (apply Z.pow_le_mono_r; lia). simpl in *. lia. }
  rewrite (Z.log2_unique (Z.pos p) (k - 1)); [lia|lia|].
  replace (Z.succ (k - 1)) with k by lia. exact Hb.
Qed.

Lemma Zdigits2_pos_pos (p : positive) : 0 < Zdigits2 (Zpos p).
Proof. cbn [Zdigits2]. lia. Qed.

Lemma Zdigits2_gt_0 (z : Z) : 0 < z -> 0 < Zdigits2 z.
Proof. destruct z; cbn [Zdigits2]; lia. Qed.

Lemma shr_1_m (mrs : shr_record) :
  0 <= shr_m mrs -> shr_m (shr_1 mrs) = shr_m mrs / 2.
Proof.
  destruct mrs as [m r s]. cbn [shr_m]. intros Hm.
  rewrite <- Z.div2_div.
  destruct m as [|[p|p|]|p]; try reflexivity; lia.
Qed.

Lemma iter_shr_1_m (p : positive) (mrs : shr_record) :
  0 <= shr_m mrs ->
  shr_m (SpecFloat.iter_pos shr_1 p mrs) = shr_m mrs / 2 ^ Zpos p.
Proof.
  revert mrs. induction p as [p IH|p IH|]; intros mrs Hm; cbn [SpecFloat.iter_pos].
  - assert (H1 : 0 <= shr_m (shr_1 mrs))
      by (rewrite shr_1_m by assumption; apply Z.div_pos; lia).
    assert (H2 : 0 <= shr_m (SpecFloat.iter_pos shr_1 p (shr_1 mrs)))
      by (rewrite IH by assumption; apply Z.div_pos; lia).
    rewrite IH, IH, shr_1_m by assumption.
    rewrite !Z.div_div by lia. f_equal.
    rewrite Pos2Z.inj_xI, Z.pow_add_r, Z.pow_mul_r by lia.
    change (2 ^ 2) with 4. change (2 ^ 1) with 2.
    replace (4 ^ Z.pos p) with (2 ^ Z.pos p * 2 ^ Z.pos p); [lia|].
    rewrite <- Z.pow_add_r by lia. replace (Z.pos p + Z.pos p) with (2 * Z.pos p) by lia.
    now rewrite Z.pow_mul_r by lia.
  - assert (H2 : 0 <= shr_m (SpecFloat.iter_pos shr_1 p mrs))
      by (rewrite IH by assumption; apply Z.div_pos; lia).
    rewrite IH, IH by assumption.
    rewrite !Z.div_div by lia. f_equal.
    rewrite <- Z.pow_add_r by lia. f_equal. lia.
  - rewrite shr_1_m by assumption. reflexivity.
Qed.

(** A right shift by [n] digits divides the mantissa by [2 ^ n]. *)
Lemma shr_spec (mrs : shr_record) (e n : Z) :
  0 <= shr_m mrs ->
  shr_m (fst (shr mrs e n)) = shr_m mrs / 2 ^ Z.max n 0
  /\ snd (shr mrs e n) = e + Z.max n 0.
Proof.
  intros Hm. destruct n as [|p|p]; cbn [shr fst snd].
  - rewrite Z.div_1_r. split; [reflexivity|lia].
  - rewrite iter_shr_1_m by assumption.
    replace (Z.max (Z.pos p) 0) with (Z.pos p) by lia. auto.
  - replace (Z.max (Z.neg p) 0) with 0 by lia.
    rewrite Z.div_1_r. split; [reflexivity|lia].
Qed.

Lemma shr_record_of_loc_m (m : Z) (l : location) :
  shr_m (shr_record_of_loc m l) = m.
Proof. destruct l as [|[]]; reflexivity. Qed.

Lemma round_nearest_even_cases (m : Z) (l : location) :
  round_nearest_even m l = m \/ round_nearest_even m l = m + 1.
Proof.
  destruct l as [|[]]; cbn [round_nearest_even]; auto.
  destruct (Z.even m); auto.
Qed.

End Digits.

(** Closure of the operations: on a format with [0 < prec] and
    [2 <= emax], rounding yields values of the format. *)

Section Closure.
Variables prec emax : Z.
Hypothesis Hprec : (0 < prec)%Z.
Hypothesis Hemax : (2 <= emax)%Z.
Local Open Scope Z_scope.

Local Abbreviation fexp := (SpecFloat.fexp prec emax).
Local Abbreviation emin := (SpecFloat.emin prec emax).

Lemma fexp_cases (x : Z) :
  (fexp x = x - prec /\ emin <= x - prec) \/ (fexp x = emin /\ x - prec < emin).
Proof. unfold SpecFloat.fexp. lia. Qed.

Lemma first_stage (m : positive) (e : Z) (l : location) :
  e <= fexp (Zdigits2 (Zpos m) + e) ->
  Binary.near_canonical prec emax
    (round_nearest_even (shr_m (fst (shr_fexp prec emax (Zpos m) e l)))
       (loc_of_shr_record (fst (shr_fexp prec emax (Zpos m) e l))))
    (snd (shr_fexp prec emax (Zpos m) e l)).
Proof.
  intros Hpre. unfold Binary.near_canonical, shr_fexp.
  set (d := Zdigits2 (Zpos m)) in *.
  set (E := fexp (d + e)) in *.
  destruct (shr_spec (shr_record_of_loc (Zpos m) l) e (E - e)) as [Hm' He'];
    [rewrite shr_record_of_loc_m; lia|].
  replace (Z.max (E - e) 0) with (E - e) in Hm', He' by lia.
  rewrite shr_record_of_loc_m in Hm'. rewrite He'.
  replace (e + (E - e)) with E by lia.
  set (mrs := fst (shr (shr_record_of_loc (Z.pos m) l) e (E - e))) in *.
  set (m' := shr_m mrs) in *.
  pose proof (Zdigits2_bounds (Zpos m) ltac:(lia)) as Hd. fold d in Hd.
  assert (Hdpos : 0 < d) by apply Zdigits2_pos_pos.
  assert (Hp : 0 < 2 ^ (E - e)) by (apply Z.pow_pos_nonneg; lia).
  assert (Hm0 : 0 <= m') by (rewrite Hm'; apply Z.div_pos; lia).
  destruct (Z.eq_dec m' 0) as [Hz|Hnz].
  - (* everything shifted out *)
    assert (HE : E = emin).
    { assert (Hlt : Zpos m < 2 ^ (E - e))
        by (rewrite Hm' in Hz; apply Z.div_small_iff in Hz; lia).
      assert (d - 1 < E - e).
      { apply (Z.pow_lt_mono_r_iff 2); lia. }
      unfold E in *. destruct (fexp_cases (d + e)) as [[H1 H2]|[H1 H2]]; lia. }
    destruct (round_nearest_even_cases m' (loc_of_shr_record mrs)) as [->| ->].
    + left. exact Hz.
    + right. rewrite Hz. change (0 + 1) with 1. split; [lia|].
      left. rewrite HE. change (Zdigits2 1) with 1.
      destruct (fexp_cases (1 + emin)) as [[H1 H2]|[H1 H2]]; lia.
  - assert (Hdm' : Zdigits2 m' = d - (E - e)).
    { apply Zdigits2_unique; [|lia]. rewrite Hm'. split.
      - apply Z.div_le_lower_bound; [lia|].
        rewrite <- Z.pow_add_r; try lia.
        + replace (E - e + (d - (E - e) - 1)) with (d - 1) by lia. lia.
        + assert (Zpos m < 2 ^ (E - e) -> False); [|].
          { intros Hlt. apply Hnz. rewrite Hm'. now apply Z.div_small. }
          assert (E - e < d); [|lia].
          apply (Z.pow_lt_mono_r_iff 2); lia.
      - apply Z.div_lt_upper_bound; [lia|].
        rewrite <- Z.pow_add_r; try lia.
        + replace (E - e + (d - (E - e))) with d by lia. lia.
        + assert (Zpos m < 2 ^ (E - e) -> False).
          { intros Hlt. apply Hnz. rewrite Hm'. now apply Z.div_small. }
          assert (E - e < d); [|lia].
          apply (Z.pow_lt_mono_r_iff 2); lia. }
    assert (Hcan : fexp (Zdigits2 m' + E) = E).
    { rewrite Hdm'. replace (d - (E - e) + E) with (d + e) by lia. reflexivity. }
    pose proof (Zdigits2_bounds m' ltac:(lia)) as Hb'.
    pose proof (Zdigits2_gt_0 m' ltac:(lia)) as Hg'.
    destruct (round_nearest_even_cases m' (loc_of_shr_record mrs)) as [->| ->].
    + right. split; [lia|]. left. exact Hcan.
    + right. split; [lia|].
      destruct (Z.eq_dec (m' + 1) (2 ^ Zdigits2 m')) as [Hpow|Hnpow].
      * right.
        assert (Hd1 : Zdigits2 (m' + 1) = Zdigits2 m' + 1).
        { apply Zdigits2_unique; [|lia].
          replace (Zdigits2 m' + 1 - 1) with (Zdigits2 m') by lia.
          rewrite Hpow. split; [lia|]. apply Z.pow_lt_mono_r; lia. }
        rewrite Hd1. replace (Zdigits2 m' + 1 - 1) with (Zdigits2 m') by lia.
        split; [exact Hpow|exact Hcan].
      * left.
        assert (Hd1 : Zdigits2 (m' + 1) = Zdigits2 m')
          by (apply Zdigits2_unique; lia).
        rewrite Hd1. exact Hcan.
Qed.

Lemma round_result_valid (s : bool) (mrs : shr_record) (e : Z) :
  (0 < shr_m mrs -> fexp (Zdigits2 (shr_m mrs) + e) = e) ->
  valid_binary prec emax (Binary.round_result prec emax s mrs e) = true.
Proof.
  intros Hc. unfold Binary.round_result.
  destruct (shr_m mrs) as [|p|p] eqn:Hm; try reflexivity.
  destruct (Z.leb_spec e (emax - prec)) as [Hle|Hgt]; [|reflexivity].
  cbn [valid_binary]. unfold bounded, canonical_mantissa.
  specialize (Hc ltac:(lia)). cbn [Zdigits2] in Hc.
  rewrite Hc, Z.eqb_refl. cbn [andb]. now apply Z.leb_le.
Qed.

Lemma second_stage (s : bool) (m1 e' : Z) :
  Binary.near_canonical prec emax m1 e' ->
  valid_binary prec emax
    (Binary.round_result prec emax s (fst (shr_fexp prec emax m1 e' loc_Exact))
       (snd (shr_fexp prec emax m1 e' loc_Exact))) = true.
Proof.
  intros Hnc. unfold shr_fexp.
  set (n2 := fexp (Zdigits2 m1 + e') - e').
  assert (H0 : 0 <= m1) by (destruct Hnc as [->|[? _]]; lia).
  destruct (shr_spec (shr_record_of_loc m1 loc_Exact) e' n2) as [Hm He];
    [cbn [shr_record_of_loc shr_m]; exact H0|].
  cbn [shr_record_of_loc shr_m] in Hm, He. cbn [shr_record_of_loc].
  set (mrs := fst (shr {| shr_m := m1; shr_r := false; shr_s := false |} e' n2))
    in *.
  rewrite He. apply round_result_valid. rewrite Hm. intros Hpos.
  destruct Hnc as [->|[Hm1 [Hcan|[Hpow Hcan]]]].
  - rewrite Z.div_0_l in Hpos by (apply Z.pow_nonzero; lia). lia.
  - assert (n2 = 0) by (unfold n2; lia).
    replace (Z.max n2 0) with 0 by lia.
    rewrite Z.div_1_r, Z.add_0_r. exact Hcan.
  - set (d1 := Zdigits2 m1) in *.
    pose proof (Zdigits2_gt_0 m1 Hm1) as Hd1. fold d1 in Hd1.
    destruct (fexp_cases (d1 + e')) as [[F1 F2]|[F1 F2]];
      destruct (fexp_cases (d1 - 1 + e')) as [[G1 G2]|[G1 G2]];
      try lia.
    + (* one more shift *)
      assert (Hn2 : n2 = 1) by (unfold n2; lia).
      rewrite Hn2. change (Z.max 1 0) with 1. change (2 ^ 1) with 2.
      assert (Hd2 : 2 <= d1) by lia.
      assert (Hhalf : m1 / 2 = 2 ^ (d1 - 2)).
      { rewrite Hpow. replace (d1 - 1) with (1 + (d1 - 2)) by lia.
        rewrite Z.pow_add_r by lia. change (2 ^ 1) with 2.
        rewrite Z.mul_comm. apply Z.div_mul. lia. }
      rewrite Hhalf.
      assert (Hdh : Zdigits2 (2 ^ (d1 - 2)) = d1 - 1).
      { apply Zdigits2_unique.
        - replace (d1 - 1 - 1) with (d1 - 2) by lia. split; [lia|].
          apply Z.pow_lt_mono_r; lia.
        - apply Z.pow_pos_nonneg; lia. }
      rewrite Hdh. replace (d1 - 1 + (e' + 1)) with (d1 + e') by lia. lia.
    + assert (n2 = 0) by (unfold n2; lia).
      replace (Z.max n2 0) with 0 by lia.
      rewrite Z.div_1_r, Z.add_0_r. fold d1. lia.
    + assert (n2 = 0) by (unfold n2; lia).
      replace (Z.max n2 0) with 0 by lia.
      rewrite Z.div_1_r, Z.add_0_r. fold d1. lia.
Qed.

Lemma binary_round_aux_valid (s : bool) (m : positive) (e : Z) (l : location) :
  e <= fexp (Zdigits2 (Zpos m) + e) ->
  valid_binary prec emax (binary_round_aux prec emax s (Zpos m) e l) = true.
Proof.
  intros Hpre. pose proof (first_stage m e l Hpre) as H1.
  unfold binary_round_aux.
  destruct (shr_fexp prec emax (Zpos m) e l) as [mrs' e'].
  cbn [fst snd] in H1.
  pose proof (second_stage s _ _ H1) as H2.
  destruct (shr_fexp prec emax
              (round_nearest_even (shr_m mrs') (loc_of_shr_record mrs'))
              e' loc_Exact) as [mrs'' e''].
  exact H2.
Qed.

Lemma digits2_shl (m d : positive) :
  Zpos (digits2_pos (Pos.iter xO m d)) = Zpos (digits2_pos m) + Zpos d.
Proof.
  induction d as [|d IH] using Pos.peano_ind.
  - cbn [Pos.iter digits2_pos]. lia.
  - rewrite Pos.iter_succ. cbn [digits2_pos]. lia.
Qed.

Lemma binary_round_valid (s : bool) (m : positive) (e : Z) :
  valid_binary prec emax (binary_round prec emax s m e) = true.
Proof.
  unfold binary_round, shl_align.
  destruct (fexp (Zpos (digits2_pos m) + e) - e) as [|d|d] eqn:Hd;
    apply binary_round_aux_valid; cbn [Zdigits2].
  - lia.
  - lia.
  - rewrite digits2_shl.
    replace (Zpos (digits2_pos m) + Zpos d + fexp (Zpos (digits2_pos m) + e))
      with (Zpos (digits2_pos m) + e) by lia.
    lia.
Qed.

Lemma binary_normalize_valid (m e : Z) (sz : bool) :
  valid_binary prec emax (binary_normalize prec emax m e sz) = true.
Proof.
  destruct m as [|p|p]; cbn [binary_normalize];
    [reflexivity|apply binary_round_valid..].
Qed.

Lemma SFadd_valid (x y : spec_float) :
  valid_binary prec emax x = true -> valid_binary prec emax y = true ->
  valid_binary prec emax (SFadd prec emax x y) = true.
Proof.
  intros Hx Hy.
  destruct x as [[]|[]| |sx mx ex], y as [[]|[]| |sy my ey];
    cbn [SFadd]; try reflexivity; try assumption.
  apply binary_normalize_valid.
Qed.




(** The packaging of results never replaces one. *)
Lemma val_add (x y : Binary.t prec emax) :
  Binary.val _ _ (Binary.add _ _ x y)
  = SFadd prec emax (Binary.val _ _ x) (Binary.val _ _ y).
Proof. apply val_norm, SFadd_valid; apply Binary.val_ok. Qed.


End Closure.

(** [float] addition and multiplication are those of binary32, the
    conversions between [__half] and [float] round to the target
    format. *)
Lemma fadd_spec (x y : float) :
  Binary.val _ _ (fadd x y) = SFadd 24 128 (Binary.val _ _ x) (Binary.val _ _ y).
Proof. apply val_add; lia. Qed.




(** Rounding the exact product of [2^23 * 2^(-23)] and a binary32 value
    gives the value back. *)
Lemma round_scaled (s : bool) (m : positive) (e : Z) :
  bounded 24 128 m e = true ->
  binary_round_aux 24 128 s (Zpos (8388608 * m)) (-23 + e) loc_Exact
  = S754_finite s m e.
Proof.
  intros Hb. apply bounded_inv in Hb as [Hc He].
  unfold binary_round_aux, shr_fexp.
  change (8388608 * m)%positive
    with (m~0~0~0~0~0~0~0~0~0~0~0~0~0~0~0~0~0~0~0~0~0~0~0)%positive.
  cbn [Zdigits2 digits2_pos].
  rewrite !Pos2Z.inj_succ.
  match goal with |- context [fexp 24 128 (?a + (-23 + e))] =>
    replace (a + (-23 + e))%Z with (Zpos (digits2_pos m) + e)%Z by lia end.
  rewrite Hc. replace (e - (-23 + e))%Z with 23%Z by lia.
  cbn [shr shr_record_of_loc SpecFloat.iter_pos shr_1 orb].
  cbn [shr_m loc_of_shr_record round_nearest_even Zdigits2].
  replace (-23 + e + 23)%Z with e by lia.
  rewrite Hc, Z.sub_diag. cbn [shr shr_m].
  apply Z.leb_le in He. rewrite He. reflexivity.
Qed.

Lemma SFmul_one_l (v : spec_float) :
  valid_binary 24 128 v = true ->
  SFmul 24 128 (S754_finite false 8388608 (-23)) v = v.
Proof.
  destruct v as [[]|[]| |s m e]; intros Hb; try reflexivity.
  cbn [SFmul valid_binary] in *. rewrite round_scaled by exact Hb.
  destruct s; reflexivity.
Qed.

(** [1.0f * x] is [x]. *)
Lemma fmul_1_l (x : float) : fmul f1 x = x.
Proof.
  unfold fmul, Binary.mul.
  change (Binary.val 24 128 f1) with (S754_finite false 8388608 (-23)).
  rewrite SFmul_one_l by apply Binary.val_ok. apply norm_val.
Qed.

Lemma fmul_comm (x y : float) : fmul x y = fmul y x.
Proof. apply mul_comm. Qed.

Lemma get_accum_float_comm (a b : float) :
  get_accum_float a b = get_accum_float b a.
Proof. apply fmul_comm. Qed.

Lemma get_accum_half_comm (a b : half) :
  get_accum_half a b = get_accum_half b a.
Proof. apply fmul_comm. Qed.

(* ================================================================== *)
(** ** Loops *)

Section LoopFacts.
Context {S S' : Type}.

(** Two loops that keep an index-dependent relation between their
    states. *)
Lemma for_sim (R : nat -> S -> S' -> Prop) (n : nat)
    (body : nat -> S -> S) (body' : nat -> S' -> S') (s : S) (s' : S') :
  R 0 s s' ->
  (forall i t t', i < n -> R i t t' -> R (1 + i) (body i t) (body' i t')) ->
  R n (for_ n body s) (for_ n body' s').
Proof.
  intros H0 Hstep. induction n as [|n IH]; simpl; [exact H0|].
  apply (Hstep n); [lia|]. apply IH. intros i t t' Hi. apply Hstep. lia.
Qed.

(** The loop runs its body at 0, 1, ..., [n - 1], in this order. *)
Lemma for_fold_left (n : nat) (body : nat -> S -> S) (s : S) :
  for_ n body s = fold_left (fun t i => body i t) (seq 0 n) s.
Proof.
  induction n as [|n IH]; [reflexivity|].
  rewrite seq_S, fold_left_app. simpl. now rewrite IH.
Qed.

Lemma for_ext (n : nat) (body body' : nat -> S -> S) (s : S) :
  (forall i t, i < n -> body i t = body' i t) ->
  for_ n body s = for_ n body' s.
Proof.
  intros Hb. induction n as [|n IH]; simpl; [reflexivity|].
  rewrite IH by (intros; apply Hb; lia). apply Hb. lia.
Qed.

(** The same for a nest of three loops and a fixed relation. *)
Lemma for3_sim (R : S -> S' -> Prop) (n1 n2 n3 : nat)
    (body : nat -> nat -> nat -> S -> S)
    (body' : nat -> nat -> nat -> S' -> S') (s : S) (s' : S') :
  R s s' ->
  (forall i j k t t', i < n1 -> j < n2 -> k < n3 ->
     R t t' -> R (body i j k t) (body' i j k t')) ->
  R (for_ n1 (fun i => for_ n2 (fun j => for_ n3 (body i j))) s)
    (for_ n1 (fun i => for_ n2 (fun j => for_ n3 (body' i j))) s').
Proof.
  intros H0 Hstep.
  apply (for_sim (fun _ => R)); [exact H0|]. intros i t t' Hi Ht.
  apply (for_sim (fun _ => R)); [exact Ht|]. intros j u u' Hj Hu.
  apply (for_sim (fun _ => R)); [exact Hu|]. intros k v v' Hk Hv.
  now apply Hstep.
Qed.

Lemma for_id (n : nat) (s : S) : for_ n (fun _ t => t) s = s.
Proof. induction n as [|n IH]; simpl; auto. Qed.

(** A loop on a pair whose body treats the components separately. *)
Lemma for_pair (n : nat) (F : nat -> S -> S) (G : nat -> S' -> S')
    (a : S) (b : S') :
  for_ n (fun i x => (F i x.1, G i x.2)) (a, b) = (for_ n F a, for_ n G b).
Proof. induction n as [|n IH]; simpl; [reflexivity|]. now rewrite IH. Qed.

Lemma for_fst (n : nat) (F : nat -> S -> S) (a : S) (b : S') :
  for_ n (fun i x => (F i x.1, x.2)) (a, b) = (for_ n F a, b).
Proof. induction n as [|n IH]; simpl; [reflexivity|]. now rewrite IH. Qed.

Lemma for_snd (n : nat) (G : nat -> S' -> S') (a : S) (b : S') :
  for_ n (fun i x => (x.1, G i x.2)) (a, b) = (a, for_ n G b).
Proof. induction n as [|n IH]; simpl; [reflexivity|]. now rewrite IH. Qed.

Lemma iter_upd_id (n : nat) (u : nat -> S -> S) (x : S) :
  (forall i y, i < n -> u i y = y) -> iter_upd n u x = x.
Proof.
  intros Hu. induction n as [|n IH]; simpl; [reflexivity|].
  rewrite Hu by lia. apply IH. intros; apply Hu; lia.
Qed.

Lemma iter_upd_one (n i0 : nat) (u : nat -> S -> S) (x : S) :
  i0 < n ->
  (forall i y, i < n -> i <> i0 -> u i y = y) ->
  iter_upd n u x = u i0 x.
Proof.
  intros Hi Hu. induction n as [|n IH]; [lia|]. simpl.
  destruct (decide (n = i0)) as [->|Hne].
  - f_equal. apply iter_upd_id. intros i y Hlt. apply Hu; lia.
  - rewrite Hu by lia. apply IH; [lia|]. intros; apply Hu; lia.
Qed.

End LoopFacts.

(** *** Loops that advance a cursor

    The assembly and disassembly loops carry [cur_idx] next to the
    vectors; its value at each iteration is known in advance. *)

Section Cursor.
Context {X : Type}.

Lemma cursor_loop (f : nat -> nat -> X -> X) (k c0 : nat) (x : X) :
  for_ k (fun i '(x, c) => (f i c x, S c)) (x, c0)
  = (for_ k (fun i x => f i (c0 + i) x) x, c0 + k).
Proof.
  induction k as [|k IH]; simpl; [f_equal; lia|].
  rewrite IH. f_equal. lia.
Qed.

Lemma cursor_inner (f : nat -> nat -> X -> X) (g : nat -> X -> X)
    (n k c0 : nat) (x : X) :
  for_ k (fun m '(x, c) => if m <? n then (f m c x, S c) else (g m x, c)) (x, c0)
  = (for_ k (fun m x => if m <? n then f m (c0 + min m n) x else g m x) x,
     c0 + min k n).
Proof.
  induction k as [|k IH]; simpl for_; [f_equal; lia|].
  rewrite IH. destruct (Nat.ltb_spec k n); f_equal; lia.
Qed.

Lemma cursor_outer (f : nat -> nat -> nat -> X -> X) (g : nat -> nat -> X -> X)
    (n k c0 : nat) (x : X) :
  k <= n ->
  for_ k (fun j => for_ n (fun m '(x, c) =>
            if m <? j then (f j m c x, S c) else (g j m x, c))) (x, c0)
  = (for_ k (fun j => for_ n (fun m x =>
            if m <? j then f j m (c0 + tri j + m) x else g j m x)) x,
     c0 + tri k).
Proof.
  intros Hk. induction k as [|k IH]; simpl for_; [f_equal; simpl; lia|].
  rewrite IH by lia.
  rewrite (cursor_inner (f k) (g k)). f_equal.
  - apply for_ext. intros m y Hm.
    destruct (Nat.ltb_spec m k); [|reflexivity]. f_equal. lia.
  - simpl. lia.
Qed.
End Cursor.

Section NestedUpdates.
Context {A : Type}.

Lemma iter2_id (n1 n2 : nat) (w : nat -> nat -> A -> A) (x : A) :
  (forall i j y, i < n1 -> j < n2 -> w i j y = y) ->
  iter_upd n1 (fun i => iter_upd n2 (fun j => w i j)) x = x.
Proof.
  intros Hw. apply iter_upd_id. intros i y Hi.
  apply iter_upd_id. intros j z Hj. now apply Hw.
Qed.

Lemma iter2_one (n1 n2 i0 j0 : nat) (w : nat -> nat -> A -> A) (x : A) :
  i0 < n1 -> j0 < n2 ->
  (forall i j y, i < n1 -> j < n2 -> (i <> i0 \/ j <> j0) -> w i j y = y) ->
  iter_upd n1 (fun i => iter_upd n2 (fun j => w i j)) x = w i0 j0 x.
Proof.
  intros Hi Hj Hw. rewrite (iter_upd_one n1 i0) by
    (try assumption; intros i y Hlt Hne; apply iter_upd_id;
     intros j z Hlt2; apply Hw; auto).
  apply iter_upd_one; [assumption|]. intros j y Hlt Hne. apply Hw; auto.
Qed.

Lemma iter3_id (n1 n2 n3 : nat) (w : nat -> nat -> nat -> A -> A) (x : A) :
  (forall i j k y, i < n1 -> j < n2 -> k < n3 -> w i j k y = y) ->
  iter_upd n1 (fun i => iter_upd n2 (fun j => iter_upd n3 (fun k => w i j k))) x
  = x.
Proof.
  intros Hw. apply iter_upd_id. intros i y Hi.
  apply iter2_id. intros j k z Hj Hk. now apply Hw.
Qed.

Lemma iter3_one (n1 n2 n3 i0 j0 k0 : nat)
    (w : nat -> nat -> nat -> A -> A) (x : A) :
  i0 < n1 -> j0 < n2 -> k0 < n3 ->
  (forall i j k y, i < n1 -> j < n2 -> k < n3 ->
     (i <> i0 \/ j <> j0 \/ k <> k0) -> w i j k y = y) ->
  iter_upd n1 (fun i => iter_upd n2 (fun j => iter_upd n3 (fun k => w i j k))) x
  = w i0 j0 k0 x.
Proof.
  intros Hi Hj Hk Hw. rewrite (iter_upd_one n1 i0) by
    (try assumption; intros i y Hlt Hne; apply iter2_id;
     intros j k z Hlt2 Hlt3; apply Hw; auto).
  apply iter2_one; try assumption.
  intros j k y Hlt2 Hlt3 Hne. apply Hw; tauto.
Qed.
End NestedUpdates.

(* ================================================================== *)
(** ** Vectors *)

Section VectorFacts.
Context {T : Type} `{Elem T}.

Lemma length_wr (v : list T) (i : nat) (x : T) : length (wr v i x) = length v.
Proof. apply length_insert. Qed.

Lemma rd_wr_eq (v : list T) (i : nat) (x : T) :
  i < length v -> rd (wr v i x) i = x.
Proof. intros Hi. unfold rd, wr. now rewrite list_lookup_insert_eq. Qed.

Lemma rd_wr_ne (v : list T) (i k : nat) (x : T) :
  i <> k -> rd (wr v i x) k = rd v k.
Proof. intros Hne. unfold rd, wr. now rewrite list_lookup_insert_ne. Qed.

Lemma rd_lookup (v : list T) (k : nat) :
  k < length v -> v !! k = Some (rd v k).
Proof.
  intros Hk. unfold rd. destruct (lookup_lt_is_Some_2 v k Hk) as [x ->].
  reflexivity.
Qed.

Lemma rd_app_l (a b : list T) (k : nat) :
  k < length a -> rd (a ++ b) k = rd a k.
Proof. intros Hk. unfold rd. now rewrite lookup_app_l. Qed.

Lemma rd_app_r (a b : list T) (k : nat) :
  length a <= k -> rd (a ++ b) k = rd b (k - length a).
Proof. intros Hk. unfold rd. now rewrite lookup_app_r. Qed.

Lemma rd_replicate (n k : nat) (x : T) : k < n -> rd (replicate n x) k = x.
Proof. intros Hk. unfold rd. now rewrite lookup_replicate_2. Qed.

(** Vectors of one length with the same cells are equal. *)
Lemma list_eq_rd (a b : list T) :
  length a = length b ->
  (forall k, k < length a -> rd a k = rd b k) ->
  a = b.
Proof.
  intros Hlen Hrd. apply list_eq. intros k.
  destruct (decide (k < length a)) as [Hk|Hk].
  - rewrite !rd_lookup by lia. f_equal. now apply Hrd.
  - rewrite !lookup_ge_None_2 by lia. reflexivity.
Qed.

Lemma cellwise_skip : cellwise (fun a : list T => a) (fun _ x => x).
Proof. intros a. auto. Qed.

(** A store to cell [i] of a value computed from the cell. *)
Lemma cellwise_wr (i : nat) (g : T -> T) :
  cellwise (fun a => wr a i (g (rd a i))) (upd_at i g).
Proof.
  intros a. split; [apply length_wr|]. intros k Hk. unfold upd_at.
  destruct (Nat.eqb_spec k i) as [->|Hne].
  - now apply rd_wr_eq.
  - apply rd_wr_ne. auto.
Qed.

Lemma cellwise_if (c : bool) (f f' : list T -> list T)
    (u u' : nat -> T -> T) :
  cellwise f u -> cellwise f' u' ->
  cellwise (fun a => if c then f a else f' a)
           (fun k x => if c then u k x else u' k x).
Proof. intros Hf Hf'. now destruct c. Qed.

Lemma cellwise_comp (f g : list T -> list T) (u u' : nat -> T -> T) :
  cellwise f u -> cellwise g u' ->
  cellwise (fun a => g (f a)) (fun k x => u' k (u k x)).
Proof.
  intros Hf Hg a. destruct (Hf a) as [Hl Hr], (Hg (f a)) as [Hl' Hr'].
  split; [congruence|]. intros k Hk. rewrite Hr' by lia. f_equal. now apply Hr.
Qed.

Lemma cellwise_ext (f f' : list T -> list T) (u u' : nat -> T -> T) :
  cellwise f u ->
  (forall a, f' a = f a) -> (forall k x, u' k x = u k x) ->
  cellwise f' u'.
Proof.
  intros Hc Hf Hu a. rewrite Hf. destruct (Hc a) as [Hl Hr].
  split; [exact Hl|]. intros k Hk. rewrite Hu. now apply Hr.
Qed.

Lemma cellwise_for (n : nat) (body : nat -> list T -> list T)
    (u : nat -> nat -> T -> T) :
  (forall i, i < n -> cellwise (body i) (u i)) ->
  cellwise (for_ n body) (fun k => iter_upd n (fun i => u i k)).
Proof.
  intros Hb. induction n as [|n IH]; intros a; simpl; [auto|].
  destruct (IH (fun i Hi => Hb i (Nat.lt_lt_succ_r _ _ Hi)) a) as [Hl Hr].
  destruct (Hb n (Nat.lt_succ_diag_r n) (for_ n body a)) as [Hl' Hr'].
  split; [congruence|]. intros k Hk.
  rewrite Hr' by lia. f_equal. now apply Hr.
Qed.

End VectorFacts.

(* ================================================================== *)
(** ** Index arithmetic *)

Lemma idx2_inj (n a b a' b' : nat) :
  b < n -> b' < n -> a * n + b = a' * n + b' -> a = a' /\ b = b'.
Proof.
  intros Hb Hb' Heq.
  assert (a = a') as -> by nia. split; [reflexivity|lia].
Qed.

Lemma idx2_lt (h n a b : nat) : a < h -> b < n -> a * n + b < h * n.
Proof. intros Ha Hb. nia. Qed.

Lemma tri_double (n : nat) : 2 * tri n + n = n * n.
Proof. induction n as [|n IH]; simpl; lia. Qed.

Lemma tri_mono (n n' : nat) : n <= n' -> tri n <= tri n'.
Proof. induction 1; simpl; lia. Qed.

Lemma tri_succ_le (n n' : nat) : n < n' -> tri n + n <= tri n'.
Proof. intros Hlt. apply (tri_mono (1 + n) n'). lia. Qed.

(** Distinct pairs below the diagonal have distinct positions. *)
Lemma tri_inj (n m n' m' : nat) :
  m < n -> m' < n' -> tri n + m = tri n' + m' -> n = n' /\ m = m'.
Proof.
  intros Hm Hm' Heq.
  destruct (lt_eq_lt_dec n n') as [[Hlt| ->]|Hlt].
  - pose proof (tri_succ_le n n' Hlt). lia.
  - split; [reflexivity|lia].
  - pose proof (tri_succ_le n' n Hlt). lia.
Qed.

(* ================================================================== *)
(** ** The host loops *)

Section HostFacts.
Context {T : Type} `{Elem T}.
Variables height n_emb in_width : nat.

Local Abbreviation N := (n_ins n_emb).
Local Abbreviation W := (out_width n_emb in_width).
Local Abbreviation L := (out_len n_emb in_width).

Lemma idx3_inj (n1 n2 p i j p' i' j' : nat) :
  i < n1 -> j < n2 -> i' < n1 -> j' < n2 ->
  n1 * n2 * p + i * n2 + j = n1 * n2 * p' + i' * n2 + j' ->
  p = p' /\ i = i' /\ j = j'.
Proof.
  intros Hi Hj Hi' Hj' Heq.
  destruct (idx2_inj n2 (p * n1 + i) j (p' * n1 + i') j') as [H1 ->];
    [assumption|assumption|lia|].
  destruct (idx2_inj n1 p i p' i') as [-> ->]; auto.
Qed.

Lemma idx3_lt (h n1 n2 p i j : nat) :
  p < h -> i < n1 -> j < n2 -> n1 * n2 * p + i * n2 + j < h * n1 * n2.
Proof.
  intros Hp Hi Hj.
  pose proof (idx2_lt h n1 p i Hp Hi).
  pose proof (idx2_lt (h * n1) n2 (p * n1 + i) j ltac:(lia) Hj). lia.
Qed.

(** *** Matmul *)

Lemma host_matmul_cellwise (concat : list T) :
  cellwise (host_matmul height n_emb in_width concat)
    (fun k => iter_upd height (fun p => iter_upd N (fun m => iter_upd N (fun n =>
       upd_at (N * N * p + m * N + n)
              (fun _ => convert (dot_rows n_emb in_width concat p m n)) k)))).
Proof.
  unfold host_matmul.
  apply cellwise_for; intros p Hp.
  apply cellwise_for; intros m Hm.
  apply cellwise_for; intros n Hn.
  apply (cellwise_wr _ (fun _ => _)).
Qed.

Lemma host_matmul_length (concat mat : list T) :
  length (host_matmul height n_emb in_width concat mat) = length mat.
Proof. apply host_matmul_cellwise. Qed.

Lemma host_matmul_cell (concat mat : list T) (b i j : nat) :
  length mat = height * N * N -> b < height -> i < N -> j < N ->
  rd (host_matmul height n_emb in_width concat mat) (N * N * b + i * N + j)
  = convert (dot_rows n_emb in_width concat b i j).
Proof.
  intros Hlen Hb Hi Hj.
  destruct (host_matmul_cellwise concat mat) as [_ Hr].
  rewrite Hr by (rewrite Hlen; now apply idx3_lt).
  rewrite (iter3_one height N N b i j); try assumption.
  - unfold upd_at. now rewrite Nat.eqb_refl.
  - intros p m n y Hp Hm Hn Hne. unfold upd_at.
    destruct (Nat.eqb_spec (N * N * b + i * N + j) (N * N * p + m * N + n))
      as [Heq|]; [|reflexivity].
    apply idx3_inj in Heq; try assumption. lia.
Qed.

(** *** Concatenation and scatter *)

Lemma concat_fprop_proj (s : concat_state) :
  let s' := concat_op height n_emb in_width true s in
  h_in_mlp s' = h_in_mlp s /\ h_in_emb s' = h_in_emb s /\
  h_concat s' =
    for_ N (fun ni => for_ height (fun h => for_ in_width (fun w a =>
      wr a (h * W + ni * in_width + w)
         (concat_src n_emb in_width (h_in_mlp s) (h_in_emb s) ni h w)))) (h_concat s).
Proof.
  unfold concat_op.
  apply (for3_sim (fun t a => h_in_mlp t = h_in_mlp s /\
                               h_in_emb t = h_in_emb s /\ h_concat t = a));
    [auto|].
  intros ni h w t a _ _ _ (Hm & He & Hc).
  unfold concat_cell, concat_src. simpl. rewrite Hm, He, Hc.
  destruct (ni =? 0); auto.
Qed.

Lemma concat_fprop_cell (s : concat_state) (b ni w : nat) :
  length (h_concat s) = height * W -> b < height -> ni < N -> w < in_width ->
  rd (h_concat (concat_op height n_emb in_width true s))
     (N * in_width * b + ni * in_width + w)
  = concat_src n_emb in_width (h_in_mlp s) (h_in_emb s) ni b w.
Proof.
  intros Hlen Hb Hni Hw.
  destruct (concat_fprop_proj s) as (_ & _ & ->).
  match goal with |- rd (?f _) _ = _ =>
    assert (Hc : cellwise f (fun k =>
      iter_upd N (fun ni => iter_upd height (fun h => iter_upd in_width (fun w =>
        upd_at (h * W + ni * in_width + w)
          (fun _ => concat_src n_emb in_width (h_in_mlp s) (h_in_emb s) ni h w) k))))) end.
  { apply cellwise_for; intros ? _. apply cellwise_for; intros ? _.
    apply cellwise_for; intros ? _. apply (cellwise_wr _ (fun _ => _)). }
  destruct (Hc (h_concat s)) as [_ Hr].
  rewrite Hr by (rewrite Hlen; unfold out_width;
                 pose proof (idx3_lt height N in_width b ni w Hb Hni Hw); lia).
  rewrite (iter3_one N height in_width ni b w); try assumption.
  - unfold upd_at, out_width.
    replace (b * (N * in_width) + ni * in_width + w)
      with (N * in_width * b + ni * in_width + w) by lia.
    now rewrite Nat.eqb_refl.
  - intros ni' h' w' y Hni' Hh' Hw' Hne. unfold upd_at, out_width.
    destruct (Nat.eqb_spec (N * in_width * b + ni * in_width + w)
                (h' * (N * in_width) + ni' * in_width + w')) as [Heq|];
      [|reflexivity].
    replace (h' * (N * in_width) + ni' * in_width + w')
      with (N * in_width * h' + ni' * in_width + w') in Heq by lia.
    apply idx3_inj in Heq; try assumption. lia.
Qed.

Lemma concat_fprop_length (s : concat_state) :
  length (h_concat (concat_op height n_emb in_width true s))
  = length (h_concat s).
Proof.
  destruct (concat_fprop_proj s) as (_ & _ & ->).
  match goal with |- length (?f _) = _ =>
    assert (Hc : cellwise f (fun k =>
      iter_upd N (fun ni => iter_upd height (fun h => iter_upd in_width (fun w =>
        upd_at (h * W + ni * in_width + w)
          (fun _ => concat_src n_emb in_width (h_in_mlp s) (h_in_emb s) ni h w) k))))) end.
  { apply cellwise_for; intros ? _. apply cellwise_for; intros ? _.
    apply cellwise_for; intros ? _. apply (cellwise_wr _ (fun _ => _)). }
  apply Hc.
Qed.
Lemma idx3_decompose (h n1 n2 k : nat) :
  k < h * n1 * n2 ->
  exists p i j, p < h /\ i < n1 /\ j < n2 /\ k = n1 * n2 * p + i * n2 + j.
Proof.
  intros Hk.
  assert (n2 <> 0) by (intros ->; lia).
  assert (n1 <> 0) by (intros ->; lia).
  pose proof (Nat.div_mod k n2 ltac:(assumption)) as Hq.
  pose proof (Nat.mod_upper_bound k n2 ltac:(assumption)) as Hj.
  pose proof (Nat.div_mod (k `div` n2) n1 ltac:(assumption)) as Hq'.
  pose proof (Nat.mod_upper_bound (k `div` n2) n1 ltac:(assumption)) as Hi.
  exists ((k `div` n2) `div` n1), ((k `div` n2) `mod` n1), (k `mod` n2).
  repeat split; try assumption; [|nia].
  apply Nat.Div0.div_lt_upper_bound. apply Nat.Div0.div_lt_upper_bound. lia.
Qed.

Lemma concat_bprop_proj (s : concat_state) :
  let s' := concat_op height n_emb in_width false s in
  h_concat s' = h_concat s /\
  h_in_mlp s' =
    for_ N (fun ni => for_ height (fun h => for_ in_width (fun w a =>
      if ni =? 0 then
        wr a (h * in_width + w)
           (t_add (rd a (h * in_width + w))
                  (rd (h_concat s) (h * W + ni * in_width + w)))
      else a))) (h_in_mlp s) /\
  h_in_emb s' =
    for_ N (fun ni => for_ height (fun h => for_ in_width (fun w a =>
      if ni =? 0 then a
      else wr a (h * in_width * n_emb + w + (ni - 1) * in_width)
              (rd (h_concat s) (h * W + ni * in_width + w))))) (h_in_emb s).
Proof.
  unfold concat_op. split; [|split].
  - apply (for3_sim (fun (t : concat_state) (_ : unit) => h_concat t = h_concat s)
             _ _ _ _ (fun _ _ _ u => u) s tt); [reflexivity|].
    intros ni h w t _ _ _ _ Hc. unfold concat_cell.
    destruct (ni =? 0); assumption.
  - apply (for3_sim (fun t a => h_concat t = h_concat s /\ h_in_mlp t = a));
      [auto|].
    intros ni h w t a _ _ _ [Hc Hm]. unfold concat_cell.
    destruct (ni =? 0); simpl; rewrite ?Hc, ?Hm; auto.
  - apply (for3_sim (fun t a => h_concat t = h_concat s /\ h_in_emb t = a));
      [auto|].
    intros ni h w t a _ _ _ [Hc He]. unfold concat_cell.
    destruct (ni =? 0); simpl; rewrite ?Hc, ?He; auto.
Qed.

(** Action of the scatter on the dense-gradient vector. *)
Lemma scatter_mlp_cellwise (c : list T) :
  cellwise
    (for_ N (fun ni => for_ height (fun h => for_ in_width (fun w a =>
      if ni =? 0 then
        wr a (h * in_width + w)
           (t_add (rd a (h * in_width + w)) (rd c (h * W + ni * in_width + w)))
      else a))))
    (fun k => iter_upd N (fun ni => iter_upd height (fun h =>
       iter_upd in_width (fun w x =>
         if ni =? 0 then
           upd_at (h * in_width + w)
             (fun y => t_add y (rd c (h * W + ni * in_width + w))) k x
         else x)))).
Proof.
  apply cellwise_for; intros ni _. apply cellwise_for; intros h _.
  apply cellwise_for; intros w _.
  apply (cellwise_if (ni =? 0) _ _ _ (fun _ x => x));
    [|apply cellwise_skip].
  apply (cellwise_wr _ (fun y => t_add y _)).
Qed.

(** Action of the scatter on the embedding-gradient vector. *)
Lemma scatter_emb_cellwise (c : list T) :
  cellwise
    (for_ N (fun ni => for_ height (fun h => for_ in_width (fun w a =>
      if ni =? 0 then a
      else wr a (h * in_width * n_emb + w + (ni - 1) * in_width)
              (rd c (h * W + ni * in_width + w))))))
    (fun k => iter_upd N (fun ni => iter_upd height (fun h =>
       iter_upd in_width (fun w x =>
         if ni =? 0 then x
         else upd_at (h * in_width * n_emb + w + (ni - 1) * in_width)
                (fun _ => rd c (h * W + ni * in_width + w)) k x)))).
Proof.
  apply cellwise_for; intros ni _. apply cellwise_for; intros h _.
  apply cellwise_for; intros w _.
  apply (cellwise_if (ni =? 0) _ _ (fun _ x => x)); [apply cellwise_skip|].
  apply (cellwise_wr _ (fun _ => _)).
Qed.

Lemma scatter_mlp_cell (s : concat_state) (h w : nat) :
  length (h_in_mlp s) = height * in_width -> h < height -> w < in_width ->
  rd (h_in_mlp (concat_op height n_emb in_width false s)) (h * in_width + w)
  = t_add (rd (h_in_mlp s) (h * in_width + w)) (rd (h_concat s) (h * W + w)).
Proof.
  intros Hlen Hh Hw.
  destruct (concat_bprop_proj s) as (_ & -> & _).
  destruct (scatter_mlp_cellwise (h_concat s) (h_in_mlp s)) as [_ Hr].
  rewrite Hr by (rewrite Hlen; now apply idx2_lt).
  rewrite (iter3_one N height in_width 0 h w); try assumption.
  - simpl. unfold upd_at. rewrite Nat.eqb_refl. do 2 f_equal. lia.
  - unfold n_ins. lia.
  - intros ni h' w' y Hni Hh' Hw' Hne.
    destruct (Nat.eqb_spec ni 0) as [->|]; [|reflexivity].
    unfold upd_at.
    destruct (Nat.eqb_spec (h * in_width + w) (h' * in_width + w')) as [Heq|];
      [|reflexivity].
    apply idx2_inj in Heq; try assumption. lia.
Qed.

Lemma scatter_emb_cell (s : concat_state) (h e w : nat) :
  length (h_in_emb s) = height * n_emb * in_width ->
  h < height -> e < n_emb -> w < in_width ->
  rd (h_in_emb (concat_op height n_emb in_width false s))
     (h * in_width * n_emb + w + e * in_width)
  = rd (h_concat s) (h * W + (1 + e) * in_width + w).
Proof.
  intros Hlen Hh He Hw.
  destruct (concat_bprop_proj s) as (_ & _ & ->).
  destruct (scatter_emb_cellwise (h_concat s) (h_in_emb s)) as [_ Hr].
  rewrite Hr by (rewrite Hlen;
    pose proof (idx3_lt height n_emb in_width h e w Hh He Hw); lia).
  rewrite (iter3_one N height in_width (1 + e) h w); try assumption.
  - simpl. unfold upd_at. rewrite Nat.sub_0_r, Nat.eqb_refl. reflexivity.
  - unfold n_ins. lia.
  - intros ni h' w' y Hni Hh' Hw' Hne.
    destruct (Nat.eqb_spec ni 0) as [->|Hni0]; [reflexivity|].
    unfold upd_at.
    destruct (Nat.eqb_spec (h * in_width * n_emb + w + e * in_width)
                (h' * in_width * n_emb + w' + (ni - 1) * in_width)) as [Heq|];
      [|reflexivity].
    assert (Heq' : n_emb * in_width * h + e * in_width + w
                   = n_emb * in_width * h' + (ni - 1) * in_width + w') by lia.
    apply idx3_inj in Heq'; try assumption; unfold n_ins in *; lia.
Qed.

(** Every cell of the embedding-gradient vector is overwritten by the
    scatter. *)
Lemma scatter_emb_all (s : concat_state) (k : nat) :
  length (h_in_emb s) = height * n_emb * in_width ->
  k < height * n_emb * in_width ->
  exists h e w, h < height /\ e < n_emb /\ w < in_width /\
    k = h * in_width * n_emb + w + e * in_width /\
    rd (h_in_emb (concat_op height n_emb in_width false s)) k
    = rd (h_concat s) (h * W + (1 + e) * in_width + w).
Proof.
  intros Hlen Hk.
  destruct (idx3_decompose height n_emb in_width k Hk)
    as (h & e & w & Hh & He & Hw & ->).
  exists h, e, w. repeat split; try assumption; [lia|].
  replace (n_emb * in_width * h + e * in_width + w)
    with (h * in_width * n_emb + w + e * in_width) by lia.
  now apply scatter_emb_cell.
Qed.

Lemma scatter_lengths (s : concat_state) :
  length (h_in_mlp (concat_op height n_emb in_width false s))
  = length (h_in_mlp s) /\
  length (h_in_emb (concat_op height n_emb in_width false s))
  = length (h_in_emb s).
Proof.
  destruct (concat_bprop_proj s) as (_ & -> & ->). split.
  - apply scatter_mlp_cellwise.
  - apply scatter_emb_cellwise.
Qed.

(** *** Recombination *)

Lemma host_recombine_cellwise (h_mat tmp : list T) :
  cellwise (host_recombine height n_emb in_width h_mat tmp)
    (fun k => iter_upd height (fun p => iter_upd N (fun m =>
       iter_upd in_width (fun n =>
         upd_at (N * in_width * p + m * in_width + n)
           (fun _ => convert (fmul f1 (sym_sum n_emb in_width h_mat tmp p m n)))
           k)))).
Proof.
  unfold host_recombine.
  apply cellwise_for; intros p _. apply cellwise_for; intros m _.
  apply cellwise_for; intros n _. apply (cellwise_wr _ (fun _ => _)).
Qed.

Lemma host_recombine_cell (h_mat tmp concat : list T) (b m j : nat) :
  length concat = height * W -> b < height -> m < N -> j < in_width ->
  rd (host_recombine height n_emb in_width h_mat tmp concat)
     (N * in_width * b + m * in_width + j)
  = convert (sym_sum n_emb in_width h_mat tmp b m j).
Proof.
  intros Hlen Hb Hm Hj.
  destruct (host_recombine_cellwise h_mat tmp concat) as [_ Hr].
  rewrite Hr by (rewrite Hlen; unfold out_width;
                 pose proof (idx3_lt height N in_width b m j Hb Hm Hj); lia).
  rewrite (iter3_one height N in_width b m j); try assumption.
  - unfold upd_at. now rewrite Nat.eqb_refl, fmul_1_l.
  - intros p m' n y Hp Hm' Hn Hne. unfold upd_at.
    destruct (Nat.eqb_spec (N * in_width * b + m * in_width + j)
                (N * in_width * p + m' * in_width + n)) as [Heq|];
      [|reflexivity].
    apply idx3_inj in Heq; try assumption. lia.
Qed.

(** *** Output assembly *)

Lemma out_len_tri : L = in_width + tri N + 1.
Proof.
  unfold out_len. pose proof (tri_double N) as Hd.
  replace (N * (N + 1)) with ((tri N + N) * 2) by lia.
  rewrite Nat.div_mul by lia. lia.
Qed.

(** The offset of the term [(m, n)] within an output row. *)
Lemma term_offset_lt (n m : nat) : m < n -> n < N -> in_width + tri n + m < L - 1.
Proof.
  intros Hm Hn. rewrite out_len_tri.
  pose proof (tri_succ_le n N Hn). lia.
Qed.

Lemma assemble_sample_flat (mlp mat : list T) (p : nat) (a : list T) :
  assemble_sample n_emb in_width mlp mat p a
  = for_ N (fun n => for_ N (fun m a =>
      if m <? n then
        wr a (p * L + (in_width + tri n + m)) (rd mat (p * N * N + m * N + n))
      else a))
      (for_ in_width (fun i a => wr a (p * L + i) (rd mlp (p * in_width + i))) a).
Proof.
  unfold assemble_sample.
  rewrite (cursor_loop (fun i c x => wr x (p * L + c) (rd mlp (p * in_width + i)))).
  rewrite (cursor_outer
             (fun n m c x => wr x (p * L + c) (rd mat (p * N * N + m * N + n)))
             (fun _ _ x => x)) by lia.
  reflexivity.
Qed.

Lemma assemble_sample_cellwise (mlp mat : list T) (p : nat) :
  cellwise (assemble_sample n_emb in_width mlp mat p)
           (assemble_upd n_emb in_width mlp mat p).
Proof.
  eapply cellwise_ext; [|apply assemble_sample_flat|reflexivity].
  apply (cellwise_comp
           (for_ in_width (fun i a => wr a (p * L + i) (rd mlp (p * in_width + i))))
           (for_ N (fun n => for_ N (fun m a =>
              if m <? n then
                wr a (p * L + (in_width + tri n + m))
                   (rd mat (p * N * N + m * N + n))
              else a)))
           (fun k => iter_upd in_width (fun i =>
              upd_at (p * L + i) (fun _ => rd mlp (p * in_width + i)) k))
           (fun k => iter_upd N (fun n => iter_upd N (fun m y =>
              if m <? n then
                upd_at (p * L + (in_width + tri n + m))
                       (fun _ => rd mat (p * N * N + m * N + n)) k y
              else y)))).
  - apply cellwise_for; intros i _. apply (cellwise_wr _ (fun _ => _)).
  - apply cellwise_for; intros n _. apply cellwise_for; intros m _.
    apply (cellwise_if (m <? n) _ _ _ (fun _ x => x)); [|apply cellwise_skip].
    apply (cellwise_wr _ (fun _ => _)).
Qed.

Lemma assemble_upd_outside (mlp mat : list T) (p k : nat) (x : T) :
  (forall c, c < L - 1 -> k <> p * L + c) ->
  assemble_upd n_emb in_width mlp mat p k x = x.
Proof.
  intros Hk. unfold assemble_upd.
  rewrite iter2_id.
  - apply iter_upd_id. intros i y Hi. unfold upd_at.
    destruct (Nat.eqb_spec k (p * L + i)) as [Heq|]; [|reflexivity].
    exfalso. apply (Hk i); [rewrite out_len_tri; lia|assumption].
  - intros n m y Hn Hm. destruct (Nat.ltb_spec m n) as [Hlt|]; [|reflexivity].
    unfold upd_at.
    destruct (Nat.eqb_spec k (p * L + (in_width + tri n + m))) as [Heq|];
      [|reflexivity].
    exfalso. apply (Hk (in_width + tri n + m)); [|assumption].
    now apply term_offset_lt.
Qed.

Lemma assemble_upd_dense (mlp mat : list T) (p i : nat) (x : T) :
  i < in_width ->
  assemble_upd n_emb in_width mlp mat p (p * L + i) x = rd mlp (p * in_width + i).
Proof.
  intros Hi. unfold assemble_upd.
  rewrite iter2_id.
  - rewrite (iter_upd_one in_width i); [|assumption|].
    + unfold upd_at. now rewrite Nat.eqb_refl.
    + intros i' y Hi' Hne. unfold upd_at.
      destruct (Nat.eqb_spec (p * L + i) (p * L + i')); [lia|reflexivity].
  - intros n m y Hn Hm. destruct (Nat.ltb_spec m n); [|reflexivity].
    unfold upd_at.
    destruct (Nat.eqb_spec (p * L + i) (p * L + (in_width + tri n + m)));
      [lia|reflexivity].
Qed.

Lemma assemble_upd_term (mlp mat : list T) (p n m : nat) (x : T) :
  m < n -> n < N ->
  assemble_upd n_emb in_width mlp mat p (p * L + (in_width + tri n + m)) x
  = rd mat (p * N * N + m * N + n).
Proof.
  intros Hm Hn. unfold assemble_upd.
  rewrite (iter2_one N N n m); [| assumption | lia |].
  - destruct (Nat.ltb_spec m n); [|lia]. unfold upd_at.
    now rewrite Nat.eqb_refl.
  - intros n' m' y Hn' Hm' Hne.
    destruct (Nat.ltb_spec m' n') as [Hlt|]; [|reflexivity]. unfold upd_at.
    destruct (Nat.eqb_spec (p * L + (in_width + tri n + m))
                (p * L + (in_width + tri n' + m'))) as [Heq|]; [|reflexivity].
    destruct (tri_inj n m n' m'); [assumption|assumption|lia|lia].
Qed.

Lemma host_assemble_cellwise (mlp mat : list T) :
  cellwise (host_assemble height n_emb in_width mlp mat)
    (fun k => iter_upd height (fun p => assemble_upd n_emb in_width mlp mat p k)).
Proof.
  unfold host_assemble. apply cellwise_for. intros p _.
  apply assemble_sample_cellwise.
Qed.

Lemma host_assemble_length (mlp mat ref : list T) :
  length (host_assemble height n_emb in_width mlp mat ref) = length ref.
Proof. apply host_assemble_cellwise. Qed.

(** Cell [c] of row [p] after the assembly is what the assembly of
    sample [p] makes of it. *)
Lemma host_assemble_row (mlp mat ref : list T) (p c : nat) :
  length ref = height * L -> p < height -> c < L ->
  rd (host_assemble height n_emb in_width mlp mat ref) (p * L + c)
  = assemble_upd n_emb in_width mlp mat p (p * L + c) (rd ref (p * L + c)).
Proof.
  intros Hlen Hp Hc.
  destruct (host_assemble_cellwise mlp mat ref) as [_ Hr].
  rewrite Hr by (rewrite Hlen; now apply idx2_lt).
  apply (iter_upd_one height p
           (fun q => assemble_upd n_emb in_width mlp mat q (p * L + c)));
    [assumption|].
  intros p' y Hp' Hne. apply assemble_upd_outside.
  intros c' Hc' Heq. apply idx2_inj in Heq; lia.
Qed.

Lemma host_assemble_pad (mlp mat ref : list T) (p : nat) :
  length ref = height * L -> p < height ->
  rd (host_assemble height n_emb in_width mlp mat ref) (p * L + (L - 1))
  = rd ref (p * L + (L - 1)).
Proof.
  intros Hlen Hp. pose proof out_len_tri as HL.
  rewrite host_assemble_row by (try assumption; lia).
  apply assemble_upd_outside. intros c Hc. lia.
Qed.

(** *** The output row as a list *)

Lemma lookup_fmap_seq (g : nat -> T) (n m : nat) :
  m < n -> (g <$> seq 0 n) !! m = Some (g m).
Proof. intros Hm. now rewrite list_lookup_fmap, lookup_seq_lt. Qed.

Lemma upper_prefix_length (g : nat -> nat -> T) (j : nat) :
  length (flat_map (fun n => g n <$> seq 0 n) (seq 1 j)) = tri (1 + j).
Proof.
  induction j as [|j IH]; [reflexivity|].
  rewrite seq_S, flat_map_app, length_app, IH. cbn [flat_map].
  rewrite app_nil_r, length_fmap, length_seq. simpl. lia.
Qed.

Lemma upper_prefix_lookup (g : nat -> nat -> T) (j n m : nat) :
  m < n -> n <= j ->
  flat_map (fun n => g n <$> seq 0 n) (seq 1 j) !! (tri n + m) = Some (g n m).
Proof.
  intros Hm. induction j as [|j IH]; intros Hn; [lia|].
  rewrite seq_S, flat_map_app. cbn [flat_map]. rewrite app_nil_r.
  destruct (decide (n = 1 + j)) as [->|Hne].
  - rewrite lookup_app_r by (rewrite upper_prefix_length; simpl; lia).
    rewrite upper_prefix_length.
    replace (tri (1 + j) + m - tri (1 + j)) with m by lia.
    now apply lookup_fmap_seq.
  - rewrite lookup_app_l.
    + apply IH. lia.
    + rewrite upper_prefix_length.
      pose proof (tri_succ_le n (1 + j)). lia.
Qed.

Lemma upper_terms_length (gram : list T) (p : nat) :
  length (upper_terms n_emb gram p) = tri N.
Proof.
  unfold upper_terms. rewrite upper_prefix_length. f_equal. unfold n_ins. lia.
Qed.

Lemma upper_terms_lookup (gram : list T) (p n m : nat) :
  m < n -> n < N ->
  upper_terms n_emb gram p !! (tri n + m) = Some (rd gram (p * N * N + m * N + n)).
Proof.
  intros Hm Hn. unfold upper_terms.
  rewrite (upper_prefix_lookup (fun n m => rd gram (p * N * N + m * N + n)));
    [reflexivity|assumption|lia].
Qed.

(** Every offset below [tri n] is the offset of one pair. *)
Lemma tri_decompose (n c : nat) :
  c < tri n -> exists n' m, m < n' /\ n' < n /\ c = tri n' + m.
Proof.
  induction n as [|n IH]; simpl; intros Hc; [lia|].
  destruct (decide (c < tri n)) as [Hlt|Hge].
  - destruct (IH Hlt) as (n' & m & Hm & Hn' & ->). exists n', m. lia.
  - exists n, (c - tri n). lia.
Qed.

Lemma rd_row (width : nat) (v : list T) (p k : nat) :
  k < width -> rd (row width v p) k = rd v (p * width + k).
Proof.
  intros Hk. unfold rd, row. now rewrite lookup_take_lt, lookup_drop.
Qed.

Lemma row_length (width h : nat) (v : list T) (p : nat) :
  length v = h * width -> p < h -> length (row width v p) = width.
Proof.
  intros Hlen Hp. unfold row. rewrite length_take, length_drop, Hlen. nia.
Qed.

(** *** Disassembly *)

(** The disassembly of a sample without its cursor: the dense loop acts
    on [h_in_mlp], the triangle loops act on [h_mat]. *)
Lemma disassemble_sample_flat (h_ref : list T) (p : nat) (x : list T * list T) :
  disassemble_sample n_emb in_width h_ref p x
  = (for_ in_width (fun i a =>
       wr a (p * in_width + i) (rd h_ref (p * L + i))) x.1,
     for_ N (fun n => for_ N (fun m a =>
       wr a (p * N * N + m * N + n)
          (if m <? n then rd h_ref (p * L + (in_width + tri n + m)) else t0)))
       x.2).
Proof.
  unfold disassemble_sample.
  rewrite (for_ext in_width _
    (fun i '(y, c) =>
       ((wr y.1 (p * in_width + i) (rd h_ref (p * L + c)), y.2), S c)))
    by (intros i [[a b] c] _; reflexivity).
  rewrite (cursor_loop (fun i c (y : list T * list T) =>
             (wr y.1 (p * in_width + i) (rd h_ref (p * L + c)), y.2))).
  rewrite (for_ext N _
    (fun n => for_ N (fun m '(y, c) =>
       if m <? n then
         ((y.1, wr y.2 (p * N * N + m * N + n) (rd h_ref (p * L + c))), S c)
       else ((y.1, wr y.2 (p * N * N + m * N + n) t0), c))))
    by (intros n t _; apply for_ext; intros m [[a b] c] _; reflexivity).
  rewrite (cursor_outer
    (fun n m c (y : list T * list T) =>
       (y.1, wr y.2 (p * N * N + m * N + n) (rd h_ref (p * L + c))))
    (fun n m (y : list T * list T) =>
       (y.1, wr y.2 (p * N * N + m * N + n) t0))) by lia.
  cbn [fst]. destruct x as [a b].
  rewrite (for_fst in_width
             (fun i y => wr y (p * in_width + i) (rd h_ref (p * L + (0 + i))))).
  rewrite (for_ext N _ (fun n y =>
             (y.1, for_ N (fun m a =>
                wr a (p * N * N + m * N + n)
                   (if m <? n then rd h_ref (p * L + (0 + in_width + tri n + m))
                    else t0)) y.2))).
  - rewrite (for_snd N (fun n => for_ N (fun m a =>
                wr a (p * N * N + m * N + n)
                   (if m <? n then rd h_ref (p * L + (0 + in_width + tri n + m))
                    else t0)))).
    reflexivity.
  - intros n [a' b'] _.
    rewrite (for_ext N _ (fun m y =>
               (y.1, wr y.2 (p * N * N + m * N + n)
                  (if m <? n then rd h_ref (p * L + (0 + in_width + tri n + m))
                   else t0))))
      by (intros m y _; destruct (m <? n); reflexivity).
    now rewrite (for_snd N (fun m a =>
               wr a (p * N * N + m * N + n)
                  (if m <? n then rd h_ref (p * L + (0 + in_width + tri n + m))
                   else t0))).
Qed.

Lemma host_disassemble_flat (h_ref : list T) (x : list T * list T) :
  host_disassemble height n_emb in_width h_ref x
  = (for_ height (fun p => for_ in_width (fun i a =>
       wr a (p * in_width + i) (rd h_ref (p * L + i)))) x.1,
     for_ height (fun p => for_ N (fun n => for_ N (fun m a =>
       wr a (p * N * N + m * N + n)
          (if m <? n then rd h_ref (p * L + (in_width + tri n + m)) else t0))))
       x.2).
Proof.
  unfold host_disassemble. destruct x as [a b]. cbn [fst snd].
  rewrite (for_ext height _ _ _ (fun p y _ => disassemble_sample_flat h_ref p y)).
  apply (for_pair height
    (fun p => for_ in_width (fun i a =>
       wr a (p * in_width + i) (rd h_ref (p * L + i))))
    (fun p => for_ N (fun n => for_ N (fun m a =>
       wr a (p * N * N + m * N + n)
          (if m <? n then rd h_ref (p * L + (in_width + tri n + m)) else t0))))).
Qed.

Lemma disassemble_mlp_cellwise (h_ref : list T) :
  cellwise
    (for_ height (fun p => for_ in_width (fun i a =>
       wr a (p * in_width + i) (rd h_ref (p * L + i)))))
    (fun k => iter_upd height (fun p => iter_upd in_width (fun i =>
       upd_at (p * in_width + i) (fun _ => rd h_ref (p * L + i)) k))).
Proof.
  apply cellwise_for; intros p _. apply cellwise_for; intros i _.
  apply (cellwise_wr _ (fun _ => _)).
Qed.

Lemma disassemble_mat_cellwise (h_ref : list T) :
  cellwise
    (for_ height (fun p => for_ N (fun n => for_ N (fun m a =>
       wr a (p * N * N + m * N + n)
          (if m <? n then rd h_ref (p * L + (in_width + tri n + m)) else t0)))))
    (fun k => iter_upd height (fun p => iter_upd N (fun n => iter_upd N (fun m =>
       upd_at (p * N * N + m * N + n)
         (fun _ => if m <? n then rd h_ref (p * L + (in_width + tri n + m))
                   else t0) k)))).
Proof.
  apply cellwise_for; intros p _. apply cellwise_for; intros n _.
  apply cellwise_for; intros m _. apply (cellwise_wr _ (fun _ => _)).
Qed.

Lemma disassemble_mlp_cell (h_ref : list T) (x : list T * list T) (p i : nat) :
  length x.1 = height * in_width -> p < height -> i < in_width ->
  rd (host_disassemble height n_emb in_width h_ref x).1 (p * in_width + i)
  = rd h_ref (p * L + i).
Proof.
  intros Hlen Hp Hi. rewrite host_disassemble_flat. cbn [fst].
  destruct (disassemble_mlp_cellwise h_ref x.1) as [_ Hr].
  rewrite Hr by (rewrite Hlen; now apply idx2_lt).
  rewrite (iter2_one height in_width p i); try assumption.
  - unfold upd_at. now rewrite Nat.eqb_refl.
  - intros p' i' y Hp' Hi' Hne. unfold upd_at.
    destruct (Nat.eqb_spec (p * in_width + i) (p' * in_width + i')) as [Heq|];
      [|reflexivity].
    apply idx2_inj in Heq; try assumption. lia.
Qed.

Lemma disassemble_mat_cell (h_ref : list T) (x : list T * list T) (p m n : nat) :
  length x.2 = height * N * N -> p < height -> m < N -> n < N ->
  rd (host_disassemble height n_emb in_width h_ref x).2 (N * N * p + m * N + n)
  = if m <? n then rd h_ref (p * L + (in_width + tri n + m)) else t0.
Proof.
  intros Hlen Hp Hm Hn. rewrite host_disassemble_flat. cbn [snd].
  destruct (disassemble_mat_cellwise h_ref x.2) as [_ Hr].
  rewrite Hr by (rewrite Hlen; now apply idx3_lt).
  rewrite (iter3_one height N N p n m); try assumption.
  - unfold upd_at.
    replace (p * N * N + m * N + n) with (N * N * p + m * N + n) by lia.
    now rewrite Nat.eqb_refl.
  - intros p' n' m' y Hp' Hn' Hm' Hne. unfold upd_at.
    destruct (Nat.eqb_spec (N * N * p + m * N + n) (p' * N * N + m' * N + n'))
      as [Heq|]; [|reflexivity].
    replace (p' * N * N + m' * N + n') with (N * N * p' + m' * N + n') in Heq
      by lia.
    apply idx3_inj in Heq; try assumption. lia.
Qed.

Lemma host_disassemble_lengths (h_ref : list T) (x : list T * list T) :
  length (host_disassemble height n_emb in_width h_ref x).1 = length x.1 /\
  length (host_disassemble height n_emb in_width h_ref x).2 = length x.2.
Proof.
  rewrite host_disassemble_flat. split.
  - apply disassemble_mlp_cellwise.
  - apply disassemble_mat_cellwise.
Qed.

(** The disassembly reads [h_ref] only below the pad of each row. *)
Lemma host_disassemble_pad (g g' : list T) (x : list T * list T) :
  (forall p c, p < height -> c < L - 1 -> rd g (p * L + c) = rd g' (p * L + c)) ->
  host_disassemble height n_emb in_width g x
  = host_disassemble height n_emb in_width g' x.
Proof.
  intros Hg. rewrite !host_disassemble_flat. f_equal.
  - apply for_ext. intros p a Hp. apply for_ext. intros i b Hi.
    rewrite Hg; [reflexivity|assumption|]. rewrite out_len_tri. lia.
  - apply for_ext. intros p a Hp. apply for_ext. intros n b Hn.
    apply for_ext. intros m c Hm.
    destruct (Nat.ltb_spec m n) as [Hlt|]; [|reflexivity].
    rewrite Hg; [reflexivity|assumption|]. now apply term_offset_lt.
Qed.

(** *** The two passes *)

Lemma host_fprop_fields (mlp emb : list T) :
  let st := host_fprop height n_emb in_width mlp emb in
  r_in_mlp st = mlp /\ r_in_emb st = emb /\
  r_concat st
  = h_concat (concat_op height n_emb in_width true
                (ConcatState mlp emb (replicate (height * W) t0))) /\
  r_mat st = host_matmul height n_emb in_width (r_concat st)
               (replicate (height * N * N) t0) /\
  r_ref st = host_assemble height n_emb in_width mlp (r_mat st)
               (replicate (height * L) t0).
Proof.
  unfold host_fprop. cbn [r_in_mlp r_in_emb r_concat r_mat r_ref].
  destruct (concat_fprop_proj
              (ConcatState mlp emb (replicate (height * W) t0)))
    as (Hm & He & _).
  rewrite Hm, He. cbn [h_in_mlp h_in_emb]. auto.
Qed.

Lemma host_bprop_fields (st : host) :
  let d := host_disassemble height n_emb in_width (r_ref st)
             (r_in_mlp st, r_mat st) in
  let c := host_recombine height n_emb in_width d.2 (r_concat st) (r_concat st) in
  let s := concat_op height n_emb in_width false
             (ConcatState d.1 (r_in_emb st) c) in
  let st' := host_bprop height n_emb in_width st in
  r_mat st' = d.2 /\ r_concat st' = c /\
  r_in_mlp st' = h_in_mlp s /\ r_in_emb st' = h_in_emb s /\
  r_ref st' = r_ref st.
Proof.
  unfold host_bprop.
  destruct (host_disassemble height n_emb in_width (r_ref st)
              (r_in_mlp st, r_mat st)) as [mlp' mat'].
  cbn [fst snd r_in_mlp r_in_emb r_concat r_mat r_ref].
  repeat split. apply concat_bprop_proj.
Qed.

Lemma host_fprop_concat_length (mlp emb : list T) :
  length (r_concat (host_fprop height n_emb in_width mlp emb)) = height * W.
Proof.
  destruct (host_fprop_fields mlp emb) as (_ & _ & -> & _).
  rewrite concat_fprop_length. cbn [h_concat]. apply length_replicate.
Qed.

Lemma half_n_pred : N * (N - 1) / 2 = tri N.
Proof.
  pose proof (tri_double N) as Hd.
  replace (N * (N - 1)) with (tri N * 2) by (unfold n_ins in *; nia).
  apply Nat.div_mul. lia.
Qed.

(** *** The upper-triangle variant of the matmul *)

Lemma host_matmul_upper_cell (concat mat : list T) (b i j : nat) :
  length mat = height * N * N -> b < height -> i < j -> j < N ->
  rd (host_matmul_upper height n_emb in_width concat mat) (N * N * b + i * N + j)
  = convert (dot_rows n_emb in_width concat b i j).
Proof.
  intros Hlen Hb Hi Hj.
  assert (Hc : cellwise (host_matmul_upper height n_emb in_width concat)
    (fun k => iter_upd height (fun p => iter_upd N (fun m => iter_upd N (fun n x =>
       if m <? n then
         upd_at (N * N * p + m * N + n)
                (fun _ => convert (dot_rows n_emb in_width concat p m n)) k x
       else x))))).
  { unfold host_matmul_upper.
    apply cellwise_for; intros p _. apply cellwise_for; intros m _.
    apply cellwise_for; intros n _.
    apply (cellwise_if (m <? n) _ _ _ (fun _ x => x)); [|apply cellwise_skip].
    apply (cellwise_wr _ (fun _ => _)). }
  destruct (Hc mat) as [_ Hr].
  rewrite Hr by (rewrite Hlen; apply idx3_lt; lia).
  rewrite (iter3_one height N N b i j); try assumption; [| lia |].
  - destruct (Nat.ltb_spec i j); [|lia]. unfold upd_at.
    now rewrite Nat.eqb_refl.
  - intros p m n y Hp Hm Hn Hne.
    destruct (Nat.ltb_spec m n); [|reflexivity]. unfold upd_at.
    destruct (Nat.eqb_spec (N * N * b + i * N + j) (N * N * p + m * N + n))
      as [Heq|]; [|reflexivity].
    apply idx3_inj in Heq; try assumption; lia.
Qed.

(** The assembly reads the Gram matrix only above the diagonal. *)
Lemma host_assemble_upper (mlp mat mat' ref : list T) :
  (forall p m n, p < height -> m < n -> n < N ->
     rd mat (N * N * p + m * N + n) = rd mat' (N * N * p + m * N + n)) ->
  host_assemble height n_emb in_width mlp mat ref
  = host_assemble height n_emb in_width mlp mat' ref.
Proof.
  intros Hm. unfold host_assemble. apply for_ext. intros p a Hp.
  rewrite !assemble_sample_flat.
  apply for_ext. intros n b Hn. apply for_ext. intros m c _.
  destruct (Nat.ltb_spec m n) as [Hlt|]; [|reflexivity].
  f_equal. specialize (Hm p m n Hp Hlt Hn).
  replace (p * N * N + m * N + n) with (N * N * p + m * N + n) by lia.
  exact Hm.
Qed.

(** *** Cells of the vectors after each pass *)

Lemma fprop_mat_cell (mlp emb : list T) (b i j : nat) :
  b < height -> i < N -> j < N ->
  let st := host_fprop height n_emb in_width mlp emb in
  rd (r_mat st) (N * N * b + i * N + j)
  = convert (dot_rows n_emb in_width (r_concat st) b i j).
Proof.
  intros Hb Hi Hj st.
  destruct (host_fprop_fields mlp emb) as (_ & _ & _ & Hm & _).
  fold st in Hm. rewrite Hm. apply host_matmul_cell; try assumption.
  apply length_replicate.
Qed.

Lemma fprop_concat_cell (mlp emb : list T) (b ni w : nat) :
  b < height -> ni < N -> w < in_width ->
  rd (r_concat (host_fprop height n_emb in_width mlp emb))
     (N * in_width * b + ni * in_width + w)
  = concat_src n_emb in_width mlp emb ni b w.
Proof.
  intros Hb Hni Hw.
  destruct (host_fprop_fields mlp emb) as (_ & _ & -> & _).
  rewrite concat_fprop_cell; try assumption; [reflexivity|].
  apply length_replicate.
Qed.

Lemma fprop_ref_cell (mlp emb : list T) (p c : nat) :
  p < height -> c < L ->
  let st := host_fprop height n_emb in_width mlp emb in
  rd (r_ref st) (p * L + c)
  = assemble_upd n_emb in_width mlp (r_mat st) p (p * L + c) t0.
Proof.
  intros Hp Hc st.
  destruct (host_fprop_fields mlp emb) as (_ & _ & _ & _ & Href).
  fold st in Href. rewrite Href.
  rewrite host_assemble_row by (try assumption; apply length_replicate).
  f_equal. apply rd_replicate. now apply idx2_lt.
Qed.

Lemma fprop_lengths (mlp emb : list T) :
  let st := host_fprop height n_emb in_width mlp emb in
  length (r_mat st) = height * N * N /\ length (r_ref st) = height * L.
Proof.
  intros st.
  destruct (host_fprop_fields mlp emb) as (_ & _ & _ & Hm & Href).
  fold st in Hm, Href. split.
  - rewrite Hm, host_matmul_length. apply length_replicate.
  - rewrite Href, host_assemble_length. apply length_replicate.
Qed.

Lemma bprop_concat_cell (st : host) (b m j : nat) :
  length (r_concat st) = height * W -> b < height -> m < N -> j < in_width ->
  let st' := host_bprop height n_emb in_width st in
  rd (r_concat st') (N * in_width * b + m * in_width + j)
  = convert (sym_sum n_emb in_width (r_mat st') (r_concat st) b m j).
Proof.
  intros Hlen Hb Hm Hj st'.
  destruct (host_bprop_fields st) as (Hmat & Hc & _).
  fold st' in Hmat, Hc. rewrite Hc, Hmat.
  now apply host_recombine_cell.
Qed.

Lemma bprop_mat_cell (st : host) (p m n : nat) :
  length (r_mat st) = height * N * N -> p < height -> m < N -> n < N ->
  rd (r_mat (host_bprop height n_emb in_width st)) (N * N * p + m * N + n)
  = if m <? n then rd (r_ref st) (p * L + (in_width + tri n + m)) else t0.
Proof.
  intros Hlen Hp Hm Hn.
  destruct (host_bprop_fields st) as (-> & _).
  now apply disassemble_mat_cell.
Qed.

Lemma bprop_mlp_cell (st : host) (h w : nat) :
  length (r_in_mlp st) = height * in_width -> h < height -> w < in_width ->
  let st' := host_bprop height n_emb in_width st in
  rd (r_in_mlp st') (h * in_width + w)
  = t_add (rd (r_ref st) (h * L + w)) (rd (r_concat st') (h * W + w)).
Proof.
  intros Hlen Hh Hw st'.
  destruct (host_bprop_fields st) as (_ & Hc & Hm & _).
  fold st' in Hc, Hm. rewrite Hm, Hc.
  rewrite scatter_mlp_cell; cbn [h_in_mlp h_concat]; try assumption.
  - now rewrite disassemble_mlp_cell.
  - destruct (host_disassemble_lengths (r_ref st) (r_in_mlp st, r_mat st))
      as [-> _]. exact Hlen.
Qed.

Lemma bprop_emb_cell (st : host) (h e w : nat) :
  length (r_in_emb st) = height * n_emb * in_width ->
  h < height -> e < n_emb -> w < in_width ->
  let st' := host_bprop height n_emb in_width st in
  rd (r_in_emb st') (h * in_width * n_emb + w + e * in_width)
  = rd (r_concat st') (h * W + (1 + e) * in_width + w).
Proof.
  intros Hlen Hh He Hw st'.
  destruct (host_bprop_fields st) as (_ & Hc & _ & Hemb & _).
  fold st' in Hc, Hemb. rewrite Hemb, Hc.
  now rewrite scatter_emb_cell.
Qed.
(** *** Symmetry of the Gram matrix *)

Lemma host_gram_comm (in_mlp in_emb : list T) (b i j : nat) :
  (forall x y : T, get_accum x y = get_accum y x) ->
  b < height -> i < N -> j < N ->
  let st := host_fprop height n_emb in_width in_mlp in_emb in
  rd (r_mat st) (N * N * b + i * N + j) = rd (r_mat st) (N * N * b + j * N + i).
Proof.
  intros Hcomm Hb Hi Hj st. unfold st.
  rewrite !fprop_mat_cell by assumption.
  f_equal. unfold dot_rows, accumulate.
  apply for_ext. intros k acc _. f_equal. apply Hcomm.
Qed.
End HostFacts.

(* ================================================================== *)
(** ** Properties of the host reference *)

Section HostProperties.
Context {T : Type} `{Elem T}.
Variables height n_emb in_width : nat.

Local Abbreviation N := (n_ins n_emb).
Local Abbreviation W := (out_width n_emb in_width).
Local Abbreviation L := (out_len n_emb in_width).
Local Abbreviation fprop := (host_fprop height n_emb in_width).
Local Abbreviation bprop := (host_bprop height n_emb in_width).

Lemma concat_is_inputs_holds (in_mlp in_emb : list T) (b : nat) :
  b < height -> concat_is_inputs height n_emb in_width in_mlp in_emb b.
Proof.
  intros Hb. unfold concat_is_inputs.
  destruct (host_fprop_fields height n_emb in_width in_mlp in_emb)
    as (_ & _ & Hc & _).
  cbv zeta in Hc. split.
  - intros k Hk. rewrite Hc.
    replace (N * in_width * b + k) with (N * in_width * b + 0 * in_width + k)
      by lia.
    rewrite concat_fprop_cell; try assumption.
    + reflexivity.
    + apply length_replicate.
    + unfold n_ins. lia.
  - intros e k He Hk. rewrite Hc.
    rewrite concat_fprop_cell; try assumption.
    + unfold concat_src. cbn [Nat.eqb Nat.add h_in_emb].
      f_equal. lia.
    + apply length_replicate.
    + unfold n_ins. lia.
Qed.

Lemma recombine_cell (in_mlp in_emb grad : list T) (b m j : nat) :
  b < height -> m < N -> j < in_width ->
  let fwd := fprop in_mlp in_emb in
  let bwd := bprop (with_ref fwd grad) in
  rd (r_concat bwd) (N * in_width * b + m * in_width + j)
  = convert (sym_sum n_emb in_width (r_mat bwd) (r_concat fwd) b m j).
Proof.
  intros Hb Hm Hj fwd bwd.
  destruct (host_bprop_fields height n_emb in_width (with_ref fwd grad))
    as (Hmat & Hc & _).
  fold bwd in Hmat, Hc. rewrite Hc, Hmat. cbn [with_ref r_concat r_mat r_ref r_in_mlp].
  rewrite host_recombine_cell; try assumption; [reflexivity|].
  apply host_fprop_concat_length.
Qed.

(** C2.  Output layout: every per-sample output row has length
    [out_len = in_width + n_ins * (n_ins - 1) / 2 + 1] and is the
    [in_width] dense values, then the strict upper triangle of the Gram
    matrix column by column (for [n] from 1 to [n_ins - 1], for [m] from 0
    to [n - 1], [Gram[m, n]]), then one trailing element, which is the
    zero of [T]. *)
Theorem output_layout (in_mlp in_emb : list T) (p : nat) :
  p < height ->
  let st := fprop in_mlp in_emb in
  L = in_width + N * (N - 1) / 2 + 1
  /\ length (row L (r_ref st) p) = L
  /\ row L (r_ref st) p
     = dense_row in_width in_mlp p ++ upper_terms n_emb (r_mat st) p ++ [t0]
  /\ last (row L (r_ref st) p) = Some t0.
Proof.
  intros Hp st.
  destruct (host_fprop_fields height n_emb in_width in_mlp in_emb)
    as (_ & _ & _ & _ & Href).
  fold st in Href.
  pose proof (out_len_tri n_emb in_width) as HL.
  assert (Hlen : length (r_ref st) = height * L)
    by (rewrite Href, host_assemble_length; apply length_replicate).
  assert (Hrow : row L (r_ref st) p
     = dense_row in_width in_mlp p ++ upper_terms n_emb (r_mat st) p ++ [t0]).
  { apply list_eq_rd.
    - rewrite (row_length L height) by assumption.
      rewrite !length_app, upper_terms_length. unfold dense_row.
      rewrite length_fmap, length_seq. cbn [length]. lia.
    - rewrite (row_length L height) by assumption. intros k Hk.
      rewrite rd_row by assumption.
      rewrite Href, host_assemble_row
        by (try assumption; apply length_replicate).
      assert (Hdl : length (dense_row in_width in_mlp p) = in_width)
        by (unfold dense_row; now rewrite length_fmap, length_seq).
      destruct (decide (k < in_width)) as [Hd|Hd].
      + rewrite assemble_upd_dense by assumption.
        rewrite rd_app_l by lia. unfold rd at 2, dense_row.
        now rewrite lookup_fmap_seq.
      + rewrite rd_app_r, Hdl by lia.
        destruct (decide (k - in_width < tri N)) as [Ht|Ht].
        * destruct (tri_decompose N (k - in_width) Ht)
            as (n & m & Hm & Hn & Hkn).
          replace k with (in_width + tri n + m) by lia.
          rewrite assemble_upd_term by assumption.
          rewrite rd_app_l by (rewrite upper_terms_length; lia).
          replace (in_width + tri n + m - in_width) with (tri n + m) by lia.
          unfold rd at 2. now rewrite upper_terms_lookup.
        * rewrite rd_app_r, upper_terms_length
            by (rewrite upper_terms_length; lia).
          replace (k - in_width - tri N) with 0 by lia.
          rewrite assemble_upd_outside by (intros c Hc; lia).
          apply rd_replicate. apply idx2_lt; lia. }
  split; [rewrite half_n_pred; exact HL|].
  split; [now apply (row_length L height)|].
  split; [exact Hrow|].
  rewrite Hrow, app_assoc. apply last_snoc.
Qed.

(** C4.  Backward disassembly of an output gradient [grad] into the dense
    gradient and the Gram gradient: the first [in_width] values of every
    row become the dense gradient row; the strict upper triangle of the
    Gram gradient, enumerated in the forward order, is the next
    [n_ins * (n_ins - 1) / 2] values of the row; every entry on or below
    the diagonal is zero; and two gradients that differ only in the
    trailing element of rows give the same backward pass. *)
Theorem disassemble_layout (st : host) (grad : list T) :
  length (r_in_mlp st) = height * in_width ->
  length (r_mat st) = height * N * N ->
  length grad = height * L ->
  let d := host_disassemble height n_emb in_width grad (r_in_mlp st, r_mat st) in
  (forall p, p < height ->
     dense_row in_width d.1 p = take in_width (row L grad p))
  /\ (forall p, p < height ->
        upper_terms n_emb d.2 p
        = take (N * (N - 1) / 2) (drop in_width (row L grad p)))
  /\ (forall p m n, p < height -> m < N -> n <= m ->
        rd d.2 (p * N * N + m * N + n) = t0)
  /\ (forall grad' : list T,
        (forall p c, p < height -> c < L - 1 ->
           rd grad' (p * L + c) = rd grad (p * L + c)) ->
        let out := bprop (with_ref st grad) in
        let out' := bprop (with_ref st grad') in
        r_in_mlp out' = r_in_mlp out /\ r_in_emb out' = r_in_emb out /\
        r_concat out' = r_concat out /\ r_mat out' = r_mat out).
Proof.
  intros Hmlp Hmat Hgrad d.
  pose proof (out_len_tri n_emb in_width) as HL.
  split; [|split; [|split]].
  - intros p Hp. apply list_eq_rd.
    + unfold dense_row. rewrite length_fmap, length_seq, length_take.
      rewrite (row_length L height) by assumption. lia.
    + unfold dense_row at 1. rewrite length_fmap, length_seq. intros k Hk.
      unfold rd at 1, dense_row. rewrite lookup_fmap_seq by assumption.
      cbn [default]. unfold d. rewrite disassemble_mlp_cell by assumption.
      unfold rd at 2. rewrite lookup_take_lt by assumption.
      fold (rd (row L grad p) k). rewrite rd_row by lia. reflexivity.
  - intros p Hp. rewrite half_n_pred. apply list_eq_rd.
    + rewrite upper_terms_length, length_take, length_drop.
      rewrite (row_length L height) by assumption. lia.
    + rewrite upper_terms_length. intros k Hk.
      destruct (tri_decompose N k Hk) as (n & m & Hm & Hn & ->).
      unfold rd at 1. rewrite upper_terms_lookup by assumption. cbn [default].
      replace (p * N * N + m * N + n) with (N * N * p + m * N + n) by lia.
      unfold d. rewrite disassemble_mat_cell by (try assumption; lia).
      destruct (Nat.ltb_spec m n); [|lia].
      unfold rd at 2. rewrite lookup_take_lt, lookup_drop by assumption.
      fold (rd (row L grad p) (in_width + (tri n + m))).
      rewrite rd_row by (pose proof (tri_succ_le n N Hn); lia).
      unfold id. f_equal. lia.
  - intros p m n Hp Hm Hn.
    replace (p * N * N + m * N + n) with (N * N * p + m * N + n) by lia.
    unfold d. rewrite disassemble_mat_cell by (try assumption; lia).
    destruct (Nat.ltb_spec m n); [lia|reflexivity].
  - intros grad' Hg out out'.
    destruct (host_bprop_fields height n_emb in_width (with_ref st grad))
      as (H1 & H2 & H3 & H4 & _).
    destruct (host_bprop_fields height n_emb in_width (with_ref st grad'))
      as (H1' & H2' & H3' & H4' & _).
    fold out in H1, H2, H3, H4. fold out' in H1', H2', H3', H4'.
    cbn [with_ref r_in_mlp r_in_emb r_concat r_mat r_ref] in *.
    rewrite (host_disassemble_pad height n_emb in_width grad' grad) in *
      by exact Hg.
    rewrite H1, H2, H3, H4, H1', H2', H3', H4'. auto.
Qed.


(** C10.  The entries of the Gram matrix on and below the diagonal never
    reach the output: a forward pass whose matmul computes only the
    entries with [n > m], the other entries being whatever [junk] holds,
    assembles the same output array as the full forward pass. *)
Theorem upper_triangle_suffices (in_mlp in_emb junk : list T) :
  length junk = height * N * N ->
  let st := fprop in_mlp in_emb in
  host_assemble height n_emb in_width in_mlp
    (host_matmul_upper height n_emb in_width (r_concat st) junk)
    (replicate (height * L) t0)
  = r_ref st.
Proof.
  intros Hjunk st.
  destruct (host_fprop_fields height n_emb in_width in_mlp in_emb)
    as (_ & _ & _ & Hm & Href).
  fold st in Hm, Href. rewrite Href. apply host_assemble_upper.
  intros p m n Hp Hmn Hn.
  rewrite host_matmul_upper_cell by assumption.
  rewrite Hm, host_matmul_cell;
    [reflexivity|apply length_replicate|assumption|lia|assumption].
Qed.
End HostProperties.

(** The loop [accum = 0.0f; for k: accum += term k] computes the sum of
    the terms from [0.0f] in index order. *)
Lemma fold_left_fmap_fadd (term : nat -> float) (l : list nat) (a : float) :
  fold_left (fun t i => fadd t (term i)) l a = fold_left fadd (term <$> l) a.
Proof.
  revert a. induction l as [|i l IH]; intros a; [reflexivity|].
  cbn [fold_left fmap list_fmap]. apply IH.
Qed.

Lemma accumulate_sum_over (n : nat) (term : nat -> float) :
  accumulate n term = sum_over n term.
Proof.
  unfold accumulate, sum_over, float_sum.
  rewrite for_fold_left. apply fold_left_fmap_fadd.
Qed.

(** C3.  Forward Gram computation: after the forward pass, for every
    sample [b] and all rows [i], [j], the Gram entry [b, i, j] is the sum
    over [k < in_width], in a [float] from [0.0f] in index order, of the
    products [matrix[b,i,k] * matrix[b,j,k]] of the entries of rows [i]
    and [j] of the concatenated matrix.  At [T = float] the entry is that
    sum; at [T = __half] the factors are converted to [float], multiplied
    and summed there, and the sum is stored as a [__half].  Row 0 of the
    concatenated matrix is the dense vector and rows [1 .. n_emb] are the
    embedding vectors in source order. *)
Theorem gram_forward (height n_emb in_width b i j : nat) :
  b < height -> i < n_ins n_emb -> j < n_ins n_emb ->
  (forall in_mlp in_emb : list float,
     let st := host_fprop height n_emb in_width in_mlp in_emb in
     rd (r_mat st) (n_ins n_emb * n_ins n_emb * b + i * n_ins n_emb + j)
     = gram_sum_float n_emb in_width (r_concat st) b i j
     /\ concat_is_inputs height n_emb in_width in_mlp in_emb b)
  /\ (forall in_mlp in_emb : list half,
        let st := host_fprop height n_emb in_width in_mlp in_emb in
        rd (r_mat st) (n_ins n_emb * n_ins n_emb * b + i * n_ins n_emb + j)
        = __float2half (gram_sum_half n_emb in_width (r_concat st) b i j)
        /\ concat_is_inputs height n_emb in_width in_mlp in_emb b).
Proof.
  intros Hb Hi Hj. split; intros in_mlp in_emb st.
  - split; [|now apply concat_is_inputs_holds].
    unfold st. rewrite fprop_mat_cell by assumption.
    cbn [convert Elem_float]. unfold dot_rows, gram_sum_float.
    apply accumulate_sum_over.
  - split; [|now apply concat_is_inputs_holds].
    unfold st. rewrite fprop_mat_cell by assumption.
    cbn [convert Elem_half]. unfold dot_rows, gram_sum_half.
    f_equal. apply accumulate_sum_over.
Qed.

(** C1.  Backward recombination: after the backward pass, for every
    sample [b], row [m] and column [j], the gradient of the concatenated
    matrix at [b, m, j] is the sum over [k < n_ins], in a [float] from
    [0.0f] in index order, of
    [(GramGrad[b,m,k] + GramGrad[b,k,m]) * matrix[b,k,j]], where [matrix]
    is the concatenated matrix the forward pass left and [GramGrad] the
    Gram gradient the disassembly produced.  At [T = float] the entry is
    that sum; at [T = __half] the three values are converted to [float],
    added, multiplied and summed there, and the sum is stored as a
    [__half]. *)
Theorem recombine_symmetric_sum (height n_emb in_width b m j : nat) :
  b < height -> m < n_ins n_emb -> j < in_width ->
  (forall in_mlp in_emb grad : list float,
     let fwd := host_fprop height n_emb in_width in_mlp in_emb in
     let bwd := host_bprop height n_emb in_width (with_ref fwd grad) in
     rd (r_concat bwd) (n_ins n_emb * in_width * b + m * in_width + j)
     = grad_sum_float n_emb in_width (r_mat bwd) (r_concat fwd) b m j)
  /\ (forall in_mlp in_emb grad : list half,
        let fwd := host_fprop height n_emb in_width in_mlp in_emb in
        let bwd := host_bprop height n_emb in_width (with_ref fwd grad) in
        rd (r_concat bwd) (n_ins n_emb * in_width * b + m * in_width + j)
        = __float2half
            (grad_sum_half n_emb in_width (r_mat bwd) (r_concat fwd) b m j)).
Proof.
  intros Hb Hm Hj. split; intros in_mlp in_emb grad fwd bwd.
  - unfold bwd, fwd. rewrite recombine_cell by assumption.
    cbn [convert Elem_float]. unfold sym_sum, grad_sum_float.
    apply accumulate_sum_over.
  - unfold bwd, fwd. rewrite recombine_cell by assumption.
    cbn [convert Elem_half]. unfold sym_sum, grad_sum_half.
    f_equal. apply accumulate_sum_over.
Qed.

(* ================================================================== *)
(** ** Zeros and [==] on [float] *)

Section EqualityFacts.
Variables prec emax : Z.
Local Open Scope Z_scope.

Lemma SFcompare_refl (v : spec_float) :
  v <> S754_nan -> SFcompare v v = Some Eq.
Proof.
  destruct v as [s|s| |s m e]; intros Hn; cbn [SFcompare];
    [reflexivity|now destruct s|congruence|].
  rewrite Z.compare_refl, Pos.compare_cont_refl. now destruct s.
Qed.

(** [x == y] for values that are the same up to the sign of a zero and
    are not NaN. *)
Lemma eqz_feq (x y : Binary.t prec emax) :
  Binary.eqz prec emax x y -> Binary.is_nan prec emax y = false ->
  Binary.feq prec emax x y.
Proof.
  unfold Binary.eqz, Binary.feq, Binary.is_nan, Binary.is_zero, SFeqb.
  intros [->|[Hx Hy]] Hn.
  - rewrite SFcompare_refl; [reflexivity|].
    intros E. now rewrite E in Hn.
  - destruct (Binary.val _ _ x), (Binary.val _ _ y); try discriminate.
    reflexivity.
Qed.

(** [==] is false on a NaN. *)
Lemma feq_not_nan (x y : Binary.t prec emax) :
  Binary.feq prec emax x y ->
  Binary.is_nan prec emax x = false /\ Binary.is_nan prec emax y = false.
Proof.
  unfold Binary.feq, Binary.is_nan, SFeqb.
  destruct (Binary.val _ _ x), (Binary.val _ _ y); cbn [SFcompare];
    try discriminate; auto.
Qed.





End EqualityFacts.






Lemma is_zero_val (x : float) :
  is_zero x = true -> exists s, Binary.val 24 128 x = S754_zero s.
Proof.
  unfold is_zero, Binary.is_zero. destruct (Binary.val 24 128 x) as [s| | |]; try discriminate. eauto.
Qed.

Lemma fadd_val (x y : float) (v : spec_float) :
  SFadd 24 128 (Binary.val 24 128 x) (Binary.val 24 128 y) = v -> valid_binary 24 128 v = true ->
  Binary.val 24 128 (fadd x y) = v.
Proof. intros <- Hv. unfold fadd, Binary.add. now apply val_norm. Qed.

Lemma fmul_val (x y : float) (v : spec_float) :
  SFmul 24 128 (Binary.val 24 128 x) (Binary.val 24 128 y) = v -> valid_binary 24 128 v = true ->
  Binary.val 24 128 (fmul x y) = v.
Proof. intros <- Hv. unfold fmul, Binary.mul. now apply val_norm. Qed.


Lemma fadd_zero_r (x z : float) : is_zero z = true -> eqz (fadd x z) x.
Proof.
  intros Hz. apply is_zero_val in Hz as [sz Hz].
  destruct x as [[s|s| |s m e] ok].
  - right. split; [|reflexivity]. unfold is_zero, Binary.is_zero.
    rewrite (fadd_val _ _ (S754_zero (andb s sz))); [reflexivity| |reflexivity].
    cbn [Binary.val]. rewrite Hz. now destruct s, sz.
  - left. apply t_eq. apply fadd_val; [cbn [Binary.val]; now rewrite Hz|assumption].
  - left. apply t_eq. apply fadd_val; [cbn [Binary.val]; now rewrite Hz|assumption].
  - left. apply t_eq. apply fadd_val; [cbn [Binary.val]; now rewrite Hz|assumption].
Qed.

Lemma fadd_0_zero (z : float) : is_zero z = true -> fadd f0 z = f0.
Proof.
  intros Hz. apply is_zero_val in Hz as [sz Hz]. apply t_eq.
  apply fadd_val; [|reflexivity]. rewrite Hz. now destruct sz.
Qed.

Lemma fmul_zero_finite (z d : float) :
  is_zero z = true -> is_finite d = true -> is_zero (fmul z d) = true.
Proof.
  intros Hz Hd. apply is_zero_val in Hz as [sz Hz].
  unfold is_finite, Binary.is_finite in Hd. unfold is_zero, Binary.is_zero.
  destruct (Binary.val 24 128 d) as [s|s| |s m e] eqn:Ed; try discriminate.
  - rewrite (fmul_val _ _ (S754_zero (xorb sz s))); [reflexivity| |reflexivity].
    now rewrite Hz, Ed.
  - rewrite (fmul_val _ _ (S754_zero (xorb sz s))); [reflexivity| |reflexivity].
    now rewrite Hz, Ed.
Qed.



(* ================================================================== *)
(** ** One embedding row *)

Section ScalarCase.
Context {T : Type} `{Elem T}.
Variables height in_width : nat.

Local Abbreviation W2 := (out_width 1 in_width).
Local Abbreviation L2 := (out_len 1 in_width).




End ScalarCase.

(* ================================================================== *)
(** ** [size_t] *)

Lemma wrap_small (z : Z) : (0 <= z < size_max)%Z -> wrap z = z.
Proof. intros Hz. unfold wrap. now apply Z.mod_small. Qed.

(** While [n_ins * (n_ins + 1)] and the result fit in a [size_t], the
    [size_t] computation of [out_len] is the one on naturals. *)
Lemma out_len_sz_no_wrap (n_emb in_width : nat) :
  (Z.of_nat (n_ins n_emb * (n_ins n_emb + 1)) < size_max)%Z ->
  (Z.of_nat (out_len n_emb in_width) < size_max)%Z ->
  out_len_sz (Z.of_nat (n_ins n_emb)) (Z.of_nat in_width)
  = Z.of_nat (out_len n_emb in_width).
Proof.
  intros Hmul Hout. unfold out_len_sz.
  pose proof (out_len_tri n_emb in_width) as HL.
  pose proof (tri_double (n_ins n_emb)) as Hd.
  set (n := n_ins n_emb) in *.
  assert (Hn : 1 <= n) by (unfold n, n_ins; lia).
  assert (Hsm : (0 < size_max)%Z) by reflexivity.
  rewrite (wrap_small (Z.of_nat n + 1)) by nia.
  rewrite (wrap_small (Z.of_nat n * (Z.of_nat n + 1))) by nia.
  replace (Z.of_nat n * (Z.of_nat n + 1))%Z
    with ((Z.of_nat (tri n) + Z.of_nat n) * 2)%Z by nia.
  rewrite Z.div_mul by lia.
  rewrite (wrap_small (Z.of_nat (tri n) + Z.of_nat n)) by nia.
  rewrite (wrap_small (Z.of_nat (tri n) + Z.of_nat n - Z.of_nat n)) by nia.
  rewrite (wrap_small (Z.of_nat in_width + _)) by lia.
  rewrite wrap_small by lia. lia.
Qed.

(* ================================================================== *)
(** ** The scalar law and the scenario *)




(** *** [__half] *)








(** C5.  The concrete scenario [height = 2], [in_width = 2], [n_emb = 1],
    [dense = [[1,2],[3,4]]], [emb = [[[5,6]],[[7,8]]]]: the forward pass
    gives sample 0 the Gram matrix [[5,17],[17,61]] and the output row
    [1,2,17,0]; the backward pass with [outputGrad[0] = [0,0,1,0]] gives
    [GramGrad[0] = [[0,1],[0,0]]], the dense gradient [5,6] for sample 0
    and the embedding gradient [1,2] for sample 0. *)
Theorem scenario :
  row 4 (r_mat scenario_fwd) 0 = fZ <$> [5; 17; 17; 61]%Z
  /\ row 4 (r_ref scenario_fwd) 0 = fZ <$> [1; 2; 17; 0]%Z
  /\ forall g4 g5 g6 g7 : float,
       let bwd := scenario_bwd g4 g5 g6 g7 in
       row 4 (r_mat bwd) 0 = fZ <$> [0; 1; 0; 0]%Z
       /\ row 2 (r_in_mlp bwd) 0 = fZ <$> [5; 6]%Z
       /\ row 2 (r_in_emb bwd) 0 = fZ <$> [1; 2]%Z.
Proof.
  split; [vm_compute; reflexivity|].
  split; [vm_compute; reflexivity|].
  intros g4 g5 g6 g7 bwd.
  split; [vm_compute; reflexivity|].
  split; vm_compute; reflexivity.
Qed.


(** C8, as amended.  Gram symmetry: at either element type the forward
    pass fills every entry of the Gram matrix, both triangles and the
    diagonal, entry [i, j] with the dot product of rows [i] and [j] and
    entry [j, i] with the dot product of rows [j] and [i]; and whenever
    entry [i, j] is not a NaN, entry [j, i] is the same value, sign of a
    zero included, and the two compare equal ([==]). *)
Theorem gram_symmetric (height n_emb in_width b i j : nat) :
  b < height -> i < n_ins n_emb -> j < n_ins n_emb ->
  (forall in_mlp in_emb : list float,
     let st := host_fprop height n_emb in_width in_mlp in_emb in
     let gij :=
       rd (r_mat st) (n_ins n_emb * n_ins n_emb * b + i * n_ins n_emb + j) in
     let gji :=
       rd (r_mat st) (n_ins n_emb * n_ins n_emb * b + j * n_ins n_emb + i) in
     gij = gram_sum_float n_emb in_width (r_concat st) b i j
     /\ gji = gram_sum_float n_emb in_width (r_concat st) b j i
     /\ (is_nan gij = false ->
         gij = gji
         /\ gram_symmetric_at feq height n_emb in_width in_mlp in_emb b i j))
  /\ (forall in_mlp in_emb : list half,
        let st := host_fprop height n_emb in_width in_mlp in_emb in
        let gij :=
          rd (r_mat st) (n_ins n_emb * n_ins n_emb * b + i * n_ins n_emb + j) in
        let gji :=
          rd (r_mat st) (n_ins n_emb * n_ins n_emb * b + j * n_ins n_emb + i) in
        gij = __float2half (gram_sum_half n_emb in_width (r_concat st) b i j)
        /\ gji = __float2half (gram_sum_half n_emb in_width (r_concat st) b j i)
        /\ (is_nan_half gij = false ->
            gij = gji
            /\ gram_symmetric_at heq height n_emb in_width in_mlp in_emb b i j)).
Proof.
  intros Hb Hi Hj. split; intros in_mlp in_emb st gij gji.
  - assert (Hs : gij = gji)
      by (apply host_gram_comm; try assumption; exact get_accum_float_comm).
    split; [|split].
    + unfold gij, st. rewrite fprop_mat_cell by assumption.
      cbn [convert Elem_float]. unfold dot_rows, gram_sum_float.
      apply accumulate_sum_over.
    + unfold gji, st. rewrite fprop_mat_cell by assumption.
      cbn [convert Elem_float]. unfold dot_rows, gram_sum_float.
      apply accumulate_sum_over.
    + intros Hn. split; [exact Hs|]. unfold gram_symmetric_at.
      fold st gij gji. apply eqz_feq; [now left|]. now rewrite <- Hs.
  - assert (Hs : gij = gji)
      by (apply host_gram_comm; try assumption; exact get_accum_half_comm).
    split; [|split].
    + unfold gij, st. rewrite fprop_mat_cell by assumption.
      cbn [convert Elem_half]. unfold dot_rows, gram_sum_half.
      f_equal. apply accumulate_sum_over.
    + unfold gji, st. rewrite fprop_mat_cell by assumption.
      cbn [convert Elem_half]. unfold dot_rows, gram_sum_half.
      f_equal. apply accumulate_sum_over.
    + intros Hn. split; [exact Hs|]. unfold gram_symmetric_at.
      fold st gij gji. apply eqz_feq; [now left|]. now rewrite <- Hs.
Qed.

(** C8, as stated, fails on a NaN entry: with [dense = [+inf]] and
    [emb = [0]] the entries [0, 1] and [1, 0] are [inf * 0], a NaN, and a
    NaN is not equal ([==]) to a NaN. *)
Lemma gram_symmetric_fails_at_nan :
  0 < 1 /\ 0 < n_ins 1 /\ 1 < n_ins 1
  /\ ~ gram_symmetric_at feq 1 1 1 [Binary.infinity 24 128 false] [f0] 0 0 1.
Proof.
  split; [lia|]. split; [unfold n_ins; lia|]. split; [unfold n_ins; lia|].
  intros Hc. vm_compute in Hc. discriminate Hc.
Qed.

(** At [T = __half] the products are formed and added as [float]s: the
    dot product of [[300, 300, -300]] and [[200, 200, 300]] is stored as
    30000 although its partial sum 120000 is beyond the largest [__half],
    65504: that sum formed in [__half] is the infinity. *)
Example half_accumulates_in_float :
  let st := host_fprop 1 1 3 (hZ <$> [300; 300; -300]%Z)
              (hZ <$> [200; 200; 300]%Z) in
  rd (r_mat st) 1 = hZ 30000
  /\ half_add (hZ 60000) (hZ 60000) = Binary.infinity 11 16 false.
Proof. split; vm_compute; reflexivity. Qed.

(* ================================================================== *)
(** ** The operator *)

Section OperatorFacts.
Import Operator.
Context {T : Type} `{Elem T}.

(** C9.  Shape mismatch: a forward call whose dense or embedding input
    disagrees with the configured shape, in particular whenever the two
    inputs disagree in [height] or [in_width], fails with [ShapeMismatch]
    and returns no output and no retained state; a backward call whose
    gradient disagrees with the configured shape fails with
    [ShapeMismatch] and returns no gradient. *)
Theorem shape_mismatch_fails (cfg : shape) (dense emb grad : tensor T)
    (cache : option host) :
  (dims dense <> [height cfg; in_width cfg]
   \/ dims emb <> [height cfg; n_emb cfg; in_width cfg] ->
   forward cfg dense emb = Failed ShapeMismatch)
  /\ (forall h w h' e w',
        dims dense = [h; w] -> dims emb = [h'; e; w'] ->
        h <> h' \/ w <> w' ->
        forward cfg dense emb = Failed ShapeMismatch)
  /\ (dims grad <> [height cfg; out_len (n_emb cfg) (in_width cfg)] ->
      backward cfg cache grad = Failed ShapeMismatch).
Proof.
  assert (Hfwd : dims dense <> [height cfg; in_width cfg]
            \/ dims emb <> [height cfg; n_emb cfg; in_width cfg] ->
            forward cfg dense emb = Failed ShapeMismatch).
  { intros Hne. unfold forward, dense_ok, emb_ok.
    destruct Hne as [Hne|Hne].
    - now rewrite (bool_decide_eq_false_2 _ Hne).
    - rewrite (bool_decide_eq_false_2 _ Hne). now rewrite andb_false_r. }
  split; [exact Hfwd|]. split.
  - intros h w h' e w' Hd He Hne. apply Hfwd. rewrite Hd, He.
    destruct (decide (h = height cfg /\ w = in_width cfg)) as [[-> ->]|Hc].
    + right. intros Heq. injection Heq as -> _ ->. tauto.
    + left. intros Heq. injection Heq as -> ->. tauto.
  - intros Hne. unfold backward, grad_ok.
    now rewrite (bool_decide_eq_false_2 _ Hne).
Qed.
End OperatorFacts.

Lemma shape_mismatch_fails_witness :
  Operator.forward (Operator.Shape 2 1 2)
    (Operator.Tensor [2; 2] scenario_dense)
    (Operator.Tensor [2; 1; 3] scenario_emb)
  = Operator.Failed Operator.ShapeMismatch.
Proof.
  refine (proj1 (proj2 (shape_mismatch_fails (Operator.Shape 2 1 2)
            (Operator.Tensor [2; 2] scenario_dense)
            (Operator.Tensor [2; 1; 3] scenario_emb)
            (Operator.Tensor [] []) None)) 2 2 2 1 3 eq_refl eq_refl _).
  right. lia.
Defined.

(* ================================================================== *)
(** ** The properties at the scenario *)

Lemma gram_forward_witness :
  let st := host_fprop 2 1 2 scenario_dense scenario_emb in
  rd (r_mat st) (n_ins 1 * n_ins 1 * 1 + 0 * n_ins 1 + 1)
  = gram_sum_float 1 2 (r_concat st) 1 0 1
  /\ concat_is_inputs 2 1 2 scenario_dense scenario_emb 1.
Proof.
  assert (H1 : 1 < 2) by lia.
  assert (H2 : 0 < n_ins 1) by (unfold n_ins; lia).
  assert (H3 : 1 < n_ins 1) by (unfold n_ins; lia).
  exact (proj1 (gram_forward 2 1 2 1 0 1 H1 H2 H3) scenario_dense scenario_emb).
Defined.

Lemma gram_symmetric_witness :
  let st := host_fprop 2 1 2 scenario_dense scenario_emb in
  rd (r_mat st) (n_ins 1 * n_ins 1 * 1 + 0 * n_ins 1 + 1)
  = rd (r_mat st) (n_ins 1 * n_ins 1 * 1 + 1 * n_ins 1 + 0)
  /\ gram_symmetric_at feq 2 1 2 scenario_dense scenario_emb 1 0 1.
Proof.
  assert (H1 : 1 < 2) by lia.
  assert (H2 : 0 < n_ins 1) by (unfold n_ins; lia).
  assert (H3 : 1 < n_ins 1) by (unfold n_ins; lia).
  destruct (proj1 (gram_symmetric 2 1 2 1 0 1 H1 H2 H3)
              scenario_dense scenario_emb) as (_ & _ & Hs).
  apply Hs. vm_compute. reflexivity.
Defined.

Lemma recombine_symmetric_sum_witness :
  let fwd := host_fprop 2 1 2 scenario_dense scenario_emb in
  let bwd := host_bprop 2 1 2 (with_ref fwd (fZ <$> [0; 0; 1; 0; 0; 0; 1; 0]%Z)) in
  rd (r_concat bwd) (n_ins 1 * 2 * 1 + 1 * 2 + 0)
  = grad_sum_float 1 2 (r_mat bwd) (r_concat fwd) 1 1 0.
Proof.
  assert (H1 : 1 < 2) by lia.
  assert (H2 : 1 < n_ins 1) by (unfold n_ins; lia).
  assert (H3 : 0 < 2) by lia.
  exact (proj1 (recombine_symmetric_sum 2 1 2 1 1 0 H1 H2 H3)
           scenario_dense scenario_emb (fZ <$> [0; 0; 1; 0; 0; 0; 1; 0]%Z)).
Defined.

Lemma output_layout_witness :
  let st := host_fprop 2 1 2 scenario_dense scenario_emb in
  out_len 1 2 = 2 + n_ins 1 * (n_ins 1 - 1) / 2 + 1
  /\ length (row (out_len 1 2) (r_ref st) 1) = out_len 1 2
  /\ row (out_len 1 2) (r_ref st) 1
     = dense_row 2 scenario_dense 1 ++ upper_terms 1 (r_mat st) 1 ++ [t0]
  /\ last (row (out_len 1 2) (r_ref st) 1) = Some t0.
Proof.
  apply (output_layout 2 1 2 scenario_dense scenario_emb 1). lia.
Defined.

Lemma disassemble_layout_witness :
  let grad := fZ <$> [0; 0; 1; 0; 0; 0; 1; 0]%Z in
  let d := host_disassemble 2 1 2 grad
             (r_in_mlp scenario_fwd, r_mat scenario_fwd) in
  (forall p, p < 2 -> dense_row 2 d.1 p = take 2 (row (out_len 1 2) grad p))
  /\ (forall p, p < 2 ->
        upper_terms 1 d.2 p
        = take (n_ins 1 * (n_ins 1 - 1) / 2) (drop 2 (row (out_len 1 2) grad p)))
  /\ (forall p m n, p < 2 -> m < n_ins 1 -> n <= m ->
        rd d.2 (p * n_ins 1 * n_ins 1 + m * n_ins 1 + n) = t0)
  /\ (forall grad' : list float,
        (forall p c, p < 2 -> c < out_len 1 2 - 1 ->
           rd grad' (p * out_len 1 2 + c) = rd grad (p * out_len 1 2 + c)) ->
        let out := host_bprop 2 1 2 (with_ref scenario_fwd grad) in
        let out' := host_bprop 2 1 2 (with_ref scenario_fwd grad') in
        r_in_mlp out' = r_in_mlp out /\ r_in_emb out' = r_in_emb out /\
        r_concat out' = r_concat out /\ r_mat out' = r_mat out).
Proof.
  apply (disassemble_layout 2 1 2 scenario_fwd
           (fZ <$> [0; 0; 1; 0; 0; 0; 1; 0]%Z)); reflexivity.
Defined.


Lemma upper_triangle_suffices_witness :
  let st := host_fprop 2 1 2 scenario_dense scenario_emb in
  host_assemble 2 1 2 scenario_dense
    (host_matmul_upper 2 1 2 (r_concat st)
       (fZ <$> [41; 42; 43; 44; 45; 46; 47; 48]%Z))
    (replicate (2 * out_len 1 2) t0)
  = r_ref st.
Proof.
  apply (upper_triangle_suffices 2 1 2 scenario_dense scenario_emb
           (fZ <$> [41; 42; 43; 44; 45; 46; 47; 48]%Z)).
  reflexivity.
Defined.

(* ================================================================== *)
(** ** Further properties of the host passes *)

Lemma idx2_decompose (h n k : nat) :
  k < h * n -> exists p i, p < h /\ i < n /\ k = p * n + i.
Proof.
  intros Hk. assert (0 < n) by nia.
  exists (k / n), (k mod n).
  pose proof (Nat.mod_upper_bound k n ltac:(lia)).
  pose proof (Nat.div_mod_eq k n).
  split; [apply Nat.Div0.div_lt_upper_bound; lia|]. split; [assumption|lia].
Qed.

Section HostCoverage.
Context {T : Type} `{Elem T}.
Variables height n_emb in_width : nat.

Local Abbreviation N := (n_ins n_emb).
Local Abbreviation W := (out_width n_emb in_width).
Local Abbreviation L := (out_len n_emb in_width).

Lemma host_eta (st : host (T := T)) :
  st = Host (r_in_mlp st) (r_in_emb st) (r_concat st) (r_mat st) (r_ref st).
Proof. now destruct st. Qed.

Lemma dense_lt_out_len (i : nat) : i < in_width -> i < L - 1.
Proof. rewrite out_len_tri. lia. Qed.

(** Cells of [h_ref] the assembly writes. *)
Lemma host_assemble_dense (mlp mat ref : list T) (p i : nat) :
  length ref = height * L -> p < height -> i < in_width ->
  rd (host_assemble height n_emb in_width mlp mat ref) (p * L + i)
  = rd mlp (p * in_width + i).
Proof.
  intros Hlen Hp Hi. pose proof (dense_lt_out_len i Hi).
  rewrite host_assemble_row by (try assumption; lia).
  now apply assemble_upd_dense.
Qed.

Lemma host_assemble_term (mlp mat ref : list T) (p m n : nat) :
  length ref = height * L -> p < height -> m < n -> n < N ->
  rd (host_assemble height n_emb in_width mlp mat ref)
     (p * L + (in_width + tri n + m))
  = rd mat (N * N * p + m * N + n).
Proof.
  intros Hlen Hp Hm Hn. pose proof (term_offset_lt n_emb in_width n m Hm Hn).
  rewrite host_assemble_row by (try assumption; lia).
  rewrite assemble_upd_term by assumption. f_equal. lia.
Qed.

(** X1.  Disassembling what the assembly wrote: for vectors of the sizes
    the test allocates, the disassembly of the assembled [h_ref] returns
    the dense vector [h_in_mlp] itself, and a Gram vector that holds the
    assembled matrix strictly above the diagonal and zero on and below
    it, whatever the two target vectors held before. *)
Theorem disassemble_assemble (mlp mat ref : list T) (x : list T * list T) :
  length mlp = height * in_width ->
  length ref = height * L ->
  length x.1 = height * in_width ->
  length x.2 = height * N * N ->
  let d := host_disassemble height n_emb in_width
             (host_assemble height n_emb in_width mlp mat ref) x in
  d.1 = mlp
  /\ forall p m n, p < height -> m < N -> n < N ->
       rd d.2 (N * N * p + m * N + n)
       = if m <? n then rd mat (N * N * p + m * N + n) else t0.
Proof.
  intros Hmlp Href Hx1 Hx2 d. split.
  - apply list_eq_rd.
    + unfold d. rewrite (proj1 (host_disassemble_lengths _ _ _ _ _)). lia.
    + unfold d at 1. rewrite (proj1 (host_disassemble_lengths _ _ _ _ _)), Hx1.
      intros k Hk. destruct (idx2_decompose _ _ _ Hk) as (p & i & Hp & Hi & ->).
      unfold d. rewrite disassemble_mlp_cell by assumption.
      now apply host_assemble_dense.
  - intros p m n Hp Hm Hn. unfold d.
    rewrite disassemble_mat_cell by assumption.
    destruct (Nat.ltb_spec m n) as [Hmn|]; [|reflexivity].
    now apply host_assemble_term.
Qed.

(** X2.  Assembling what the disassembly wrote: the assembly of the
    disassembled dense and Gram vectors of a gradient [grad] writes, in
    every row, the first [out_len - 1] cells of [grad] back; the last
    cell of the row keeps what [h_ref] held. *)
Theorem assemble_disassemble (grad ref : list T) (x : list T * list T)
    (p : nat) :
  length grad = height * L ->
  length ref = height * L ->
  length x.1 = height * in_width ->
  length x.2 = height * N * N ->
  p < height ->
  let d := host_disassemble height n_emb in_width grad x in
  let out := host_assemble height n_emb in_width d.1 d.2 ref in
  (forall c, c < L - 1 -> rd out (p * L + c) = rd grad (p * L + c))
  /\ rd out (p * L + (L - 1)) = rd ref (p * L + (L - 1)).
Proof.
  intros _ Href Hx1 Hx2 Hp d out. split.
  - intros c Hc. unfold out.
    destruct (decide (c < in_width)) as [Hd|Hd].
    + rewrite host_assemble_dense by assumption.
      unfold d. now rewrite disassemble_mlp_cell.
    + pose proof (out_len_tri n_emb in_width) as HL.
      destruct (tri_decompose N (c - in_width) ltac:(lia))
        as (n & m & Hm & Hn & Hcn).
      replace c with (in_width + tri n + m) by lia.
      rewrite host_assemble_term by assumption.
      unfold d. rewrite disassemble_mat_cell by (try assumption; lia).
      destruct (Nat.ltb_spec m n); [reflexivity|lia].
  - now apply host_assemble_pad.
Qed.

(** X3.  The assembly writes every cell of a row of [h_ref] but the
    last: on any [h_ref] of the allocated size, row [p] becomes the dense
    row, then the strict upper triangle of the Gram matrix, then the
    value the last cell held before. *)
Theorem assemble_keeps_pad (mlp mat ref : list T) (p : nat) :
  length ref = height * L -> p < height ->
  row L (host_assemble height n_emb in_width mlp mat ref) p
  = dense_row in_width mlp p ++ upper_terms n_emb mat p
      ++ [rd ref (p * L + (L - 1))].
Proof.
  intros Hlen Hp.
  pose proof (out_len_tri n_emb in_width) as HL.
  assert (Hlen' : length (host_assemble height n_emb in_width mlp mat ref)
                  = height * L) by now rewrite host_assemble_length.
  assert (Hdl : length (dense_row in_width mlp p) = in_width)
    by (unfold dense_row; now rewrite length_fmap, length_seq).
  apply list_eq_rd.
  - rewrite (row_length L height) by assumption.
    rewrite !length_app, upper_terms_length, Hdl. cbn [length]. lia.
  - rewrite (row_length L height) by assumption. intros k Hk.
    rewrite rd_row by assumption.
    destruct (decide (k < in_width)) as [Hd|Hd].
    + rewrite host_assemble_dense by assumption.
      rewrite rd_app_l by lia. unfold rd at 2, dense_row.
      now rewrite lookup_fmap_seq.
    + rewrite rd_app_r, Hdl by lia.
      destruct (decide (k - in_width < tri N)) as [Ht|Ht].
      * destruct (tri_decompose N (k - in_width) Ht)
          as (n & m & Hm & Hn & Hkn).
        replace k with (in_width + tri n + m) by lia.
        rewrite host_assemble_term by assumption.
        rewrite rd_app_l by (rewrite upper_terms_length; lia).
        replace (in_width + tri n + m - in_width) with (tri n + m) by lia.
        unfold rd at 2. rewrite upper_terms_lookup by assumption.
        cbn. f_equal. lia.
      * rewrite rd_app_r, upper_terms_length
          by (rewrite upper_terms_length; lia).
        replace (k - in_width - tri N) with 0 by lia.
        replace k with (L - 1) by lia.
        now rewrite host_assemble_pad.
Qed.




(** Every cell of both vectors is written by the disassembly. *)
Lemma host_disassemble_overwrites (h_ref : list T) (x y : list T * list T) :
  length x.1 = height * in_width -> length y.1 = height * in_width ->
  length x.2 = height * N * N -> length y.2 = height * N * N ->
  host_disassemble height n_emb in_width h_ref x
  = host_disassemble height n_emb in_width h_ref y.
Proof.
  intros Hx1 Hy1 Hx2 Hy2.
  pose proof (host_disassemble_lengths height n_emb in_width h_ref x) as [Lx1 Lx2].
  pose proof (host_disassemble_lengths height n_emb in_width h_ref y) as [Ly1 Ly2].
  apply injective_projections.
  - apply list_eq_rd; [now rewrite Lx1, Ly1, Hx1, Hy1|].
    rewrite Lx1, Hx1. intros k Hk.
    destruct (idx2_decompose _ _ _ Hk) as (p & i & Hp & Hi & ->).
    now rewrite !disassemble_mlp_cell.
  - apply list_eq_rd; [now rewrite Lx2, Ly2, Hx2, Hy2|].
    rewrite Lx2, Hx2. intros k Hk.
    destruct (idx3_decompose _ _ _ _ Hk) as (p & m & n & Hp & Hm & Hn & ->).
    now rewrite !disassemble_mat_cell.
Qed.

(** Every cell of [h_in_emb] is written by the scatter. *)
Lemma scatter_emb_overwrites (mlp mlp' emb emb' c : list T) :
  length emb = height * n_emb * in_width ->
  length emb' = height * n_emb * in_width ->
  h_in_emb (concat_op height n_emb in_width false (ConcatState mlp' emb' c))
  = h_in_emb (concat_op height n_emb in_width false (ConcatState mlp emb c)).
Proof.
  intros He He'.
  pose proof (scatter_lengths height n_emb in_width (ConcatState mlp emb c))
    as [_ Hl].
  pose proof (scatter_lengths height n_emb in_width (ConcatState mlp' emb' c))
    as [_ Hl'].
  cbn [h_in_emb] in Hl, Hl'.
  apply list_eq_rd; [now rewrite Hl, Hl', He, He'|].
  rewrite Hl', He'. intros k Hk.
  destruct (scatter_emb_all height n_emb in_width
              (ConcatState mlp emb c) k He Hk)
    as (h & e & w & Hh & Hee & Hw & Hkk & Hrd).
  rewrite Hrd, Hkk.
  now rewrite scatter_emb_cell.
Qed.

Lemma scatter_mlp_indep (mlp emb emb' c : list T) :
  h_in_mlp (concat_op height n_emb in_width false (ConcatState mlp emb' c))
  = h_in_mlp (concat_op height n_emb in_width false (ConcatState mlp emb c)).
Proof.
  destruct (concat_bprop_proj height n_emb in_width (ConcatState mlp emb c))
    as (_ & -> & _).
  destruct (concat_bprop_proj height n_emb in_width (ConcatState mlp emb' c))
    as (_ & -> & _).
  reflexivity.
Qed.

(** X6.  Host bprop reads the concatenated matrix and [h_ref] only: two
    states with the same [h_concat] and [h_ref] and vectors of the
    allocated sizes give the same result, whatever [h_in_mlp], [h_in_emb]
    and [h_mat] hold. *)
Theorem bprop_reads (st st' : host) :
  r_concat st' = r_concat st -> r_ref st' = r_ref st ->
  length (r_in_mlp st) = height * in_width ->
  length (r_in_mlp st') = height * in_width ->
  length (r_in_emb st) = height * n_emb * in_width ->
  length (r_in_emb st') = height * n_emb * in_width ->
  length (r_mat st) = height * N * N ->
  length (r_mat st') = height * N * N ->
  host_bprop height n_emb in_width st' = host_bprop height n_emb in_width st.
Proof.
  intros Hc Hr Hm Hm' He He' Hg Hg'.
  pose proof (host_bprop_fields height n_emb in_width st) as F.
  pose proof (host_bprop_fields height n_emb in_width st') as F'.
  cbv zeta in F, F'.
  destruct F as (F1 & F2 & F3 & F4 & F5).
  destruct F' as (F1' & F2' & F3' & F4' & F5').
  rewrite Hc, Hr in *.
  rewrite (host_disassemble_overwrites (r_ref st) (r_in_mlp st', r_mat st')
             (r_in_mlp st, r_mat st)) in * by assumption.
  rewrite (host_eta (host_bprop height n_emb in_width st')).
  rewrite (host_eta (host_bprop height n_emb in_width st)).
  rewrite F1, F2, F3, F4, F5, F1', F2', F3', F4', F5'.
  f_equal.
  - apply scatter_mlp_indep.
  - now apply scatter_emb_overwrites.
Qed.

(** X5.  The gather writes every cell of [h_concat] and the matmul every
    cell of [h_mat]: on vectors of the allocated sizes the results do not
    depend on what the two vectors held before. *)
Theorem fprop_overwrites (mlp emb c c' concat mat mat' : list T) :
  length c = height * W -> length c' = height * W ->
  length mat = height * N * N -> length mat' = height * N * N ->
  h_concat (concat_op height n_emb in_width true (ConcatState mlp emb c'))
  = h_concat (concat_op height n_emb in_width true (ConcatState mlp emb c))
  /\ host_matmul height n_emb in_width concat mat'
     = host_matmul height n_emb in_width concat mat.
Proof.
  intros Hc Hc' Hm Hm'. split.
  - apply list_eq_rd; [now rewrite !concat_fprop_length; cbn; lia|].
    rewrite concat_fprop_length. cbn [h_concat]. rewrite Hc'. intros k Hk.
    unfold out_width in Hk. rewrite Nat.mul_assoc in Hk.
    destruct (idx3_decompose _ _ _ _ Hk) as (p & m & n & Hp & Hm1 & Hn & ->).
    now rewrite !concat_fprop_cell.
  - apply list_eq_rd; [rewrite !host_matmul_length; lia|].
    rewrite host_matmul_length, Hm'. intros k Hk.
    destruct (idx3_decompose _ _ _ _ Hk) as (p & m & n & Hp & Hm1 & Hn & ->).
    now rewrite !host_matmul_cell.
Qed.


(** *** [m + mT] *)

Lemma host_mat_sym_cellwise (mat : list T) :
  cellwise (host_mat_sym height n_emb mat)
    (fun k => iter_upd height (fun p => iter_upd N (fun m => iter_upd N (fun n =>
       upd_at (N * N * p + m * N + n)
              (fun _ => t_add (rd mat (N * N * p + m * N + n))
                              (rd mat (N * N * p + n * N + m))) k)))).
Proof.
  unfold host_mat_sym.
  apply cellwise_for; intros p Hp.
  apply cellwise_for; intros m Hm.
  apply cellwise_for; intros n Hn.
  apply (cellwise_wr _ (fun _ => _)).
Qed.

Lemma host_mat_sym_cell (mat tmp : list T) (p m n : nat) :
  length tmp = height * N * N -> p < height -> m < N -> n < N ->
  rd (host_mat_sym height n_emb mat tmp) (N * N * p + m * N + n)
  = t_add (rd mat (N * N * p + m * N + n)) (rd mat (N * N * p + n * N + m)).
Proof.
  intros Hlen Hp Hm Hn.
  destruct (host_mat_sym_cellwise mat tmp) as [_ Hr].
  rewrite Hr by (rewrite Hlen; now apply idx3_lt).
  rewrite (iter3_one height N N p m n); try assumption.
  - unfold upd_at. now rewrite Nat.eqb_refl.
  - intros p' m' n' y Hp' Hm' Hn' Hne. unfold upd_at.
    destruct (Nat.eqb_spec (N * N * p + m * N + n) (N * N * p' + m' * N + n'))
      as [Heq|]; [|reflexivity].
    apply idx3_inj in Heq; try assumption. lia.
Qed.


End HostCoverage.

Lemma SFadd_comm (prec emax : Z) (x y : spec_float) :
  SFadd prec emax x y = SFadd prec emax y x.
Proof.
  destruct x as [sx|sx| |sx mx ex], y as [sy|sy| |sy my ey]; cbn [SFadd];
    try reflexivity.
  - now destruct sx, sy.
  - now destruct sx, sy.
  - now rewrite Z.min_comm, Z.add_comm.
Qed.

Lemma fadd_comm (x y : float) : fadd x y = fadd y x.
Proof. unfold fadd, Binary.add. now rewrite SFadd_comm. Qed.

Lemma half_add_comm (x y : half) : half_add x y = half_add y x.
Proof. unfold half_add. now rewrite fadd_comm. Qed.

(** X12.  [m + mT]: at either element type, an entry [p, m, n] of
    [h_mat_tmp] that is not a NaN after the loop is the same value as
    entry [p, n, m], and the two compare equal ([==]). *)
Theorem mat_tmp_symmetric (height n_emb p m n : nat) :
  p < height -> m < n_ins n_emb -> n < n_ins n_emb ->
  (forall mat tmp : list float,
     length tmp = height * n_ins n_emb * n_ins n_emb ->
     let r := host_mat_sym height n_emb mat tmp in
     let x := rd r (n_ins n_emb * n_ins n_emb * p + m * n_ins n_emb + n) in
     let y := rd r (n_ins n_emb * n_ins n_emb * p + n * n_ins n_emb + m) in
     is_nan x = false -> x = y /\ feq x y)
  /\ (forall mat tmp : list half,
        length tmp = height * n_ins n_emb * n_ins n_emb ->
        let r := host_mat_sym height n_emb mat tmp in
        let x := rd r (n_ins n_emb * n_ins n_emb * p + m * n_ins n_emb + n) in
        let y := rd r (n_ins n_emb * n_ins n_emb * p + n * n_ins n_emb + m) in
        is_nan_half x = false -> x = y /\ heq x y).
Proof.
  intros Hp Hm Hn. split; intros mat tmp Hlen r x y Hx.
  - assert (Hs : x = y)
      by (unfold x, y, r; rewrite !host_mat_sym_cell by assumption;
          apply fadd_comm).
    split; [exact Hs|]. apply eqz_feq; [now left|]. now rewrite <- Hs.
  - assert (Hs : x = y)
      by (unfold x, y, r; rewrite !host_mat_sym_cell by assumption;
          apply half_add_comm).
    split; [exact Hs|]. apply eqz_feq; [now left|]. now rewrite <- Hs.
Qed.

(** X13.  At [T = float], the gradient of the concatenated matrix that
    host bprop stores is the product of [h_mat_tmp] with the concatenated
    matrix of the forward pass: entry [b, m, j] is the sum over
    [k < n_ins], in a [float] from [0.0f] in index order, of
    [h_mat_tmp[b, m, k] * h_concat[b, k, j]]. *)
Theorem recombine_is_product (height n_emb in_width b m j : nat)
    (st : host (T := float)) :
  length (r_concat st) = height * out_width n_emb in_width ->
  length (r_mat st) = height * n_ins n_emb * n_ins n_emb ->
  b < height -> m < n_ins n_emb -> j < in_width ->
  rd (r_concat (host_bprop height n_emb in_width st))
     (n_ins n_emb * in_width * b + m * in_width + j)
  = sum_over (n_ins n_emb) (fun k =>
      fmul (rd (test_mat_tmp height n_emb in_width st)
              (n_ins n_emb * n_ins n_emb * b + m * n_ins n_emb + k))
           (rd (r_concat st) (n_ins n_emb * in_width * b + k * in_width + j))).
Proof.
  intros Hc Hg Hb Hm Hj.
  rewrite bprop_concat_cell by assumption.
  cbn [convert Elem_float]. rewrite <- accumulate_sum_over.
  unfold sym_sum, accumulate.
  apply for_ext. intros k a Hk. f_equal.
  unfold test_mat_tmp. rewrite host_mat_sym_cell; try assumption.
  - reflexivity.
  - pose proof (host_bprop_fields height n_emb in_width st) as F.
    cbv zeta in F. destruct F as (F1 & _).
    rewrite F1, (proj2 (host_disassemble_lengths _ _ _ _ _)). exact Hg.
Qed.

Section SampleLocal.
Context {T : Type} `{Elem T}.
Variables height n_emb in_width : nat.

Local Abbreviation N := (n_ins n_emb).
Local Abbreviation W := (out_width n_emb in_width).
Local Abbreviation L := (out_len n_emb in_width).
Local Abbreviation fprop := (host_fprop height n_emb in_width).
Local Abbreviation bprop := (host_bprop height n_emb in_width).

(** Inputs that agree on sample [p] give the same rows of the
    concatenated matrix of sample [p]. *)
Lemma concat_src_local (mlp emb mlp' emb' : list T) (p ni w : nat) :
  (forall i, i < in_width ->
     rd mlp' (p * in_width + i) = rd mlp (p * in_width + i)) ->
  (forall e i, e < n_emb -> i < in_width ->
     rd emb' (p * in_width * n_emb + e * in_width + i)
     = rd emb (p * in_width * n_emb + e * in_width + i)) ->
  ni < N -> w < in_width ->
  concat_src n_emb in_width mlp' emb' ni p w
  = concat_src n_emb in_width mlp emb ni p w.
Proof.
  intros Hd He Hni Hw. unfold concat_src.
  destruct (Nat.eqb_spec ni 0) as [|Hne]; [now apply Hd|].
  replace ((ni - 1) * in_width + (p * in_width * n_emb + w))
    with (p * in_width * n_emb + (ni - 1) * in_width + w) by lia.
  apply He; [unfold n_ins in Hni; lia|assumption].
Qed.

Lemma fprop_mat_local (mlp emb mlp' emb' : list T) (p m n : nat) :
  p < height ->
  (forall i, i < in_width ->
     rd mlp' (p * in_width + i) = rd mlp (p * in_width + i)) ->
  (forall e i, e < n_emb -> i < in_width ->
     rd emb' (p * in_width * n_emb + e * in_width + i)
     = rd emb (p * in_width * n_emb + e * in_width + i)) ->
  m < N -> n < N ->
  rd (r_mat (fprop mlp' emb')) (N * N * p + m * N + n)
  = rd (r_mat (fprop mlp emb)) (N * N * p + m * N + n).
Proof.
  intros Hp Hd He Hm Hn.
  rewrite !fprop_mat_cell by assumption. f_equal.
  unfold dot_rows, accumulate. apply for_ext. intros k a Hk.
  rewrite !fprop_concat_cell by assumption.
  now rewrite !(concat_src_local mlp emb mlp' emb').
Qed.

(** X7.  Forward is local to a sample: two inputs that agree on the
    dense row and the embedding rows of sample [p] give the same output
    row [p]. *)
Theorem fprop_sample_local (mlp emb mlp' emb' : list T) (p : nat) :
  p < height ->
  (forall i, i < in_width ->
     rd mlp' (p * in_width + i) = rd mlp (p * in_width + i)) ->
  (forall e i, e < n_emb -> i < in_width ->
     rd emb' (p * in_width * n_emb + e * in_width + i)
     = rd emb (p * in_width * n_emb + e * in_width + i)) ->
  row L (r_ref (fprop mlp' emb')) p = row L (r_ref (fprop mlp emb)) p.
Proof.
  intros Hp Hd He.
  pose proof (out_len_tri n_emb in_width) as HL.
  pose proof (fprop_lengths height n_emb in_width mlp emb) as [_ Hl].
  pose proof (fprop_lengths height n_emb in_width mlp' emb') as [_ Hl'].
  cbv zeta in Hl, Hl'.
  apply list_eq_rd.
  - now rewrite !(row_length L height).
  - rewrite (row_length L height) by assumption. intros k Hk.
    rewrite !rd_row by assumption.
    rewrite !fprop_ref_cell by assumption.
    destruct (decide (k < in_width)) as [Hkd|Hkd].
    + rewrite !assemble_upd_dense by assumption. now apply Hd.
    + destruct (decide (k - in_width < tri N)) as [Ht|Ht].
      * destruct (tri_decompose N (k - in_width) Ht)
          as (n & m & Hm & Hn & Hkn).
        replace k with (in_width + tri n + m) by lia.
        rewrite !assemble_upd_term by assumption.
        replace (p * N * N + m * N + n) with (N * N * p + m * N + n) by lia.
        apply fprop_mat_local; try assumption; lia.
      * now rewrite !assemble_upd_outside by (intros c Hc; lia).
Qed.

(** X8.  Backward is local to a sample: if two runs agree on the inputs
    of sample [p] and on the first [out_len - 1] cells of row [p] of the
    upstream gradient, they give the same dense and embedding gradients
    for sample [p]. *)
Theorem bprop_sample_local (mlp emb grad mlp' emb' grad' : list T) (p : nat) :
  p < height ->
  length mlp = height * in_width -> length mlp' = height * in_width ->
  length emb = height * n_emb * in_width ->
  length emb' = height * n_emb * in_width ->
  (forall i, i < in_width ->
     rd mlp' (p * in_width + i) = rd mlp (p * in_width + i)) ->
  (forall e i, e < n_emb -> i < in_width ->
     rd emb' (p * in_width * n_emb + e * in_width + i)
     = rd emb (p * in_width * n_emb + e * in_width + i)) ->
  (forall c, c < L - 1 -> rd grad' (p * L + c) = rd grad (p * L + c)) ->
  let bwd := bprop (with_ref (fprop mlp emb) grad) in
  let bwd' := bprop (with_ref (fprop mlp' emb') grad') in
  (forall w, w < in_width ->
     rd (r_in_mlp bwd') (p * in_width + w) = rd (r_in_mlp bwd) (p * in_width + w))
  /\ (forall e w, e < n_emb -> w < in_width ->
        rd (r_in_emb bwd') (p * in_width * n_emb + w + e * in_width)
        = rd (r_in_emb bwd) (p * in_width * n_emb + w + e * in_width)).
Proof.
  intros Hp Hlm Hlm' Hle Hle' Hd He Hg bwd bwd'.
  pose proof (out_len_tri n_emb in_width) as HL.
  pose proof (host_fprop_fields height n_emb in_width mlp emb) as F.
  pose proof (host_fprop_fields height n_emb in_width mlp' emb') as F'.
  cbv zeta in F, F'.
  destruct F as (Fm & Fe & _). destruct F' as (Fm' & Fe' & _).
  pose proof (fprop_lengths height n_emb in_width mlp emb) as [Hlg _].
  pose proof (fprop_lengths height n_emb in_width mlp' emb') as [Hlg' _].
  cbv zeta in Hlg, Hlg'.
  pose proof (host_fprop_concat_length height n_emb in_width mlp emb) as Hlc.
  pose proof (host_fprop_concat_length height n_emb in_width mlp' emb') as Hlc'.
  assert (Hmat : forall m n, m < N -> n < N ->
            rd (r_mat bwd') (N * N * p + m * N + n)
            = rd (r_mat bwd) (N * N * p + m * N + n)).
  { intros m n Hm Hn. unfold bwd, bwd'.
    rewrite !bprop_mat_cell by assumption. cbn [with_ref r_ref].
    destruct (Nat.ltb_spec m n) as [Hmn|]; [|reflexivity].
    apply Hg. pose proof (term_offset_lt n_emb in_width n m Hmn Hn). lia. }
  assert (Hcat : forall m j, m < N -> j < in_width ->
            rd (r_concat bwd') (N * in_width * p + m * in_width + j)
            = rd (r_concat bwd) (N * in_width * p + m * in_width + j)).
  { intros m j Hm Hj. unfold bwd, bwd'.
    rewrite !bprop_concat_cell by assumption. f_equal.
    unfold sym_sum, accumulate. apply for_ext. intros k a Hk.
    fold bwd bwd'. rewrite !Hmat by assumption.
    cbn [with_ref r_concat].
    rewrite !fprop_concat_cell by assumption.
    now rewrite !(concat_src_local mlp emb mlp' emb'). }
  split.
  - intros w Hw. unfold bwd, bwd'.
    rewrite !bprop_mlp_cell by (try assumption; cbn [with_ref r_in_mlp]; congruence).
    fold bwd bwd'. cbn [with_ref r_ref].
    rewrite Hg by lia. f_equal.
    replace (p * W + w) with (N * in_width * p + 0 * in_width + w)
      by (unfold out_width; lia).
    apply Hcat; [unfold n_ins; lia|assumption].
  - intros e w Hee Hw. unfold bwd, bwd'.
    rewrite !bprop_emb_cell by (try assumption; cbn [with_ref r_in_emb]; congruence).
    fold bwd bwd'.
    replace (p * W + (1 + e) * in_width + w)
      with (N * in_width * p + (1 + e) * in_width + w)
      by (unfold out_width; lia).
    apply Hcat; [unfold n_ins; lia|assumption].
Qed.

(** The gradients of sample [p] from the inputs and the upstream
    gradient, in the terms of the loops. *)
Lemma bprop_cells_from_inputs (mlp emb grad : list T) (p : nat) :
  p < height ->
  length mlp = height * in_width ->
  length emb = height * n_emb * in_width ->
  let bwd := bprop (with_ref (fprop mlp emb) grad) in
  let G := fun m n =>
    if m <? n then rd grad (p * L + (in_width + tri n + m)) else t0 in
  let D := fun m w =>
    convert (accumulate N (fun k =>
      get_sec_accum (G m k) (G k m)
                    (concat_src n_emb in_width mlp emb k p w))) in
  (forall w, w < in_width ->
     rd (r_in_mlp bwd) (p * in_width + w)
     = t_add (rd grad (p * L + w)) (D 0 w))
  /\ (forall e w, e < n_emb -> w < in_width ->
        rd (r_in_emb bwd) (p * in_width * n_emb + w + e * in_width)
        = D (1 + e) w).
Proof.
  intros Hp Hlm Hle bwd G D.
  pose proof (host_fprop_fields height n_emb in_width mlp emb) as F.
  cbv zeta in F. destruct F as (Fm & Fe & _).
  pose proof (fprop_lengths height n_emb in_width mlp emb) as [Hlg _].
  cbv zeta in Hlg.
  pose proof (host_fprop_concat_length height n_emb in_width mlp emb) as Hlc.
  assert (Hcat : forall m j, m < N -> j < in_width ->
            rd (r_concat bwd) (N * in_width * p + m * in_width + j) = D m j).
  { intros m j Hm Hj. unfold bwd.
    rewrite bprop_concat_cell by assumption. unfold D. f_equal.
    unfold sym_sum, accumulate. apply for_ext. intros k a Hk.
    rewrite !bprop_mat_cell by assumption.
    cbn [with_ref r_concat r_ref].
    now rewrite fprop_concat_cell by assumption. }
  split.
  - intros w Hw. unfold bwd.
    rewrite bprop_mlp_cell
      by (try assumption; cbn [with_ref r_in_mlp]; congruence).
    fold bwd. cbn [with_ref r_ref]. f_equal.
    replace (p * W + w) with (N * in_width * p + 0 * in_width + w)
      by (unfold out_width; lia).
    apply Hcat; [unfold n_ins; lia|assumption].
  - intros e w He Hw. unfold bwd.
    rewrite bprop_emb_cell
      by (try assumption; cbn [with_ref r_in_emb]; congruence).
    fold bwd.
    replace (p * W + (1 + e) * in_width + w)
      with (N * in_width * p + (1 + e) * in_width + w)
      by (unfold out_width; lia).
    apply Hcat; [unfold n_ins; lia|assumption].
Qed.


End SampleLocal.

(** X9.  Backward from the inputs and the upstream gradient alone.  With
    [G m n] the upstream gradient of the pair [m < n] and zero otherwise,
    and [x k w] entry [k, w] of the concatenated input of sample [p]: at
    [T = float], with [D m w] the sum over [k < n_ins], in a [float] from
    [0.0f] in index order, of [(G m k + G k m) * x k w], the dense
    gradient is the dense part of the upstream gradient plus [D 0 w] and
    the gradient of embedding row [e] is [D (1 + e) w]; at [T = __half]
    the three values of a term are converted to [float], added,
    multiplied and summed there, [D m w] is the sum stored as a [__half],
    and the dense gradient is the [__half] sum of the upstream gradient
    and [D 0 w]. *)
Theorem bprop_end_to_end (height n_emb in_width p : nat) :
  p < height ->
  (forall mlp emb grad : list float,
     length mlp = height * in_width ->
     length emb = height * n_emb * in_width ->
     let bwd := host_bprop height n_emb in_width
                  (with_ref (host_fprop height n_emb in_width mlp emb) grad) in
     let G := fun m n =>
       if m <? n
       then rd grad (p * out_len n_emb in_width + (in_width + tri n + m))
       else f0 in
     let D := fun m w =>
       sum_over (n_ins n_emb) (fun k =>
         fmul (fadd (G m k) (G k m))
              (concat_src n_emb in_width mlp emb k p w)) in
     (forall w, w < in_width ->
        rd (r_in_mlp bwd) (p * in_width + w)
        = fadd (rd grad (p * out_len n_emb in_width + w)) (D 0 w))
     /\ (forall e w, e < n_emb -> w < in_width ->
           rd (r_in_emb bwd) (p * in_width * n_emb + w + e * in_width)
           = D (1 + e) w))
  /\ (forall mlp emb grad : list half,
        length mlp = height * in_width ->
        length emb = height * n_emb * in_width ->
        let bwd := host_bprop height n_emb in_width
                     (with_ref (host_fprop height n_emb in_width mlp emb) grad) in
        let G := fun m n =>
          if m <? n
          then rd grad (p * out_len n_emb in_width + (in_width + tri n + m))
          else __float2half f0 in
        let D := fun m w =>
          __float2half (sum_over (n_ins n_emb) (fun k =>
            fmul (fadd (__half2float (G m k)) (__half2float (G k m)))
                 (__half2float (concat_src n_emb in_width mlp emb k p w)))) in
        (forall w, w < in_width ->
           rd (r_in_mlp bwd) (p * in_width + w)
           = __float2half
               (fadd (__half2float (rd grad (p * out_len n_emb in_width + w)))
                     (__half2float (D 0 w))))
        /\ (forall e w, e < n_emb -> w < in_width ->
              rd (r_in_emb bwd) (p * in_width * n_emb + w + e * in_width)
              = D (1 + e) w)).
Proof.
  intros Hp. split; intros mlp emb grad Hlm Hle bwd G D.
  - destruct (bprop_cells_from_inputs height n_emb in_width mlp emb grad p
                Hp Hlm Hle) as [Hd He].
    split.
    + intros w Hw. unfold bwd. rewrite (Hd w Hw).
      cbn [t_add convert Elem_float]. f_equal. apply accumulate_sum_over.
    + intros e w Hee Hw. unfold bwd. rewrite (He e w Hee Hw).
      cbn [convert Elem_float]. apply accumulate_sum_over.
  - destruct (bprop_cells_from_inputs height n_emb in_width mlp emb grad p
                Hp Hlm Hle) as [Hd He].
    split.
    + intros w Hw. unfold bwd. rewrite (Hd w Hw).
      cbn [t_add convert Elem_half]. unfold half_add.
      rewrite accumulate_sum_over. reflexivity.
    + intros e w Hee Hw. unfold bwd. rewrite (He e w Hee Hw).
      cbn [convert Elem_half]. rewrite accumulate_sum_over. reflexivity.
Qed.

(** *** A zero upstream gradient on the interaction terms *)

Lemma is_zero_fadd (a b : float) :
  is_zero a = true -> is_zero b = true -> is_zero (fadd a b) = true.
Proof.
  intros Ha Hb. apply is_zero_val in Ha as [sa Ha].
  apply is_zero_val in Hb as [sb Hb].
  unfold is_zero, Binary.is_zero.
  rewrite (fadd_val a b (S754_zero (andb sa sb))); [reflexivity| |reflexivity].
  rewrite Ha, Hb. now destruct sa, sb.
Qed.

Lemma accumulate_zero (n : nat) (term : nat -> float) :
  (forall k, k < n -> is_zero (term k) = true) -> accumulate n term = f0.
Proof.
  unfold accumulate. induction n as [|n IH]; intros Hz; [reflexivity|].
  cbn [for_]. rewrite IH by (intros k Hk; apply Hz; lia).
  apply fadd_0_zero. apply Hz. lia.
Qed.

Lemma is_zero_f0 : is_zero f0 = true.
Proof. reflexivity. Qed.

(** X11.  At [T = float], for a sample whose inputs are finite and
    whose upstream gradient is zero (of either sign) on the interaction
    terms and not a NaN on the dense part, the embedding gradient is
    [+0] everywhere and the dense gradient equals ([==]) the dense part
    of the upstream gradient. *)
Theorem zero_gradient (height n_emb in_width b : nat)
    (mlp emb grad : list float) :
  b < height ->
  length mlp = height * in_width ->
  length emb = height * n_emb * in_width ->
  (forall i, i < in_width -> is_finite (rd mlp (b * in_width + i)) = true) ->
  (forall e i, e < n_emb -> i < in_width ->
     is_finite (rd emb (b * in_width * n_emb + e * in_width + i)) = true) ->
  (forall c, in_width <= c < out_len n_emb in_width - 1 ->
     is_zero (rd grad (b * out_len n_emb in_width + c)) = true) ->
  (forall w, w < in_width ->
     is_nan (rd grad (b * out_len n_emb in_width + w)) = false) ->
  let bwd := host_bprop height n_emb in_width
               (with_ref (host_fprop height n_emb in_width mlp emb) grad) in
  (forall e w, e < n_emb -> w < in_width ->
     rd (r_in_emb bwd) (b * in_width * n_emb + w + e * in_width) = f0)
  /\ (forall w, w < in_width ->
        feq (rd (r_in_mlp bwd) (b * in_width + w))
            (rd grad (b * out_len n_emb in_width + w))).
Proof.
  intros Hb Hlm Hle Hfm Hfe Hz Hnn bwd.
  set (fwd := host_fprop height n_emb in_width mlp emb) in *.
  pose proof (host_fprop_fields height n_emb in_width mlp emb) as F.
  cbv zeta in F. fold fwd in F. destruct F as (Fm & Fe & _).
  pose proof (fprop_lengths height n_emb in_width mlp emb) as [Hlg _].
  cbv zeta in Hlg. fold fwd in Hlg.
  pose proof (host_fprop_concat_length height n_emb in_width mlp emb) as Hlc.
  fold fwd in Hlc.
  assert (Hmat : forall m n, m < n_ins n_emb -> n < n_ins n_emb ->
            is_zero (rd (r_mat bwd)
                       (n_ins n_emb * n_ins n_emb * b + m * n_ins n_emb + n))
            = true).
  { intros m n Hm Hn. unfold bwd.
    rewrite bprop_mat_cell by assumption. cbn [with_ref r_ref].
    destruct (Nat.ltb_spec m n) as [Hmn|]; [|reflexivity].
    apply Hz. pose proof (term_offset_lt n_emb in_width n m Hmn Hn). lia. }
  assert (Hfin : forall k j, k < n_ins n_emb -> j < in_width ->
            is_finite (rd (r_concat fwd)
                         (n_ins n_emb * in_width * b + k * in_width + j))
            = true).
  { intros k j Hk Hj. unfold fwd.
    rewrite fprop_concat_cell by assumption. unfold concat_src.
    destruct (Nat.eqb_spec k 0) as [|Hne]; [now apply Hfm|].
    replace ((k - 1) * in_width + (b * in_width * n_emb + j))
      with (b * in_width * n_emb + (k - 1) * in_width + j) by lia.
    apply Hfe; [unfold n_ins in Hk; lia|assumption]. }
  assert (Hcat : forall m j, m < n_ins n_emb -> j < in_width ->
            rd (r_concat bwd) (n_ins n_emb * in_width * b + m * in_width + j)
            = f0).
  { intros m j Hm Hj. unfold bwd.
    rewrite bprop_concat_cell by assumption. fold bwd.
    cbn [convert Elem_float with_ref r_concat].
    unfold sym_sum. apply accumulate_zero. intros k Hk.
    cbn [get_sec_accum Elem_float]. unfold get_sec_accum_float.
    apply fmul_zero_finite; [|now apply Hfin].
    apply is_zero_fadd; now apply Hmat. }
  split.
  - intros e w He Hw. unfold bwd.
    rewrite bprop_emb_cell by (try assumption; cbn [with_ref r_in_emb]; congruence).
    fold bwd.
    replace (b * out_width n_emb in_width + (1 + e) * in_width + w)
      with (n_ins n_emb * in_width * b + (1 + e) * in_width + w)
      by (unfold out_width; lia).
    apply Hcat; [unfold n_ins; lia|assumption].
  - intros w Hw. unfold bwd.
    rewrite bprop_mlp_cell by (try assumption; cbn [with_ref r_in_mlp]; congruence).
    fold bwd. cbn [with_ref r_ref t_add Elem_float].
    replace (b * out_width n_emb in_width + w)
      with (n_ins n_emb * in_width * b + 0 * in_width + w)
      by (unfold out_width; lia).
    rewrite Hcat by (try assumption; unfold n_ins; lia).
    apply eqz_feq; [now apply fadd_zero_r|now apply Hnn].
Qed.





(** X15.  [out_len] in [size_t]: with fewer than [2^31] embedding rows
    and a width below [2^62], the 64-bit evaluation of
    [in_width + (n_ins * (n_ins + 1) / 2 - n_ins) + 1] does not wrap and
    is [in_width + n_ins * (n_ins - 1) / 2 + 1]. *)
Theorem out_len_fits_size_t (n_emb in_width : nat) :
  (Z.of_nat n_emb < 2 ^ 31)%Z -> (Z.of_nat in_width < 2 ^ 62)%Z ->
  out_len_sz (Z.of_nat (n_ins n_emb)) (Z.of_nat in_width)
  = Z.of_nat (in_width + n_ins n_emb * (n_ins n_emb - 1) / 2 + 1).
Proof.
  intros Hn Hw.
  pose proof (out_len_tri n_emb in_width) as HL.
  pose proof (tri_double (n_ins n_emb)) as Hd.
  rewrite half_n_pred, <- HL.
  assert (Hn' : (Z.of_nat (n_ins n_emb) <= 2 ^ 31)%Z) by (unfold n_ins; lia).
  change (2 ^ 31)%Z with 2147483648%Z in *.
  change (2 ^ 62)%Z with 4611686018427387904%Z in *.
  apply out_len_sz_no_wrap; unfold size_max;
    change (2 ^ 64)%Z with 18446744073709551616%Z; nia.
Qed.

(** X17.  What the passes leave alone: host fprop returns the two input
    vectors as it received them, and host bprop returns [h_ref] as it
    received it. *)
Theorem passes_keep (height n_emb in_width : nat) :
  (forall mlp emb : list float,
     r_in_mlp (host_fprop height n_emb in_width mlp emb) = mlp
     /\ r_in_emb (host_fprop height n_emb in_width mlp emb) = emb)
  /\ (forall mlp emb : list half,
        r_in_mlp (host_fprop height n_emb in_width mlp emb) = mlp
        /\ r_in_emb (host_fprop height n_emb in_width mlp emb) = emb)
  /\ (forall st : host (T := float),
        r_ref (host_bprop height n_emb in_width st) = r_ref st)
  /\ (forall st : host (T := half),
        r_ref (host_bprop height n_emb in_width st) = r_ref st).
Proof.
  split; [|split; [|split]].
  - intros mlp emb.
    destruct (host_fprop_fields height n_emb in_width mlp emb) as (? & ? & _).
    now split.
  - intros mlp emb.
    destruct (host_fprop_fields height n_emb in_width mlp emb) as (? & ? & _).
    now split.
  - intros st. apply (host_bprop_fields height n_emb in_width st).
  - intros st. apply (host_bprop_fields height n_emb in_width st).
Qed.

(* ================================================================== *)
(** ** Every access of the host passes is in range *)

Section CheckedLoops.
Context {S : Type}.

(** A checked loop whose body succeeds and agrees with the unchecked
    body on the states that satisfy an invariant. *)
Lemma for_chk_sim (I : nat -> S -> Prop) (n : nat)
    (bodyc : nat -> S -> option S) (body : nat -> S -> S) (s : S) :
  I 0 s ->
  (forall i t, i < n -> I i t ->
     bodyc i t = Some (body i t) /\ I (1 + i) (body i t)) ->
  for_chk n bodyc s = Some (for_ n body s) /\ I n (for_ n body s).
Proof.
  intros H0 Hstep. induction n as [|n IH]; [now split|].
  cbn [for_chk for_].
  destruct IH as [-> Hn]; [intros i t Hi; apply Hstep; lia|].
  apply Hstep; [lia|assumption].
Qed.

Lemma for_chk_inv (I : S -> Prop) (n : nat)
    (bodyc : nat -> S -> option S) (body : nat -> S -> S) (s : S) :
  I s ->
  (forall i t, i < n -> I t -> bodyc i t = Some (body i t) /\ I (body i t)) ->
  for_chk n bodyc s = Some (for_ n body s) /\ I (for_ n body s).
Proof. intros H0 Hstep. now apply (for_chk_sim (fun _ => I)). Qed.

(** A checked loop that succeeds keeps what its body keeps. *)
Lemma for_chk_pres (I : S -> Prop) (n : nat)
    (bodyc : nat -> S -> option S) (s t : S) :
  (forall j u u', j < n -> I u -> bodyc j u = Some u' -> I u') ->
  I s -> for_chk n bodyc s = Some t -> I t.
Proof.
  intros Hp Is. revert t. induction n as [|n IH]; intros t; cbn [for_chk].
  - now intros [= <-].
  - destruct (for_chk n bodyc s) as [u|]; [|discriminate].
    intros Hb. apply (Hp n u t); [lia| |assumption].
    apply IH; [|reflexivity]. intros j v v' Hj. apply Hp. lia.
Qed.

(** A checked loop fails when one of its iterations fails on every
    state the earlier iterations can leave. *)
Lemma for_chk_fail (I : S -> Prop) (n : nat)
    (bodyc : nat -> S -> option S) (s : S) (i : nat) :
  I s ->
  (forall j u u', j < n -> I u -> bodyc j u = Some u' -> I u') ->
  i < n ->
  (forall u, I u -> bodyc i u = None) ->
  for_chk n bodyc s = None.
Proof.
  intros Is Hp Hi Hf. induction n as [|n IH]; [lia|]. cbn [for_chk].
  destruct (for_chk n bodyc s) as [u|] eqn:Hu; [|reflexivity].
  destruct (decide (i = n)) as [->|Hne].
  - apply Hf. apply (for_chk_pres I n bodyc s u); try assumption.
    intros j v v' Hj. apply Hp. lia.
  - discriminate IH; [|lia]. intros j v v' Hj. apply Hp. lia.
Qed.

End CheckedLoops.

Lemma accumulate_chk_some (n : nat) (termc : nat -> option float)
    (term : nat -> float) :
  (forall k, k < n -> termc k = Some (term k)) ->
  accumulate_chk n termc = Some (accumulate n term).
Proof.
  intros Ht. unfold accumulate_chk, accumulate.
  apply (for_chk_inv (fun _ => True)); [exact I|].
  intros k a Hk _. now rewrite Ht.
Qed.

Section CheckedFacts.
Context {T : Type} `{Elem T}.
Variables height n_emb in_width : nat.

Local Abbreviation N := (n_ins n_emb).
Local Abbreviation W := (out_width n_emb in_width).
Local Abbreviation L := (out_len n_emb in_width).

Lemma rd_chk_some (v : list T) (i : nat) :
  i < length v -> rd_chk v i = Some (rd v i).
Proof. apply rd_lookup. Qed.

Lemma wr_chk_some (v : list T) (i : nat) (x : T) :
  i < length v -> wr_chk v i x = Some (wr v i x).
Proof.
  intros Hi. unfold wr_chk. now destruct (Nat.ltb_spec i (length v)); [|lia].
Qed.

Lemma idx3_lt' (h n1 n2 p i j : nat) :
  p < h -> i < n1 -> j < n2 -> p * (n1 * n2) + i * n2 + j < h * (n1 * n2).
Proof.
  intros Hp Hi Hj. pose proof (idx3_lt h n1 n2 p i j Hp Hi Hj). lia.
Qed.


Lemma host_mat_sym_in_range (mat tmp : list T) :
  length mat = height * N * N -> length tmp = height * N * N ->
  host_mat_sym_chk height n_emb mat tmp
  = Some (host_mat_sym height n_emb mat tmp).
Proof.
  intros Hm Ht. unfold host_mat_sym_chk, host_mat_sym.
  apply (for_chk_inv (fun a => length a = height * N * N)); [assumption|].
  intros p a Hp Ha.
  apply (for_chk_inv (fun a => length a = height * N * N)); [assumption|].
  intros m a' Hm' Ha'.
  apply (for_chk_inv (fun a => length a = height * N * N)); [assumption|].
  intros n a'' Hn Ha''.
  rewrite !rd_chk_some by (rewrite Hm; now apply idx3_lt).
  rewrite wr_chk_some by (rewrite Ha''; now apply idx3_lt).
  split; [reflexivity|]. now rewrite length_wr.
Qed.

Lemma host_recombine_in_range (mat tmp concat : list T) :
  length mat = height * N * N -> length tmp = height * W ->
  length concat = height * W ->
  host_recombine_chk height n_emb in_width mat tmp concat
  = Some (host_recombine height n_emb in_width mat tmp concat).
Proof.
  intros Hm Ht Hc. unfold host_recombine_chk, host_recombine.
  apply (for_chk_inv (fun a => length a = height * W)); [assumption|].
  intros p a Hp Ha.
  apply (for_chk_inv (fun a => length a = height * W)); [assumption|].
  intros m a' Hm' Ha'.
  apply (for_chk_inv (fun a => length a = height * W)); [assumption|].
  intros n a'' Hn Ha''.
  rewrite (accumulate_chk_some N _ (fun k =>
    get_sec_accum (rd mat (N * N * p + m * N + k))
                  (rd mat (N * N * p + k * N + m))
                  (rd tmp (N * in_width * p + k * in_width + n)))).
  - rewrite wr_chk_some
      by (rewrite Ha''; unfold out_width; rewrite Nat.mul_assoc;
          now apply idx3_lt).
    split; [reflexivity|]. now rewrite length_wr.
  - intros k Hk.
    rewrite !(rd_chk_some mat) by (rewrite Hm; now apply idx3_lt).
    rewrite rd_chk_some
      by (rewrite Ht; unfold out_width; rewrite Nat.mul_assoc;
          now apply idx3_lt).
    reflexivity.
Qed.


Lemma dense_idx_lt (h w : nat) :
  h < height -> w < in_width -> h * in_width + w < height * in_width.
Proof. intros. now apply idx2_lt. Qed.

Lemma emb_idx_lt (h e w : nat) :
  h < height -> e < n_emb -> w < in_width ->
  h * in_width * n_emb + w + e * in_width < height * n_emb * in_width.
Proof.
  intros Hh He Hw.
  pose proof (idx2_lt (height * n_emb) in_width (h * n_emb + e) w
                (idx2_lt height n_emb h e Hh He) Hw). lia.
Qed.

Lemma concat_idx_lt (h ni w : nat) :
  h < height -> ni < N -> w < in_width ->
  h * W + ni * in_width + w < height * W.
Proof.
  intros Hh Hn Hw. unfold out_width.
  pose proof (idx2_lt (height * N) in_width (h * N + ni) w
                (idx2_lt height N h ni Hh Hn) Hw). lia.
Qed.

Lemma concat_cell_in_range (fprop : bool) (ni h w : nat) (s : concat_state) :
  ni < N -> h < height -> w < in_width -> sized height n_emb in_width s ->
  concat_cell_chk n_emb in_width fprop ni h w s
  = Some (concat_cell n_emb in_width fprop ni h w s)
  /\ sized height n_emb in_width (concat_cell n_emb in_width fprop ni h w s).
Proof.
  intros Hni Hh Hw (Sm & Se & Sc).
  pose proof (dense_idx_lt h w Hh Hw) as Hd.
  pose proof (concat_idx_lt h ni w Hh Hni Hw) as Ho.
  unfold concat_cell_chk, concat_cell, sized.
  destruct fprop; [|destruct (Nat.eqb_spec ni 0) as [Hz|Hz]].
  - destruct (Nat.eqb_spec ni 0) as [Hz|Hz].
    + rewrite rd_chk_some by lia. rewrite wr_chk_some by lia.
      cbn [h_in_mlp h_in_emb h_concat]. now rewrite length_wr.
    + pose proof (emb_idx_lt h (ni - 1) w Hh ltac:(unfold n_ins in Hni; lia) Hw).
      rewrite rd_chk_some by lia. rewrite wr_chk_some by lia.
      cbn [h_in_mlp h_in_emb h_concat]. now rewrite length_wr.
  - rewrite !rd_chk_some by lia. rewrite wr_chk_some by lia.
    cbn [h_in_mlp h_in_emb h_concat]. now rewrite length_wr.
  - pose proof (emb_idx_lt h (ni - 1) w Hh ltac:(unfold n_ins in Hni; lia) Hw).
    rewrite rd_chk_some by lia. rewrite wr_chk_some by lia.
    cbn [h_in_mlp h_in_emb h_concat]. now rewrite length_wr.
Qed.

Lemma concat_op_in_range (fprop : bool) (s : concat_state) :
  sized height n_emb in_width s ->
  concat_op_chk height n_emb in_width fprop s
  = Some (concat_op height n_emb in_width fprop s)
  /\ sized height n_emb in_width (concat_op height n_emb in_width fprop s).
Proof.
  intros Hs. unfold concat_op_chk, concat_op.
  apply (for_chk_inv (sized height n_emb in_width)); [assumption|]. intros ni t Hni Ht.
  apply (for_chk_inv (sized height n_emb in_width)); [assumption|]. intros h t' Hh Ht'.
  apply (for_chk_inv (sized height n_emb in_width)); [assumption|]. intros w t'' Hw Ht''.
  now apply concat_cell_in_range.
Qed.




Lemma disassemble_sample_in_range (ref : list T) (p : nat)
    (x : list T * list T) :
  length ref = height * L ->
  length x.1 = height * in_width -> length x.2 = height * N * N ->
  p < height ->
  disassemble_sample_chk n_emb in_width ref p x
  = Some (disassemble_sample n_emb in_width ref p x)
  /\ length (disassemble_sample n_emb in_width ref p x).1 = height * in_width
  /\ length (disassemble_sample n_emb in_width ref p x).2 = height * N * N.
Proof.
  intros Hr Hx1 Hx2 Hp. unfold disassemble_sample_chk, disassemble_sample.
  pose proof (out_len_tri n_emb in_width) as HL.
  destruct (for_chk_sim
    (fun i (st : list T * list T * nat) =>
       length st.1.1 = height * in_width /\
       length st.1.2 = height * N * N /\ st.2 = i)
    in_width
    (fun i '(h_in_mlp, h_mat, cur_idx) =>
       let? x := rd_chk ref (p * L + cur_idx) in
       let? r := wr_chk h_in_mlp (p * in_width + i) x in
       Some (r, h_mat, S cur_idx))
    (fun i '(h_in_mlp, h_mat, cur_idx) =>
       (wr h_in_mlp (p * in_width + i) (rd ref (p * L + cur_idx)),
        h_mat, S cur_idx))
    (x, 0)) as [-> (Hl1 & Hl1' & Hc1)].
  { now repeat split. }
  { intros i [[a b] c] Hi (Ha & Hb & Hc). cbn [fst snd] in *. subst c.
    rewrite rd_chk_some by (rewrite Hr; apply idx2_lt; lia).
    rewrite wr_chk_some by (rewrite Ha; now apply idx2_lt).
    cbn [fst snd]. now rewrite length_wr. }
  match goal with |- context [for_ in_width ?b ?s] =>
    set (st1 := for_ in_width b s) in * end.
  destruct (for_chk_sim
    (fun n (st : list T * list T * nat) =>
       length st.1.1 = height * in_width /\
       length st.1.2 = height * N * N /\ st.2 = in_width + tri n)
    N
    (fun n => for_chk N (fun m '(h_in_mlp, h_mat, cur_idx) =>
       if m <? n then
         let? x := rd_chk ref (p * L + cur_idx) in
         let? r := wr_chk h_mat (p * N * N + m * N + n) x in
         Some (h_in_mlp, r, S cur_idx)
       else
         let? r := wr_chk h_mat (p * N * N + m * N + n) t0 in
         Some (h_in_mlp, r, cur_idx)))
    (fun n => for_ N (fun m '(h_in_mlp, h_mat, cur_idx) =>
       if m <? n then
         (h_in_mlp,
          wr h_mat (p * N * N + m * N + n) (rd ref (p * L + cur_idx)),
          S cur_idx)
       else (h_in_mlp, wr h_mat (p * N * N + m * N + n) t0, cur_idx)))
    st1) as [-> (Hl2 & Hl2' & _)].
  { split; [assumption|]. split; [assumption|]. cbn [tri]. lia. }
  { intros n st Hn (Ha & Hb & Hc).
    destruct (for_chk_sim
      (fun m (st : list T * list T * nat) =>
         length st.1.1 = height * in_width /\
         length st.1.2 = height * N * N /\
         st.2 = in_width + tri n + min m n)
      N
      (fun m '(h_in_mlp, h_mat, cur_idx) =>
         if m <? n then
           let? x := rd_chk ref (p * L + cur_idx) in
           let? r := wr_chk h_mat (p * N * N + m * N + n) x in
           Some (h_in_mlp, r, S cur_idx)
         else
           let? r := wr_chk h_mat (p * N * N + m * N + n) t0 in
           Some (h_in_mlp, r, cur_idx))
      (fun m '(h_in_mlp, h_mat, cur_idx) =>
         if m <? n then
           (h_in_mlp,
            wr h_mat (p * N * N + m * N + n) (rd ref (p * L + cur_idx)),
            S cur_idx)
         else (h_in_mlp, wr h_mat (p * N * N + m * N + n) t0, cur_idx))
      st) as [-> (Hl & Hl' & Hcc)].
    - split; [assumption|]. split; [assumption|lia].
    - intros m [[a b] c] Hmm (Ha' & Hb' & Hc'). cbn [fst snd] in *. subst c.
      pose proof (idx3_lt height N N p m n Hp Hmm Hn).
      destruct (Nat.ltb_spec m n) as [Hmn|Hmn].
      + pose proof (term_offset_lt n_emb in_width n m Hmn Hn).
        rewrite rd_chk_some by (rewrite Hr; apply idx2_lt; lia).
        rewrite wr_chk_some by lia.
        cbn [fst snd]. rewrite length_wr. split; [reflexivity|].
        split; [assumption|]. split; lia.
      + rewrite wr_chk_some by lia.
        cbn [fst snd]. rewrite length_wr. split; [reflexivity|].
        split; [assumption|]. split; lia.
    - split; [reflexivity|]. split; [assumption|]. split; [assumption|].
      rewrite Hcc. change (tri (1 + n)) with (tri n + n). lia. }
  split; [reflexivity|]. split; assumption.
Qed.

Lemma host_disassemble_in_range (ref : list T) (x : list T * list T) :
  length ref = height * L ->
  length x.1 = height * in_width -> length x.2 = height * N * N ->
  host_disassemble_chk height n_emb in_width ref x
  = Some (host_disassemble height n_emb in_width ref x).
Proof.
  intros Hr Hx1 Hx2. unfold host_disassemble_chk, host_disassemble.
  apply (for_chk_inv (fun a : list T * list T =>
           length a.1 = height * in_width /\ length a.2 = height * N * N));
    [now split|].
  intros p a Hp [Ha1 Ha2]. now apply disassemble_sample_in_range.
Qed.

End CheckedFacts.

Section InRange.
Context {T : Type} `{Elem T}.
Variables height n_emb in_width : nat.

Local Abbreviation N := (n_ins n_emb).
Local Abbreviation W := (out_width n_emb in_width).
Local Abbreviation L := (out_len n_emb in_width).


(** X19.  Host bprop stays in range: on host vectors of the sizes the
    test allocates, every read and write of the disassembly, the
    recombination, the [m + mT] loop and the scatter addresses an element
    of its vector, and the checked pass returns what the pass computes. *)
Theorem bprop_in_range (st : host) :
  length (r_in_mlp st) = height * in_width ->
  length (r_in_emb st) = height * n_emb * in_width ->
  length (r_concat st) = height * W ->
  length (r_mat st) = height * N * N ->
  length (r_ref st) = height * L ->
  host_bprop_chk height n_emb in_width st
  = Some (host_bprop height n_emb in_width st).
Proof.
  intros Hm He Hc Hg Hr. unfold host_bprop_chk, host_bprop.
  rewrite host_disassemble_in_range by assumption.
  pose proof (host_disassemble_lengths height n_emb in_width (r_ref st)
                (r_in_mlp st, r_mat st)) as [Hl1 Hl2].
  destruct (host_disassemble height n_emb in_width (r_ref st)
              (r_in_mlp st, r_mat st)) as [in_mlp h_mat].
  cbn [fst snd] in Hl1, Hl2.
  rewrite host_recombine_in_range by (try assumption; congruence).
  rewrite host_mat_sym_in_range by congruence.
  destruct (concat_op_in_range height n_emb in_width false
              (ConcatState in_mlp (r_in_emb st)
                 (host_recombine height n_emb in_width h_mat (r_concat st)
                    (r_concat st)))) as [-> _]; [|reflexivity].
  repeat split; cbn [h_in_mlp h_in_emb h_concat]; try congruence.
  destruct (host_recombine_cellwise height n_emb in_width h_mat (r_concat st)
              (r_concat st)) as [-> _]. assumption.
Qed.

(** X20.  A vector that is too short is read past its end: with at
    least one sample and one column, the checked fprop fails when the
    dense vector has fewer than [height * in_width] elements, and, with
    at least one embedding row, when the embedding vector has fewer than
    [height * n_emb * in_width]. *)
Theorem fprop_short_input (mlp emb : list T) :
  0 < height -> 0 < in_width ->
  length mlp < height * in_width
  \/ (0 < n_emb /\ length emb < height * n_emb * in_width) ->
  host_fprop_chk height n_emb in_width mlp emb = None.
Proof.
  intros Hh Hw Hshort. unfold host_fprop_chk.
  set (I := fun t : concat_state (T := T) =>
              h_in_mlp t = mlp /\ h_in_emb t = emb).
  assert (Hcell : forall ni h w t t', I t ->
            concat_cell_chk n_emb in_width true ni h w t = Some t' -> I t').
  { intros ni h w t t' [Im Ie]. unfold concat_cell_chk.
    destruct (if ni =? 0 then _ else _); [|discriminate].
    destruct (wr_chk _ _ _); [|discriminate].
    intros [= <-]. now split. }
  assert (Hrow : forall ni h t t', I t ->
            for_chk in_width (fun w => concat_cell_chk n_emb in_width true ni h w) t
            = Some t' -> I t').
  { intros ni h t t' It. apply (for_chk_pres I); [|assumption].
    intros w u u' _. apply Hcell. }
  assert (Hblk : forall ni t t', I t ->
            for_chk height (fun h => for_chk in_width (fun w =>
              concat_cell_chk n_emb in_width true ni h w)) t = Some t' -> I t').
  { intros ni t t' It. apply (for_chk_pres I); [|assumption].
    intros h u u' _. apply Hrow. }
  assert (Hfail : exists ni, ni < N /\ forall t, I t ->
            concat_cell_chk n_emb in_width true ni (height - 1) (in_width - 1) t
            = None).
  { destruct Hshort as [Hs|[Hn Hs]].
    - exists 0. split; [unfold n_ins; lia|]. intros t [Im _].
      unfold concat_cell_chk, rd_chk. cbn [Nat.eqb]. rewrite Im.
      rewrite lookup_ge_None_2; [reflexivity|].
      pose proof (idx2_lt height in_width (height - 1) (in_width - 1)).
      destruct height, in_width; lia.
    - exists n_emb. split; [unfold n_ins; lia|]. intros t [_ Ie].
      unfold concat_cell_chk, rd_chk. rewrite Ie.
      destruct (Nat.eqb_spec n_emb 0); [lia|].
      rewrite lookup_ge_None_2; [reflexivity|].
      destruct height as [|h'], in_width as [|w'], n_emb as [|e']; lia. }
  destruct Hfail as (ni & Hni & Hfail).
  unfold concat_op_chk.
  rewrite (for_chk_fail I N _ _ ni); [reflexivity|now split| |assumption|].
  - intros j t t' _. apply Hblk.
  - intros t It.
    apply (for_chk_fail I height _ _ (height - 1)); [assumption| |lia|].
    + intros j u u' _. apply Hrow.
    + intros u Iu.
      apply (for_chk_fail I in_width _ _ (in_width - 1));
        [assumption| |lia|now apply Hfail].
      intros j v v' _. apply Hcell.
Qed.

End InRange.

(* ================================================================== *)
(** ** The further properties on the scenario *)

Lemma disassemble_assemble_witness :
  let d := host_disassemble 2 1 2
             (host_assemble 2 1 2 scenario_dense (r_mat scenario_fwd)
                (replicate 8 t0))
             (fZ <$> [9; 9; 9; 9]%Z, replicate 8 (fZ 7)) in
  d.1 = scenario_dense
  /\ forall p m n, p < 2 -> m < n_ins 1 -> n < n_ins 1 ->
       rd d.2 (n_ins 1 * n_ins 1 * p + m * n_ins 1 + n)
       = if m <? n
         then rd (r_mat scenario_fwd) (n_ins 1 * n_ins 1 * p + m * n_ins 1 + n)
         else t0.
Proof.
  apply (disassemble_assemble 2 1 2 scenario_dense (r_mat scenario_fwd)
           (replicate 8 t0) (fZ <$> [9; 9; 9; 9]%Z, replicate 8 (fZ 7)));
    reflexivity.
Defined.

Lemma assemble_disassemble_witness :
  let grad := fZ <$> [1; 2; 3; 4; 5; 6; 7; 8]%Z in
  let d := host_disassemble 2 1 2 grad (replicate 4 t0, replicate 8 t0) in
  let out := host_assemble 2 1 2 d.1 d.2 (replicate 8 (fZ 9)) in
  (forall c, c < out_len 1 2 - 1 ->
     rd out (1 * out_len 1 2 + c) = rd grad (1 * out_len 1 2 + c))
  /\ rd out (1 * out_len 1 2 + (out_len 1 2 - 1))
     = rd (replicate 8 (fZ 9)) (1 * out_len 1 2 + (out_len 1 2 - 1)).
Proof.
  apply (assemble_disassemble 2 1 2 (fZ <$> [1; 2; 3; 4; 5; 6; 7; 8]%Z)
           (replicate 8 (fZ 9)) (replicate 4 t0, replicate 8 t0) 1);
    try reflexivity. lia.
Defined.

Lemma assemble_keeps_pad_witness :
  row (out_len 1 2)
    (host_assemble 2 1 2 scenario_dense (r_mat scenario_fwd)
       (replicate 8 (fZ 9))) 1
  = dense_row 2 scenario_dense 1 ++ upper_terms 1 (r_mat scenario_fwd) 1
      ++ [rd (replicate 8 (fZ 9)) (1 * out_len 1 2 + (out_len 1 2 - 1))].
Proof.
  apply (assemble_keeps_pad 2 1 2 scenario_dense (r_mat scenario_fwd)
           (replicate 8 (fZ 9)) 1); [reflexivity|lia].
Defined.


Lemma fprop_overwrites_witness :
  h_concat (concat_op 2 1 2 true
              (ConcatState scenario_dense scenario_emb (replicate 8 (fZ 9))))
  = h_concat (concat_op 2 1 2 true
                (ConcatState scenario_dense scenario_emb (replicate 8 t0)))
  /\ host_matmul 2 1 2 (r_concat scenario_fwd) (replicate 8 (fZ 9))
     = host_matmul 2 1 2 (r_concat scenario_fwd) (replicate 8 t0).
Proof.
  apply (fprop_overwrites 2 1 2 scenario_dense scenario_emb
           (replicate 8 t0) (replicate 8 (fZ 9)) (r_concat scenario_fwd)
           (replicate 8 t0) (replicate 8 (fZ 9))); reflexivity.
Defined.

Lemma bprop_reads_witness :
  host_bprop 2 1 2
    (Host (replicate 4 (fZ 9)) (replicate 4 (fZ 8))
       (r_concat scenario_fwd) (replicate 8 (fZ 7)) (r_ref scenario_fwd))
  = host_bprop 2 1 2 scenario_fwd.
Proof.
  apply (bprop_reads 2 1 2 scenario_fwd
           (Host (replicate 4 (fZ 9)) (replicate 4 (fZ 8))
              (r_concat scenario_fwd) (replicate 8 (fZ 7))
              (r_ref scenario_fwd))); reflexivity.
Defined.

Lemma fprop_sample_local_witness :
  row (out_len 1 2)
    (r_ref (host_fprop 2 1 2 (fZ <$> [1; 2; 9; 9]%Z) (fZ <$> [5; 6; 0; 0]%Z))) 0
  = row (out_len 1 2) (r_ref (host_fprop 2 1 2 scenario_dense scenario_emb)) 0.
Proof.
  apply (fprop_sample_local 2 1 2 scenario_dense scenario_emb
           (fZ <$> [1; 2; 9; 9]%Z) (fZ <$> [5; 6; 0; 0]%Z) 0).
  - lia.
  - intros [|[|i]] Hi; [reflexivity|reflexivity|lia].
  - intros [|e] [|[|i]] He Hi; try lia; reflexivity.
Defined.

Lemma bprop_sample_local_witness :
  let bwd := host_bprop 2 1 2
               (with_ref (host_fprop 2 1 2 scenario_dense scenario_emb)
                  (fZ <$> [0; 0; 1; 0; 0; 0; 1; 0]%Z)) in
  let bwd' := host_bprop 2 1 2
                (with_ref (host_fprop 2 1 2 (fZ <$> [1; 2; 9; 9]%Z)
                             (fZ <$> [5; 6; 0; 0]%Z))
                   (fZ <$> [0; 0; 1; 4; 3; 3; 3; 3]%Z)) in
  (forall w, w < 2 ->
     rd (r_in_mlp bwd') (0 * 2 + w) = rd (r_in_mlp bwd) (0 * 2 + w))
  /\ (forall e w, e < 1 -> w < 2 ->
        rd (r_in_emb bwd') (0 * 2 * 1 + w + e * 2)
        = rd (r_in_emb bwd) (0 * 2 * 1 + w + e * 2)).
Proof.
  apply (bprop_sample_local 2 1 2 scenario_dense scenario_emb
           (fZ <$> [0; 0; 1; 0; 0; 0; 1; 0]%Z)
           (fZ <$> [1; 2; 9; 9]%Z) (fZ <$> [5; 6; 0; 0]%Z)
           (fZ <$> [0; 0; 1; 4; 3; 3; 3; 3]%Z) 0); try reflexivity.
  - lia.
  - intros [|[|i]] Hi; [reflexivity|reflexivity|lia].
  - intros [|e] [|[|i]] He Hi; try lia; reflexivity.
  - assert (HL : out_len 1 2 = 4) by reflexivity. rewrite HL.
    intros [|[|[|c]]] Hc; try lia; reflexivity.
Defined.

Lemma bprop_end_to_end_witness :
  let grad := fZ <$> [0; 0; 1; 0; 0; 0; 1; 0]%Z in
  let bwd := host_bprop 2 1 2
               (with_ref (host_fprop 2 1 2 scenario_dense scenario_emb) grad) in
  let G := fun m n =>
    if m <? n then rd grad (1 * out_len 1 2 + (2 + tri n + m)) else f0 in
  let D := fun m w =>
    sum_over (n_ins 1) (fun k =>
      fmul (fadd (G m k) (G k m))
           (concat_src 1 2 scenario_dense scenario_emb k 1 w)) in
  (forall w, w < 2 ->
     rd (r_in_mlp bwd) (1 * 2 + w)
     = fadd (rd grad (1 * out_len 1 2 + w)) (D 0 w))
  /\ (forall e w, e < 1 -> w < 2 ->
        rd (r_in_emb bwd) (1 * 2 * 1 + w + e * 2) = D (1 + e) w).
Proof.
  assert (H1 : 1 < 2) by lia.
  apply (proj1 (bprop_end_to_end 2 1 2 1 H1) scenario_dense scenario_emb
           (fZ <$> [0; 0; 1; 0; 0; 0; 1; 0]%Z)); reflexivity.
Defined.


Lemma zero_gradient_witness :
  let bwd := host_bprop 2 1 2
               (with_ref (host_fprop 2 1 2 scenario_dense scenario_emb)
                  (fZ <$> [3; 4; 0; 9; 1; 1; 1; 1]%Z)) in
  (forall e w, e < 1 -> w < 2 ->
     rd (r_in_emb bwd) (0 * 2 * 1 + w + e * 2) = f0)
  /\ (forall w, w < 2 ->
        feq (rd (r_in_mlp bwd) (0 * 2 + w))
            (rd (fZ <$> [3; 4; 0; 9; 1; 1; 1; 1]%Z) (0 * out_len 1 2 + w))).
Proof.
  apply (zero_gradient 2 1 2 0 scenario_dense scenario_emb
           (fZ <$> [3; 4; 0; 9; 1; 1; 1; 1]%Z)); try reflexivity.
  - lia.
  - intros [|[|i]] Hi; [reflexivity|reflexivity|lia].
  - intros [|e] [|[|i]] He Hi; try lia; reflexivity.
  - assert (HL : out_len 1 2 = 4) by reflexivity. rewrite HL.
    intros [|[|[|c]]] Hc; try lia; reflexivity.
  - intros [|[|w]] Hw; [reflexivity|reflexivity|lia].
Defined.

Lemma mat_tmp_symmetric_witness :
  let r := host_mat_sym 2 1 (fZ <$> [0; 1; 0; 0; 0; 2; 0; 0]%Z)
             (fZ <$> [0; 1; 0; 0; 0; 2; 0; 0]%Z) in
  let x := rd r (n_ins 1 * n_ins 1 * 1 + 0 * n_ins 1 + 1) in
  let y := rd r (n_ins 1 * n_ins 1 * 1 + 1 * n_ins 1 + 0) in
  x = y /\ feq x y.
Proof.
  assert (H1 : 1 < 2) by lia.
  assert (H2 : 0 < n_ins 1) by (unfold n_ins; lia).
  assert (H3 : 1 < n_ins 1) by (unfold n_ins; lia).
  apply (proj1 (mat_tmp_symmetric 2 1 1 0 1 H1 H2 H3)
           (fZ <$> [0; 1; 0; 0; 0; 2; 0; 0]%Z)
           (fZ <$> [0; 1; 0; 0; 0; 2; 0; 0]%Z)).
  - reflexivity.
  - vm_compute. reflexivity.
Defined.

Lemma recombine_is_product_witness :
  let st := with_ref scenario_fwd (fZ <$> [0; 0; 1; 0; 0; 0; 1; 0]%Z) in
  rd (r_concat (host_bprop 2 1 2 st)) (n_ins 1 * 2 * 1 + 1 * 2 + 0)
  = sum_over (n_ins 1) (fun k =>
      fmul (rd (test_mat_tmp 2 1 2 st) (n_ins 1 * n_ins 1 * 1 + 1 * n_ins 1 + k))
           (rd (r_concat st) (n_ins 1 * 2 * 1 + k * 2 + 0))).
Proof.
  apply (recombine_is_product 2 1 2 1 1 0
           (with_ref scenario_fwd (fZ <$> [0; 0; 1; 0; 0; 0; 1; 0]%Z)));
    try reflexivity; try lia. unfold n_ins; lia.
Defined.


(** The largest case of the test: 130 embedding rows of width 128. *)
Lemma out_len_fits_size_t_witness :
  out_len_sz (Z.of_nat (n_ins 130)) (Z.of_nat 128)
  = Z.of_nat (128 + n_ins 130 * (n_ins 130 - 1) / 2 + 1).
Proof.
  apply (out_len_fits_size_t 130 128); reflexivity.
Defined.


Lemma bprop_in_range_witness :
  host_bprop_chk 2 1 2
    (with_ref scenario_fwd (fZ <$> [0; 0; 1; 0; 0; 0; 1; 0]%Z))
  = Some (host_bprop 2 1 2
            (with_ref scenario_fwd (fZ <$> [0; 0; 1; 0; 0; 0; 1; 0]%Z))).
Proof.
  apply (bprop_in_range 2 1 2
           (with_ref scenario_fwd (fZ <$> [0; 0; 1; 0; 0; 0; 1; 0]%Z)));
    reflexivity.
Defined.

(** A dense vector of three elements where four are read. *)
Lemma fprop_short_input_witness :
  host_fprop_chk 2 1 2 (fZ <$> [1; 2; 3]%Z) scenario_emb = None.
Proof.
  apply (fprop_short_input 2 1 2 (fZ <$> [1; 2; 3]%Z) scenario_emb);
    [lia|lia|left; cbn [length fmap list_fmap]; lia].
Defined.
